(** * PrairieLearn course archiver: a shallow embedding of [scraper.py] and
    [utilities/fix_html_paths.py], and the properties of its sanitizer,
    validity check, downloader, discovery, selection, crawl loop and path
    rewriter. *)

From Stdlib Require Import ZArith Ascii String List Lia DecimalString Decimal DecimalPos.
From stdpp Require Import gmap strings list fin_maps sorting.



(** ** Python [str] values

    A Python [str] is modelled by [string], each character standing for the
    code point of the same number (so the texts of the model are those whose
    code points lie below 256).  The algorithms work on the list of
    characters. *)

Definition chars (s : string) : list ascii := list_ascii_of_string s.
Definition of_chars (l : list ascii) : string := string_of_list_ascii l.

Definition code (c : ascii) : Z := Z.of_N (N_of_ascii c).

(** [len(s)] *)
Definition py_len (s : string) : Z := Z.of_nat (length (chars s)).

(** [str.isspace] on one character, for code points below 256. *)
Definition is_space (c : ascii) : bool :=
  let n := code c in
  ((9 <=? n) && (n <=? 13) || (28 <=? n) && (n <=? 32)
   || (n =? 133) || (n =? 160))%Z.

Fixpoint lstrip_chars (l : list ascii) : list ascii :=
  match l with
  | c :: l' => if is_space c then lstrip_chars l' else l
  | [] => []
  end.

Definition rstrip_chars (l : list ascii) : list ascii :=
  rev (lstrip_chars (rev l)).

(** [s.strip()] *)
Definition strip_chars (l : list ascii) : list ascii :=
  rstrip_chars (lstrip_chars l).
Definition py_strip (s : string) : string := of_chars (strip_chars (chars s)).

(** [s.lower()] on code points below 256: the ASCII letters and the Latin-1
    capitals 192..222 except the multiplication sign 215. *)
Definition lower_char (c : ascii) : ascii :=
  let n := code c in
  if ((65 <=? n) && (n <=? 90) || (192 <=? n) && (n <=? 222) && negb (n =? 215))%Z
  then ascii_of_N (Z.to_N (n + 32)) else c.
Definition py_lower (s : string) : string := of_chars (map lower_char (chars s)).

(** [s[:k]] for an integer [k], negative [k] counting from the end. *)
Definition slice_to {A} (l : list A) (k : Z) : list A :=
  if (0 <=? k)%Z then take (Z.to_nat k) l
  else take (Z.to_nat (Z.of_nat (length l) + k)) l.

(** [needle in s] *)
Fixpoint starts_with (p l : list ascii) : bool :=
  match p, l with
  | [], _ => true
  | a :: p', b :: l' => if decide (a = b) then starts_with p' l' else false
  | _ :: _, [] => false
  end.

Fixpoint contains_chars (p l : list ascii) : bool :=
  starts_with p l ||
  match l with
  | [] => false
  | _ :: l' => contains_chars p l'
  end.

Definition py_in (needle s : string) : bool :=
  contains_chars (chars needle) (chars s).
Definition py_startswith (s p : string) : bool :=
  starts_with (chars p) (chars s).

(** ** MD5 ([hashlib.md5(...).hexdigest()]) *)

Module MD5.
Local Open Scope Z_scope.

Definition w32 (x : Z) : Z := x mod 2 ^ 32.
Definition rotl (x c : Z) : Z :=
  w32 (Z.lor (Z.shiftl x c) (Z.shiftr (w32 x) (32 - c))).
Definition not32 (x : Z) : Z := Z.lxor x 4294967295.

Definition K : list Z :=
  [3614090360; 3905402710; 606105819; 3250441966; 4118548399; 1200080426;
   2821735955; 4249261313; 1770035416; 2336552879; 4294925233; 2304563134;
   1804603682; 4254626195; 2792965006; 1236535329; 4129170786; 3225465664;
   643717713; 3921069994; 3593408605; 38016083; 3634488961; 3889429448;
   568446438; 3275163606; 4107603335; 1163531501; 2850285829; 4243563512;
   1735328473; 2368359562; 4294588738; 2272392833; 1839030562; 4259657740;
   2763975236; 1272893353; 4139469664; 3200236656; 681279174; 3936430074;
   3572445317; 76029189; 3654602809; 3873151461; 530742520; 3299628645;
   4096336452; 1126891415; 2878612391; 4237533241; 1700485571; 2399980690;
   4293915773; 2240044497; 1873313359; 4264355552; 2734768916; 1309151649;
   4149444226; 3174756917; 718787259; 3951481745].

Definition shifts : list Z :=
  [7; 12; 17; 22; 7; 12; 17; 22; 7; 12; 17; 22; 7; 12; 17; 22;
   5; 9; 14; 20; 5; 9; 14; 20; 5; 9; 14; 20; 5; 9; 14; 20;
   4; 11; 16; 23; 4; 11; 16; 23; 4; 11; 16; 23; 4; 11; 16; 23;
   6; 10; 15; 21; 6; 10; 15; 21; 6; 10; 15; 21; 6; 10; 15; 21].

Definition nthZ (l : list Z) (i : Z) : Z := nth (Z.to_nat i) l 0.

(** Little-endian bytes of a word, and back. *)
Definition le_bytes (n : nat) (x : Z) : list Z :=
  map (fun i => Z.shiftr x (8 * Z.of_nat i) mod 256) (seq 0 n).
Definition le_word (bs : list Z) : Z :=
  fold_right (fun b acc => b + 256 * acc) 0 bs.

Fixpoint words_of (n : nat) (bs : list Z) : list Z :=
  match n with
  | O => []
  | S n' => le_word (take 4 bs) :: words_of n' (drop 4 bs)
  end.

Definition pad (msg : list Z) : list Z :=
  let n := Z.of_nat (length msg) in
  let zeros := Z.to_nat ((55 - n) mod 64) in
  msg ++ [128] ++ repeat 0 zeros ++ le_bytes 8 ((8 * n) mod 2 ^ 64).

Definition state : Type := Z * Z * Z * Z.

Definition round (M : list Z) (st : state) (i : Z) : state :=
  let '(a, b, c, d) := st in
  let '(f, g) :=
    if i <? 16 then (Z.lor (Z.land b c) (Z.land (not32 b) d), i)
    else if i <? 32 then (Z.lor (Z.land d b) (Z.land (not32 d) c), (5 * i + 1) mod 16)
    else if i <? 48 then (Z.lxor (Z.lxor b c) d, (3 * i + 5) mod 16)
    else (Z.lxor c (Z.lor b (not32 d)), (7 * i) mod 16) in
  let f' := w32 (f + a + nthZ K i + nthZ M g) in
  (d, w32 (b + rotl f' (nthZ shifts i)), b, c).

Definition chunk (st : state) (M : list Z) : state :=
  let '(a0, b0, c0, d0) := st in
  let '(a, b, c, d) := fold_left (round M) (map Z.of_nat (seq 0 64)) st in
  (w32 (a0 + a), w32 (b0 + b), w32 (c0 + c), w32 (d0 + d)).

Fixpoint chunks (n : nat) (bs : list Z) (st : state) : state :=
  match n with
  | O => st
  | S n' => chunks n' (drop 64 bs) (chunk st (words_of 16 (take 64 bs)))
  end.

Definition init : state := (1732584193, 4023233417, 2562383102, 271733878).

Definition digest (msg : list Z) : list Z :=
  let bs := pad msg in
  let '(a, b, c, d) := chunks (length bs / 64)%nat bs init in
  le_bytes 4 a ++ le_bytes 4 b ++ le_bytes 4 c ++ le_bytes 4 d.

Definition hex_digit (n : Z) : ascii :=
  nth (Z.to_nat n) (chars "0123456789abcdef") "0"%char.
Definition hex_byte (b : Z) : list ascii := [hex_digit (b / 16); hex_digit (b mod 16)].

Definition hexdigest (msg : list Z) : list ascii :=
  concat (map hex_byte (digest msg)).
End MD5.

(** [text.encode()]: UTF-8 bytes of the code points (below 256). *)
Definition utf8_char (c : ascii) : list Z :=
  let n := code c in
  if (n <? 128)%Z then [n] else [192 + n / 64; 128 + n mod 64]%Z.
Definition py_encode (s : string) : list Z := concat (map utf8_char (chars s)).

(** ** [clean_filename] *)

(** The double quote character. *)
Definition dquote : ascii := "034"%char.

(** The character class of the sanitizer's pattern: backslash, slash, star,
    question mark, colon, double quote, angle brackets and bar. *)
Definition illegal_chars : list ascii := chars "\/*?:" ++ [dquote] ++ chars "<>|".
Definition is_illegal (c : ascii) : bool := bool_decide (c ∈ illegal_chars).

Definition space_to_underscore (c : ascii) : ascii :=
  if decide (c = " "%char) then "_"%char else c.

(** [re.sub(<illegal class>, <empty>, text).strip().replace(<space>, <underscore>)] *)
Definition clean_chars (text : list ascii) : list ascii :=
  map space_to_underscore (strip_chars (filter (fun c => is_illegal c = false) text)).

Definition hash_suffix (text : string) : list ascii :=
  take 8 (MD5.hexdigest (py_encode text)).

Definition clean_filename (text : string) (max_length : Z) : string :=
  let clean := clean_chars (chars text) in
  if (Z.of_nat (length clean) >? max_length)%Z then
    of_chars (slice_to clean (max_length - 9) ++ chars "_" ++ hash_suffix text)
  else of_chars clean.

(** The default [max_length=80]. *)
Definition clean_filename_default (text : string) : string := clean_filename text 80.

Definition md5_hex (s : string) : string := of_chars (MD5.hexdigest (py_encode s)).

(** [str(n)] and the [{n}] of an f-string, for an integer. *)
Definition py_str_of_Z (n : Z) : string :=
  DecimalString.NilEmpty.string_of_int (Z.to_int n).

(** ** The file system seen through [os.path] and [open]

    A path names a text file, a text file that cannot be opened for writing,
    a file of bytes that are not text, a file that starts as text and goes
    on with bytes that are not text, or a directory.  The text of a file is
    the text as it is stored: it keeps its carriage returns, and the size of
    the file is the length of the UTF-8 encoding of the text.  The first of
    the [rest] bytes of a torn file is a byte that UTF-8 never holds. *)

Inductive node : Type :=
| File (text : string)
| Blob (size : Z)
| Dir (size : Z) (entries : list string)
| ReadOnly (text : string)
| Torn (text : string) (rest : positive).

Abbreviation FS := (gmap string node).

(** [os.path.exists] *)
Definition path_exists (fs : FS) (p : string) : bool := bool_decide (is_Some (fs !! p)).

(** [os.path.getsize]; raises (here [None]) on a missing path. *)
Definition getsize (fs : FS) (p : string) : option Z :=
  match fs !! p with
  | Some (File text) => Some (Z.of_nat (length (py_encode text)))
  | Some (Blob size) => Some size
  | Some (Dir size _) => Some size
  | Some (ReadOnly text) => Some (Z.of_nat (length (py_encode text)))
  | Some (Torn text rest) => Some (Z.of_nat (length (py_encode text)) + Z.pos rest)%Z
  | None => None
  end.

Definition CR : ascii := "013"%char.
Definition LF : ascii := "010"%char.

(** What a file opened in text mode gives for the stored characters
    (universal newlines): a carriage return with the line feed after it, and
    a carriage return alone, are read as one line feed. *)
Fixpoint translate_newlines (l : list ascii) : list ascii :=
  match l with
  | [] => []
  | c :: l' =>
      if decide (c = CR) then
        LF :: match l' with
              | c' :: l'' =>
                  if decide (c' = LF) then translate_newlines l'' else translate_newlines l'
              | [] => []
              end
      else c :: translate_newlines l'
  end.

(** The bytes that a file opened in text mode decodes at a time. *)
Definition CHUNK_SIZE : Z := 8192.

(** [open(p, 'r', encoding='utf-8')] followed by [f.read(n)]; raises (here
    [None]) on a missing path, a directory or bytes that are not text.  The
    characters are counted after the translation of the newlines.  The bytes
    are decoded one chunk at a time, and a read of up to 4095 characters
    needs the first chunk alone when the file has a chunk of text; so such a
    read of a torn file raises exactly when the text ends inside the first
    chunk.  (Longer reads of a torn file, which the program does not make,
    are taken to raise.) *)
Definition read_head (fs : FS) (p : string) (n : nat) : option string :=
  match fs !! p with
  | Some (File text) => Some (of_chars (take n (translate_newlines (chars text))))
  | Some (ReadOnly text) => Some (of_chars (take n (translate_newlines (chars text))))
  | Some (Torn text _) =>
      if (CHUNK_SIZE <=? Z.of_nat (length (py_encode text)))%Z && (Z.of_nat n <=? 4095)%Z
      then Some (of_chars (take n (translate_newlines (chars text))))
      else None
  | _ => None
  end.

(** [os.listdir]; raises (here [None]) unless the path is a directory. *)
Definition listdir (fs : FS) (p : string) : option (list string) :=
  match fs !! p with
  | Some (Dir _ entries) => Some entries
  | _ => None
  end.

(** [os.path.join] (POSIX). *)
Definition join2 (path b : string) : string :=
  if py_startswith b "/" then b
  else if bool_decide (path = "") || bool_decide (last (chars path) = Some "/"%char)
       then path +:+ b
       else path +:+ "/" +:+ b.
Definition path_join (a : string) (ps : list string) : string := fold_left join2 ps a.

(** ** [validate_html_file] *)

Definition validate_html_file (fs : FS) (filepath : string) : bool :=
  if negb (path_exists fs filepath) then false
  else
    match getsize fs filepath with
    | None => false
    | Some size =>
        if (size <? 1000)%Z then false
        else
          match read_head fs filepath 500 with
          | None => false
          | Some content =>
              if negb (py_in "<!doctype html>" (py_lower content))
                 && negb (py_in "<html" (py_lower content))
              then false
              else true
          end
    end.

(** ** [download_with_retry] *)

Definition MAX_RETRIES : Z := 3.

(** What one call of [requests.get] does: it returns a response with a
    status code and a body, or raises [requests.Timeout], or raises another
    exception. *)
Inductive fetch_outcome : Type :=
| Response (status_code : Z) (content : list Z)
| RaisesTimeout
| RaisesOther (e : string).

(** What the function does to the outside, in order. *)
Inductive net_event : Type :=
| EvRequest (url : string) (attempt : Z)
| EvSleep (seconds : Z)
| EvLogError (msg : string)
| EvLogWarning (msg : string).

(** The network answers the [attempt]-th request of a call by
    [net url cookies attempt]. *)
Abbreviation Cookies := (list (string * string)).
Abbreviation Net := (string → Cookies → Z → fetch_outcome).

(** The body of [for attempt in range(max_retries)], over the attempts left. *)
Fixpoint retry_loop (net : Net) (url : string) (cookies : Cookies) (max_retries : Z)
    (attempts : list Z) (trace : list net_event) : option (list Z) * list net_event :=
  match attempts with
  | [] => (None, trace)
  | attempt :: rest =>
      let trace := trace ++ [EvRequest url attempt] in
      match net url cookies attempt with
      | Response status_code content =>
          if (status_code =? 200)%Z then (Some content, trace)
          else if (status_code =? 401)%Z then
            (None, trace ++ [EvLogError "Session expired - please re-login"])
          else retry_loop net url cookies max_retries rest trace
      | RaisesTimeout =>
          retry_loop net url cookies max_retries rest
            (trace ++ [EvLogWarning ("Timeout on attempt " +:+ py_str_of_Z (attempt + 1)
                                     +:+ "/" +:+ py_str_of_Z max_retries);
                       EvSleep (2 ^ attempt)])
      | RaisesOther e =>
          retry_loop net url cookies max_retries rest
            (trace ++ [EvLogWarning ("Download failed (attempt " +:+ py_str_of_Z (attempt + 1)
                                     +:+ "): " +:+ e);
                       EvSleep (2 ^ attempt)])
      end
  end.

(** [range(n)] *)
Definition py_range (n : Z) : list Z := map Z.of_nat (seq 0 (Z.to_nat n)).

Definition download_with_retry (net : Net) (url : string) (cookies : Cookies)
    (max_retries : Z) : option (list Z) * list net_event :=
  retry_loop net url cookies max_retries (py_range max_retries) [].

(** ** Module discovery (phase 1 of [main]) *)

Definition is_digit (c : ascii) : bool := ((48 <=? code c) && (code c <=? 57))%Z.
Definition is_upper_az (c : ascii) : bool := ((65 <=? code c) && (code c <=? 90))%Z.
Definition digit_val (c : ascii) : Z := (code c - 48)%Z.

Fixpoint take_while (f : ascii → bool) (l : list ascii) : list ascii :=
  match l with
  | c :: l' => if f c then c :: take_while f l' else []
  | [] => []
  end.
Fixpoint drop_while (f : ascii → bool) (l : list ascii) : list ascii :=
  match l with
  | c :: l' => if f c then drop_while f l' else l
  | [] => []
  end.

(** [int] of a run of decimal digits.  The numeral of a heading is taken to
    have at most 4300 digits, the most that [int] reads. *)
Definition digits_value (ds : list ascii) : Z :=
  fold_left (fun acc c => (10 * acc + digit_val c)%Z) ds 0%Z.

(** The pattern [Week\s+(\d+)] with [re.IGNORECASE], tried at the head of
    the text: the value of group 1 as an integer. *)
Definition week_match_at (l : list ascii) : option Z :=
  match l with
  | w :: e1 :: e2 :: k :: rest =>
      if bool_decide (map lower_char [w; e1; e2; k] = chars "week") then
        match rest with
        | s :: rest' =>
            if is_space s then
              let ds := take_while is_digit (drop_while is_space rest') in
              if bool_decide (ds = []) then None else Some (digits_value ds)
            else None
        | [] => None
        end
      else None
  | _ => None
  end.

(** [re.search]: the leftmost position where the pattern matches. *)
Fixpoint week_search_chars (l : list ascii) : option Z :=
  match week_match_at l with
  | Some n => Some n
  | None =>
      match l with
      | _ :: l' => week_search_chars l'
      | [] => None
      end
  end.
Definition week_search (week_title : string) : option Z := week_search_chars (chars week_title).

(** [re.match(r'^([A-Z]+)', badge_text)]: group 1. *)
Definition type_match (badge_text : string) : option string :=
  let run := take_while is_upper_az (chars badge_text) in
  if bool_decide (run = []) then None else Some (of_chars run).

(** What the scan reads of the first link of a row: its [href], its text and
    whether it holds an [i] element whose class mentions [fa-users]. *)
Record Link : Type := {
  href : string;
  link_text : string;
  has_users_icon : bool
}.

(** What the scan reads of a table row: the text of its group-heading cell,
    the text of its badge and its first link with an [href], when present. *)
Record Row : Type := {
  row_header : option string;
  row_badge : option string;
  row_link : option Link
}.

Record ModuleType : Type := {
  count : Z;
  is_group : bool;
  sample_title : string
}.

Record Assessment : Type := {
  a_week : string;
  a_name : string;
  a_title : string;
  a_url : string;
  a_type : string;
  a_is_group : bool
}.

Record Discovery : Type := {
  module_types : gmap string ModuleType;
  temp_assessments : list Assessment;
  current_week_num : option Z
}.

Definition discovery_init : Discovery :=
  {| module_types := ∅; temp_assessments := []; current_week_num := None |}.

Definition SITE : string := "https://us.prairielearn.com".

Definition bump (info : ModuleType) : ModuleType :=
  {| count := count info + 1; is_group := is_group info; sample_title := sample_title info |}.

(** One turn of [for row in all_rows]. *)
Definition discover_row (st : Discovery) (row : Row) : Discovery :=
  match row_header row with
  | Some week_title =>
      match week_search week_title with
      | Some week_num =>
          if ((1 <=? week_num) && (week_num <=? 14))%Z then
            {| module_types := module_types st; temp_assessments := temp_assessments st;
               current_week_num := Some week_num |}
          else
            {| module_types := module_types st; temp_assessments := temp_assessments st;
               current_week_num := None |}
      | None => st
      end
  | None =>
      match current_week_num st, row_badge row, row_link row with
      | Some week_num, Some badge_text, Some link =>
          if bool_decide (href link = "") then st
          else if py_in "/assessment/" (href link) || py_in "/assessment_instance/" (href link) then
            match type_match badge_text with
            | Some module_type =>
                let types1 :=
                  match module_types st !! module_type with
                  | Some _ => module_types st
                  | None =>
                      <[module_type := {| count := 0; is_group := has_users_icon link;
                                          sample_title := link_text link |}]> (module_types st)
                  end in
                let types2 := alter bump module_type types1 in
                let full_url :=
                  if py_startswith (href link) "http" then href link else SITE +:+ href link in
                {| module_types := types2;
                   temp_assessments :=
                     temp_assessments st ++
                     [{| a_week := clean_filename_default ("Week_" +:+ py_str_of_Z week_num);
                         a_name := clean_filename_default badge_text;
                         a_title := link_text link;
                         a_url := full_url;
                         a_type := module_type;
                         a_is_group := has_users_icon link |}];
                   current_week_num := current_week_num st |}
            | None => st
            end
          else st
      | _, _, _ => st
      end
  end.

Definition discover_from (st : Discovery) (all_rows : list Row) : Discovery :=
  fold_left discover_row all_rows st.
Definition discover (all_rows : list Row) : Discovery := discover_from discovery_init all_rows.

(** ** Selection (phase 2 of [main]) *)

(** [{k: v for k, v in module_types.items() if not v['is_group']}] *)
Definition available_types (types : gmap string ModuleType) : gmap string ModuleType :=
  filter (λ kv, is_group kv.2 = false) types.
Definition excluded_types (types : gmap string ModuleType) : gmap string ModuleType :=
  filter (λ kv, is_group kv.2 = true) types.

(** [sorted(d.keys())] *)
Definition sorted_keys (d : gmap string ModuleType) : list string :=
  merge_sort String.le (elements (dom d)).

Fixpoint split_on (sep : ascii) (l : list ascii) : list (list ascii) :=
  match l with
  | [] => [[]]
  | c :: l' =>
      if decide (c = sep) then [] :: split_on sep l'
      else match split_on sep l' with
           | cur :: rest => (c :: cur) :: rest
           | [] => [[c]]
           end
  end.
(** [s.split(',')] *)
Definition py_split_comma (s : string) : list string :=
  map of_chars (split_on ","%char (chars s)).

(** The digits of an integer literal: digits with single underscores between
    them.  [after] tells what the previous character was. *)
Inductive int_state : Type := AtStart | AfterDigit | AfterUnderscore.

Fixpoint int_body (l : list ascii) (acc : Z) (after : int_state) : option Z :=
  match l with
  | [] => match after with AfterDigit => Some acc | _ => None end
  | c :: l' =>
      if is_digit c then int_body l' (10 * acc + digit_val c)%Z AfterDigit
      else if decide (c = "_"%char) then
        match after with
        | AfterDigit => int_body l' acc AfterUnderscore
        | _ => None
        end
      else None
  end.

(** The most digits that [int] reads ([sys.int_max_str_digits]). *)
Definition MAX_STR_DIGITS : Z := 4300.

(** The digits of an integer literal, after the sign: a literal with more
    than [MAX_STR_DIGITS] digits is not read. *)
Definition int_digits (body : list ascii) : option Z :=
  if (MAX_STR_DIGITS <? Z.of_nat (length (filter (λ c, is_digit c = true) body)))%Z then None
  else int_body body 0%Z AtStart.

(** [int(s)] for a [str]; [None] stands for [ValueError]. *)
Definition py_int (s : string) : option Z :=
  match strip_chars (chars s) with
  | "-"%char :: body => Z.opp <$> int_digits body
  | "+"%char :: body => int_digits body
  | body => int_digits body
  end.

Inductive selection : Type :=
| Selected (selected_types : gset string)
| Rejected (msg : string).

(** From the prompt to the check of an empty selection. *)
Definition select_types (type_list : list string) (raw_input : string) : selection :=
  let user_input := py_lower (py_strip raw_input) in
  let parsed : option (gset string) :=
    if bool_decide (user_input = "all") then Some (list_to_set type_list)
    else
      indices ← mapM (λ x, py_int (py_strip x)) (py_split_comma user_input);
      picked ← mapM (λ i : Z, type_list !! Z.to_nat (i - 1))
                 (filter (λ i : Z, (1 ≤ i ≤ Z.of_nat (length type_list))%Z) indices);
      Some (list_to_set picked) in
  match parsed with
  | None => Rejected "Invalid selection! Please enter valid numbers or 'all'"
  | Some selected_types =>
      if bool_decide (selected_types = ∅) then Rejected "No types selected!"
      else Selected selected_types
  end.

Definition selection_phase (types : gmap string ModuleType) (raw_input : string) : selection :=
  if bool_decide (available_types types = ∅) then Rejected "No downloadable module types found!"
  else select_types (sorted_keys (available_types types)) raw_input.

(** The filter on [temp_assessments]. *)
Definition assessments_to_process (selected_types : gset string)
    (temp : list Assessment) : list Assessment :=
  filter (λ a, a_type a ∈ selected_types ∧ a_is_group a = false) temp.

(** ** The crawl driver

    A computation of the driver threads the state of the run and either
    returns a value or raises an exception (an instance of [Exception],
    carried here by its message). *)

Inductive outcome (A : Type) : Type :=
| Ok (a : A)
| Exc (e : string).
Arguments Ok {A} a.
Arguments Exc {A} e.

Record Question : Type := {
  q_category : string;
  q_title : string;
  q_url : string
}.

(** What the per-assessment scan reads of a table row: the text of its
    [th] cell with a [colspan], and the [href] and text of its first link. *)
Record QuestionRow : Type := {
  qrow_th : option string;
  qrow_link : option (string * string)
}.

(** The collaborators of the driver: the browser session (a state of type
    [B]), the file writes and the image capture.  Each answers as the outside
    world decides; [Exc] and [Some e] are raised exceptions. *)
Record Env (B : Type) : Type := {
  env_get : B → string → option string * B;
  env_current_url : B → outcome string;
  env_page_source : B → outcome string;
  env_page_rows : B → outcome (list QuestionRow);
  env_buttons : B → outcome (list (outcome string * nat));
  env_click : B → nat → option string * B;
  env_download_images : B → FS → string → string → outcome string * FS;
  env_makedirs : FS → string → option string * FS;
  env_write : FS → string → string → option string * FS;
  env_screenshot : B → FS → string → bool * B * FS
}.
Arguments env_get {B} _ _ _.
Arguments env_current_url {B} _ _.
Arguments env_page_source {B} _ _.
Arguments env_page_rows {B} _ _.
Arguments env_buttons {B} _ _.
Arguments env_click {B} _ _ _.
Arguments env_download_images {B} _ _ _ _ _.
Arguments env_makedirs {B} _ _ _.
Arguments env_write {B} _ _ _ _.
Arguments env_screenshot {B} _ _ _ _.

Inductive level : Type := INFO | WARNING | ERROR.

(** The state of a run: the file system, the browser, the URLs given to
    [driver.get] so far, the set [completed_questions] and the log. *)
Record World (B : Type) : Type := {
  w_fs : FS;
  w_browser : B;
  w_navigations : list string;
  w_completed : gset string;
  w_log : list (level * string)
}.
Arguments w_fs {B} _.
Arguments w_browser {B} _.
Arguments w_navigations {B} _.
Arguments w_completed {B} _.
Arguments w_log {B} _.

Definition M (B A : Type) : Type := World B → outcome A * World B.

Definition ret {B A} (a : A) : M B A := λ w, (Ok a, w).
Definition raise {B A} (e : string) : M B A := λ w, (Exc e, w).
Definition bind {B A C} (m : M B A) (k : A → M B C) : M B C :=
  λ w, match m w with
       | (Ok a, w') => k a w'
       | (Exc e, w') => (Exc e, w')
       end.
(** [try: body except Exception as e: handler] *)
Definition try_except {B A} (body : M B A) (handler : string → M B A) : M B A :=
  λ w, match body w with
       | (Ok a, w') => (Ok a, w')
       | (Exc e, w') => handler e w'
       end.

Notation "x <- m ;; k" := (bind m (λ x, k))
  (at level 100, m at next level, right associativity).
Notation "m ;;; k" := (bind m (λ _, k))
  (at level 100, right associativity).

(** [for x in l: body] without [break]. *)
Fixpoint for_each {B A} (l : list A) (body : A → M B unit) : M B unit :=
  match l with
  | [] => ret tt
  | x :: l' => body x ;;; for_each l' body
  end.

(** [enumerate(l, 1)] *)
Definition enumerate1 {A} (l : list A) : list (Z * A) :=
  imap (λ i x, (Z.of_nat i + 1, x)%Z) l.

(** [s[:50]] *)
Definition first50 (s : string) : string := of_chars (take 50 (chars s)).

Section Driver.
Context {B : Type} (E : Env B).

Definition log (lv : level) (msg : string) : M B unit :=
  λ w, (Ok tt, {| w_fs := w_fs w; w_browser := w_browser w;
                  w_navigations := w_navigations w; w_completed := w_completed w;
                  w_log := w_log w ++ [(lv, msg)] |}).

Definition get_fs : M B FS := λ w, (Ok (w_fs w), w).
Definition get_completed : M B (gset string) := λ w, (Ok (w_completed w), w).

(** [completed_questions.add(question_id)] *)
Definition add_completed (question_id : string) : M B unit :=
  λ w, (Ok tt, {| w_fs := w_fs w; w_browser := w_browser w;
                  w_navigations := w_navigations w;
                  w_completed := {[question_id]} ∪ w_completed w;
                  w_log := w_log w |}).

Definition with_browser (b : B) (w : World B) : World B :=
  {| w_fs := w_fs w; w_browser := b; w_navigations := w_navigations w;
     w_completed := w_completed w; w_log := w_log w |}.
Definition with_fs (fs : FS) (w : World B) : World B :=
  {| w_fs := fs; w_browser := w_browser w; w_navigations := w_navigations w;
     w_completed := w_completed w; w_log := w_log w |}.

Definition of_raised (r : option string) : outcome unit :=
  match r with
  | None => Ok tt
  | Some e => Exc e
  end.

(** [driver.get(url)]: the URL is recorded, then the browser answers. *)
Definition driver_get (url : string) : M B unit :=
  λ w, let '(r, b) := env_get E (w_browser w) url in
       (of_raised r,
        {| w_fs := w_fs w; w_browser := b;
           w_navigations := w_navigations w ++ [url];
           w_completed := w_completed w; w_log := w_log w |}).

Definition page_source : M B string := λ w, (env_page_source E (w_browser w), w).
Definition page_rows : M B (list QuestionRow) := λ w, (env_page_rows E (w_browser w), w).
Definition current_url : M B string := λ w, (env_current_url E (w_browser w), w).

Definition click (btn : nat) : M B unit :=
  λ w, let '(r, b) := env_click E (w_browser w) btn in (of_raised r, with_browser b w).

Definition download_images (html_content question_folder : string) : M B string :=
  λ w, let '(r, fs) :=
         env_download_images E (w_browser w) (w_fs w) html_content question_folder in
       (r, with_fs fs w).

Definition makedirs (path : string) : M B unit :=
  λ w, let '(r, fs) := env_makedirs E (w_fs w) path in (of_raised r, with_fs fs w).

(** [with open(path, 'w', encoding='utf-8') as f: f.write(content)] *)
Definition write_file (path content : string) : M B unit :=
  λ w, let '(r, fs) := env_write E (w_fs w) path content in (of_raised r, with_fs fs w).

(** [take_full_page_screenshot]: it catches every exception and returns a
    boolean. *)
Definition take_full_page_screenshot (filepath : string) : M B bool :=
  λ w, let '(r, b, fs) := env_screenshot E (w_browser w) (w_fs w) filepath in
       (Ok r, with_fs fs (with_browser b w)).

(** [expand_answer_panel]: every exception is swallowed. *)
Definition expand_answer_panel : M B unit :=
  try_except
    (buttons <- (λ w, (env_buttons E (w_browser w), w)) ;;
     for_each buttons (λ btn,
       text <- (λ w, (btn.1, w)) ;;
       let text := py_lower text in
       if py_in "correct answer" text || py_in "solution" text || py_in "submission" text
       then try_except (click btn.2) (λ _, ret tt)
       else ret tt))
    (λ _, ret tt).

(** [check_session_valid] *)
Definition check_session_valid : M B bool :=
  try_except
    (url <- current_url ;;
     if py_in "login" (py_lower url) || py_in "sign" (py_lower url) then
       log ERROR "Session expired - please re-login" ;;; ret false
     else ret true)
    (λ _, ret true).

(** The scan of an assessment page for its questions. *)
Definition scan_question_row (st : string * list Question) (row : QuestionRow)
    : string * list Question :=
  let '(current_category, questions_to_scrape) := st in
  match qrow_th row with
  | Some category_text =>
      if negb (py_in "Question" category_text) && negb (py_in "Value" category_text)
         && negb (bool_decide (category_text = ""))
      then (clean_filename_default category_text, questions_to_scrape)
      else st
  | None =>
      match qrow_link row with
      | Some (link_href, text) =>
          if negb (bool_decide (link_href = "")) && py_in "/instance_question/" link_href then
            (current_category,
             questions_to_scrape ++
             [{| q_category := current_category;
                 q_title := clean_filename_default text;
                 q_url := SITE +:+ link_href |}])
          else st
      | None => st
      end
  end.

Definition scan_questions (rows : list QuestionRow) : list Question :=
  (fold_left scan_question_row rows ("General", [])).2.

Definition progress (idx total : Z) : string :=
  "[" +:+ py_str_of_Z idx +:+ "/" +:+ py_str_of_Z total +:+ "]".

Definition question_id_of (assess : Assessment) (q : Question) : string :=
  a_name assess +:+ "_" +:+ q_title q.
Definition question_folder_of (output_dir : string) (assess : Assessment) (q : Question) : string :=
  path_join output_dir [a_week assess; a_name assess; q_category q; q_title q].

(** The decision of the resume logic inside the [try]: [true] when the
    question folder is complete.  [os.listdir] may raise. *)
Definition folder_complete (question_folder : string) : M B bool :=
  let save_path := path_join question_folder ["index.html"] in
  let screenshot_path := path_join question_folder ["render.png"] in
  fs <- get_fs ;;
  if validate_html_file fs save_path then
    let images_folder := path_join question_folder ["images"] in
    needs_images <-
      (if negb (path_exists fs images_folder) then ret true
       else match listdir fs images_folder with
            | Some entries => ret (bool_decide (length entries = 0))
            | None => raise "NotADirectoryError"
            end) ;;
    let needs_screenshot := negb (path_exists fs screenshot_path) in
    ret (negb needs_images && negb needs_screenshot)
  else ret false.

(** The body of the [try] of one question. *)
Definition question_body (output_dir : string) (assess : Assessment) (total : Z)
    (q_idx : Z) (q : Question) : M B unit :=
  let question_id := question_id_of assess q in
  let question_folder := question_folder_of output_dir assess q in
  let save_path := path_join question_folder ["index.html"] in
  let screenshot_path := path_join question_folder ["render.png"] in
  complete <- folder_complete question_folder ;;
  if complete then
    log INFO ("  " +:+ progress q_idx total +:+ " SKIP: " +:+ first50 (q_title q)) ;;;
    add_completed question_id
  else
    log INFO ("  " +:+ progress q_idx total +:+ " Downloading: " +:+ first50 (q_title q)) ;;;
    driver_get (q_url q) ;;;
    expand_answer_panel ;;;
    source <- page_source ;;
    updated_html <- download_images source question_folder ;;
    makedirs question_folder ;;;
    write_file save_path updated_html ;;;
    _ <- take_full_page_screenshot screenshot_path ;;
    add_completed question_id.

(** One turn of [for q_idx, q in enumerate(questions_to_scrape, 1)]. *)
Definition process_question (output_dir : string) (assess : Assessment) (total : Z)
    (iq : Z * Question) : M B unit :=
  let '(q_idx, q) := iq in
  completed <- get_completed ;;
  if bool_decide (question_id_of assess q ∈ completed) then
    log INFO ("  " +:+ progress q_idx total +:+ " SKIP: " +:+ first50 (q_title q)
              +:+ " (completed)")
  else
    try_except (question_body output_dir assess total q_idx q)
      (λ e, log ERROR ("  Error processing " +:+ first50 (q_title q) +:+ ": " +:+ e)).

Definition question_loop (output_dir : string) (assess : Assessment)
    (questions_to_scrape : list Question) : M B unit :=
  for_each (enumerate1 questions_to_scrape)
    (process_question output_dir assess (Z.of_nat (length questions_to_scrape))).

(** [for assess_idx, assess in enumerate(assessments_to_process, 1)], with
    its [break] on a lost session and its [continue] on a failed load.  The
    newline that opens some log messages is left out of the messages. *)
Fixpoint assessment_loop (output_dir : string) (total : Z)
    (todo : list (Z * Assessment)) : M B unit :=
  match todo with
  | [] => ret tt
  | (assess_idx, assess) :: rest =>
      log INFO ("[" +:+ py_str_of_Z assess_idx +:+ "/" +:+ py_str_of_Z total
                +:+ "] Processing: " +:+ a_name assess +:+ " (" +:+ a_week assess +:+ ")") ;;;
      valid <- check_session_valid ;;
      if negb valid then log ERROR "Session lost. Please restart scraper."
      else
        loaded <- try_except (driver_get (a_url assess) ;;; ret true)
                    (λ e, log ERROR ("Failed to load assessment: " +:+ e) ;;; ret false) ;;
        if negb loaded then assessment_loop output_dir total rest
        else
          rows <- page_rows ;;
          let questions_to_scrape := scan_questions rows in
          log INFO ("  Found " +:+ py_str_of_Z (Z.of_nat (length questions_to_scrape))
                    +:+ " questions") ;;;
          question_loop output_dir assess questions_to_scrape ;;;
          assessment_loop output_dir total rest
  end.

(** [main] from the scan of the listing rows to the end of the loop over
    the assessments: the rows, then the operator's answer to the selection
    prompt.  The informational log lines of the discovery and of the
    selection (the list of types shown to the operator) are left out. *)
Definition crawl (output_dir : string) (all_rows : list Row) (raw_input : string) : M B unit :=
  let found := discover all_rows in
  match selection_phase (module_types found) raw_input with
  | Rejected msg => log ERROR msg
  | Selected selected_types =>
      let todo := assessments_to_process selected_types (temp_assessments found) in
      assessment_loop output_dir (Z.of_nat (length todo)) (enumerate1 todo)
  end.

End Driver.

(** ** The path rewriter ([fix_html_file], [fix_css_paths]) *)

Definition PRAIRIELEARN_BASE : string := "https://us.prairielearn.com".

Fixpoint strip_prefix (p l : list ascii) : option (list ascii) :=
  match p, l with
  | [], _ => Some l
  | a :: p', b :: l' => if decide (a = b) then strip_prefix p' l' else None
  | _ :: _, [] => None
  end.

(** Group 1, [(src|href)], at the head of the text. *)
Definition match_key (l : list ascii) : option (list ascii * list ascii) :=
  match strip_prefix (chars "src") l with
  | Some rest => Some (chars "src", rest)
  | None =>
      match strip_prefix (chars "href") l with
      | Some rest => Some (chars "href", rest)
      | None => None
      end
  end.

Definition not_dquote (c : ascii) : bool := negb (bool_decide (c = dquote)).

(** The pattern at the head of the text: [src] or [href] (group 1), an equals
    sign, a double quote, the prefix followed by one or more characters other
    than a double quote (group 2), a double quote.  Gives group 1, group 2
    and the text after the match. *)
Definition attr_match_at (prefix l : list ascii)
    : option (list ascii * list ascii * list ascii) :=
  match match_key l with
  | Some (key, l1) =>
      match strip_prefix ("="%char :: dquote :: prefix) l1 with
      | Some l2 =>
          let tail := take_while not_dquote l2 in
          match drop_while not_dquote l2 with
          | _ :: rest =>
              if bool_decide (tail = []) then None else Some (key, prefix ++ tail, rest)
          | [] => None
          end
      | None => None
      end
  | None => None
  end.

(** The replacement template: group 1, an equals sign, a double quote, the
    base, group 2, a double quote. *)
Definition replacement (key path : list ascii) : list ascii :=
  key ++ "="%char :: dquote :: chars PRAIRIELEARN_BASE ++ path ++ [dquote].

(** [re.sub(pattern, template, text)]: matches are found from left to right
    and do not overlap.  [fuel] bounds the number of steps. *)
Fixpoint re_sub_fuel (fuel : nat) (prefix l : list ascii) : list ascii :=
  match fuel with
  | O => l
  | S fuel' =>
      match attr_match_at prefix l with
      | Some (key, path, rest) => replacement key path ++ re_sub_fuel fuel' prefix rest
      | None =>
          match l with
          | c :: l' => c :: re_sub_fuel fuel' prefix l'
          | [] => []
          end
      end
  end.
Definition re_sub (prefix l : list ascii) : list ascii := re_sub_fuel (length l) prefix l.

(** Group 2 of the matches that [re.sub] replaces, in order. *)
Fixpoint re_paths_fuel (fuel : nat) (prefix l : list ascii) : list (list ascii) :=
  match fuel with
  | O => []
  | S fuel' =>
      match attr_match_at prefix l with
      | Some (_, path, rest) => path :: re_paths_fuel fuel' prefix rest
      | None =>
          match l with
          | _ :: l' => re_paths_fuel fuel' prefix l'
          | [] => []
          end
      end
  end.
Definition re_paths (prefix l : list ascii) : list (list ascii) :=
  re_paths_fuel (length l) prefix l.

Definition ASSETS : list ascii := chars "/assets/".
Definition PL : list ascii := chars "/pl/".

(** The two substitutions, on the content of a file. *)
Definition fix_chars (content : list ascii) : list ascii :=
  re_sub PL (re_sub ASSETS content).
Definition fix_content (content : string) : string := of_chars (fix_chars (chars content)).

(** [open(p, 'r', encoding='utf-8')] followed by [f.read()]: the whole
    text, newlines translated.  The text of the exception stands for its
    class. *)
Definition read_text (fs : FS) (path : string) : outcome string :=
  match fs !! path with
  | Some (File text) => Ok (of_chars (translate_newlines (chars text)))
  | Some (ReadOnly text) => Ok (of_chars (translate_newlines (chars text)))
  | Some (Blob _) => Exc "UnicodeDecodeError"
  | Some (Torn _ _) => Exc "UnicodeDecodeError"
  | Some (Dir _ _) => Exc "IsADirectoryError"
  | None => Exc "FileNotFoundError"
  end.

(** [open(p, 'w', encoding='utf-8')] followed by [f.write(content)] (POSIX:
    a line feed is written as it is): the path then names a text file that
    holds [content].  The opening raises on a directory and on a file that
    cannot be written, and then nothing changes; a write that the opening
    lets begin is taken to end. *)
Definition write_text (fs : FS) (path content : string) : option string * FS :=
  match fs !! path with
  | Some (Dir _ _) => (Some "IsADirectoryError", fs)
  | Some (ReadOnly _) => (Some "PermissionError", fs)
  | _ => (None, <[path := File content]> fs)
  end.

(** [fix_html_file]: the file is written only if its content changed; any
    exception, of the reading or of the writing, gives [False]. *)
Definition fix_html_file (fs : FS) (filepath : string) : bool * FS :=
  match read_text fs filepath with
  | Ok original_content =>
      let content := fix_content original_content in
      if bool_decide (content ≠ original_content) then
        match write_text fs filepath content with
        | (None, fs') => (true, fs')
        | (Some _, fs') => (false, fs')
        end
      else (false, fs)
  | Exc _ => (false, fs)
  end.

(** A path that ends in [src=] or [href=]. *)
Definition ends_with (suffix l : list ascii) : bool := starts_with (rev suffix) (rev l).
Definition ends_in_key_eq (path : list ascii) : bool :=
  ends_with (chars "src=") path || ends_with (chars "href=") path.

(** The paths that the transformation rewrites in a text: those of the
    first substitution, and those of the second on the result of the first. *)
Definition rewritten_paths (content : list ascii) : list (list ascii) :=
  re_paths ASSETS content ++ re_paths PL (re_sub ASSETS content).

(** ** Predicates used to state the properties *)

(** The marker test of the validity check on the text read. *)
Definition has_html_marker (content : string) : bool :=
  py_in "<!doctype html>" (py_lower content) || py_in "<html" (py_lower content).

(** The validity of a file as the specification words it: the file exists,
    its size exceeds [min_size] and its leading content holds a marker. *)
Definition valid_with_size_above (min_size : Z) (fs : FS) (filepath : string) : Prop :=
  path_exists fs filepath = true ∧
  (∃ size, getsize fs filepath = Some size ∧ (min_size < size)%Z) ∧
  (∃ content, read_head fs filepath 500 = Some content ∧ has_html_marker content = true).

(** The same with a size of at least [min_size]. *)
Definition valid_with_size_at_least (min_size : Z) (fs : FS) (filepath : string) : Prop :=
  path_exists fs filepath = true ∧
  (∃ size, getsize fs filepath = Some size ∧ (min_size <= size)%Z) ∧
  (∃ content, read_head fs filepath 500 = Some content ∧ has_html_marker content = true).

(** A name without path-illegal characters and without spaces. *)
Definition safe_char (c : ascii) : Prop := ¬ c ∈ illegal_chars ∧ c ≠ " "%char.
Definition safe_name (s : string) : Prop := ∀ c, c ∈ chars s → safe_char c.

(** A text of [n] copies of a character after a head, to build inputs. *)
Definition padded (head : string) (c : ascii) (n : nat) : string :=
  head +:+ of_chars (replicate n c).

(** The number of requests made and the sleeps taken in a trace of events. *)
Definition is_request (ev : net_event) : bool :=
  match ev with EvRequest _ _ => true | _ => false end.
Definition requests (trace : list net_event) : nat := length (filter (λ ev, is_request ev = true) trace).
Definition sleep_of (ev : net_event) : option Z :=
  match ev with EvSleep seconds => Some seconds | _ => None end.
Definition sleeps (trace : list net_event) : list Z := omap sleep_of trace.

(** An attempt that raises, and an attempt that ends the loop. *)
Definition raises (o : fetch_outcome) : bool :=
  match o with Response _ _ => false | _ => true end.
Definition decisive (o : fetch_outcome) : bool :=
  match o with
  | Response status_code _ => ((status_code =? 200) || (status_code =? 401))%Z
  | _ => false
  end.

(** The module type and the link of a row that qualifies in a state of the
    discovery: a row without a heading cell, read while a week is active,
    with a badge, a link with a non-empty [href] to an assessment and a
    badge text that starts with capital letters. *)
Definition qualifies (st : Discovery) (row : Row) : option (string * Link) :=
  match row_header row, current_week_num st, row_badge row, row_link row with
  | None, Some _, Some badge_text, Some link =>
      if bool_decide (href link = "") then None
      else if py_in "/assessment/" (href link) || py_in "/assessment_instance/" (href link)
      then (λ module_type, (module_type, link)) <$> type_match badge_text
      else None
  | _, _, _, _ => None
  end.

(** A heading row whose week number is read and lies in 1..14. *)
Definition valid_week_header (row : Row) : Prop :=
  ∃ week_title week_num,
    row_header row = Some week_title ∧ week_search week_title = Some week_num ∧
    (1 ≤ week_num ≤ 14)%Z.

(** A heading row whose week number is read and lies outside 1..14. *)
Definition invalid_week_header (row : Row) : Prop :=
  ∃ week_title week_num,
    row_header row = Some week_title ∧ week_search week_title = Some week_num ∧
    ¬ (1 ≤ week_num ≤ 14)%Z.

(** The candidates of a module type. *)
Definition of_type (module_type : string) (temp : list Assessment) : list Assessment :=
  filter (λ a, a_type a = module_type) temp.

(** A text none of whose rewritten paths ends in [src=] or [href=]. *)
Definition plain_paths (content : string) : Prop :=
  Forall (λ path, ends_in_key_eq path = false) (rewritten_paths (chars content)).

(** A text of one character, the double quote. *)
Definition QUOTE : string := String dquote "".

(** ** Further parts of the program, notions and sample inputs used by the properties *)

(** *** For the sanitizer *)

Definition hex_chars : list ascii := chars "0123456789abcdef".

(** *** For the validity check *)

(** A page of exactly 1000 bytes. *)
Definition page1000 : string := padded "<!DOCTYPE html><html>" " " 979.

(** A page that starts with 250 lines ended by carriage return and line
    feed: the tag lies after the first 500 stored characters and within the
    first 500 characters read. *)
Definition crlf_page : string :=
  of_chars (concat (replicate 250 [CR; LF])) +:+ padded "<html>" "x" 600.

(** *** For the download with retries *)

Definition attempts_from (a n : nat) : list Z := map Z.of_nat (seq a n).

(** A network that times out, then answers 500, then answers 200. *)
Definition flaky_net : Net :=
  λ _ _ attempt,
    if (attempt =? 0)%Z then RaisesTimeout
    else if (attempt =? 1)%Z then Response 500 []
    else Response 200 [104; 105]%Z.

(** *** For the discovery *)

Definition header_row (week_title : string) : Row :=
  {| row_header := Some week_title; row_badge := None; row_link := None |}.
Definition item_row (badge_text link_href text : string) (users : bool) : Row :=
  {| row_header := None; row_badge := Some badge_text;
     row_link := Some {| href := link_href; link_text := text; has_users_icon := users |} |}.

(** *** For the aggregates *)

(** The candidate that a qualifying row adds. *)
Definition candidate_of (st : Discovery) (row : Row) (module_type : string) (link : Link)
    : option Assessment :=
  week_num ← current_week_num st;
  badge_text ← row_badge row;
  Some {| a_week := clean_filename_default ("Week_" +:+ py_str_of_Z week_num);
          a_name := clean_filename_default badge_text;
          a_title := link_text link;
          a_url := if py_startswith (href link) "http" then href link
                   else SITE +:+ href link;
          a_type := module_type;
          a_is_group := has_users_icon link |}.

(** The aggregates after a qualifying row. *)
Definition types_after (types : gmap string ModuleType) (module_type : string) (link : Link)
    : gmap string ModuleType :=
  alter bump module_type
    (match types !! module_type with
     | Some _ => types
     | None => <[module_type := {| count := 0; is_group := has_users_icon link;
                                   sample_title := link_text link |}]> types
     end).

(** A listing whose first HW row is a group row and whose second is not. *)
Definition mixed_listing : list Row :=
  [header_row "Week 2";
   item_row "HW1" "/pl/course_instance/1/assessment/10" "Team homework" true;
   item_row "HW2" "/pl/course_instance/1/assessment/11" "Solo homework" false].

(** *** For the selection *)

Definition in_range (type_list : list string) (i : Z) : Prop :=
  (1 ≤ i ≤ Z.of_nat (length type_list))%Z.

(** The tokens of a selection expression, as [int] reads them. *)
Definition tokens (raw_input : string) : list string :=
  py_split_comma (py_lower (py_strip raw_input)).
Definition token_value (tok : string) : option Z := py_int (py_strip tok).

(** The entries of the type list at the indices that are in range. *)
Definition entries_at (type_list : list string) (indices : list Z) : gset string :=
  list_to_set
    (omap (λ i : Z, if decide (in_range type_list i) then type_list !! Z.to_nat (i - 1) else None)
       indices).

(** An expression whose second token has more digits than [int] reads. *)
Definition long_numeral : string := padded "1," "9" (Z.to_nat 4400).

(** The aggregates of a listing with the types HW and LAB available. *)
Definition two_types : gmap string ModuleType :=
  module_types (discover
    [header_row "Week 1";
     item_row "HW1" "/pl/course_instance/1/assessment/1" "Homework 1" false;
     item_row "LAB1" "/pl/course_instance/1/assessment/2" "Lab 1" false;
     item_row "GA1" "/pl/course_instance/1/assessment/3" "Group activity 1" true]).

(** *** For the crawl driver *)

(** A computation that leaves the list of navigations alone. *)
Definition nav_frame {B A} (m : M B A) : Prop :=
  ∀ w, w_navigations (m w).2 = w_navigations w.

Section DriverParts.
Context {B : Type} (E : Env B).

(** What follows [driver.get] in the body of a question. *)
Definition after_get (question_id question_folder : string) : M B unit :=
  expand_answer_panel E ;;;
  source <- page_source E ;;
  updated_html <- download_images E source question_folder ;;
  makedirs E question_folder ;;;
  write_file E (path_join question_folder ["index.html"]) updated_html ;;;
  _ <- take_full_page_screenshot E (path_join question_folder ["render.png"]) ;;
  add_completed question_id.
(** The fetch of a question: the body of its turn after the resume logic
    has found the folder incomplete. *)
Definition fetch_question (output_dir : string) (assess : Assessment) (total q_idx : Z)
    (q : Question) : M B unit :=
  log INFO ("  " +:+ progress q_idx total +:+ " Downloading: " +:+ first50 (q_title q)) ;;;
  driver_get E (q_url q) ;;;
  after_get (question_id_of assess q) (question_folder_of output_dir assess q).

End DriverParts.

(** A browser and a disk that never fail: pages load, files are written. *)
Definition plain_env : Env unit :=
  {| env_get := λ b _, (None, b);
     env_current_url := λ _, Ok "https://us.prairielearn.com/pl/course_instance/1/assessments";
     env_page_source := λ _, Ok "<!DOCTYPE html><html><body>question</body></html>";
     env_page_rows := λ _, Ok [];
     env_buttons := λ _, Ok [];
     env_click := λ b _, (None, b);
     env_download_images := λ _ fs html_content _, (Ok html_content, fs);
     env_makedirs := λ fs _, (None, fs);
     env_write := λ fs path content, (None, <[path := File content]> fs);
     env_screenshot := λ b fs path, (true, b, <[path := Blob 2048]> fs) |}.

Definition hw1 : Assessment :=
  {| a_week := "Week_1"; a_name := "HW1"; a_title := "Homework 1";
     a_url := "https://us.prairielearn.com/pl/course_instance/1/assessment/1";
     a_type := "HW"; a_is_group := false |}.

(** Two questions of one assessment with the same title in two categories. *)
Definition q_general : Question :=
  {| q_category := "General"; q_title := "Q1";
     q_url := "https://us.prairielearn.com/pl/course_instance/1/instance_question/11/" |}.
Definition q_part_b : Question :=
  {| q_category := "Part_B"; q_title := "Q1";
     q_url := "https://us.prairielearn.com/pl/course_instance/1/instance_question/12/" |}.

(** A run that starts with a truncated page in the folder of the second. *)
Definition truncated_world : World unit :=
  {| w_fs := {[ "out/Week_1/HW1/Part_B/Q1/index.html" := File "<html>cut" ]};
     w_browser := tt; w_navigations := []; w_completed := ∅; w_log := [] |}.

(** A run that starts with the folder of the first question complete. *)
Definition complete_world : World unit :=
  {| w_fs := {[ "out/Week_1/HW1/General/Q1/index.html"
                := File (padded "<!DOCTYPE html><html>" "x" (Z.to_nat 1200));
                "out/Week_1/HW1/General/Q1/images" := Dir 4096 ["fig.png"];
                "out/Week_1/HW1/General/Q1/images/fig.png" := Blob 120;
                "out/Week_1/HW1/General/Q1/render.png" := Blob 2048 ]};
     w_browser := tt; w_navigations := []; w_completed := ∅; w_log := [] |}.

(** A computation from which no exception escapes. *)
Definition never_raises {B A} (m : M B A) : Prop := ∀ w, ∃ a, (m w).1 = Ok a.

(** A browser that cannot load the first question. *)
Definition failing_env : Env unit :=
  {| env_get := λ b url, (if bool_decide (url = q_url q_general)
                           then Some "net::ERR_CONNECTION_RESET" else None, b);
     env_current_url := env_current_url plain_env;
     env_page_source := env_page_source plain_env;
     env_page_rows := env_page_rows plain_env;
     env_buttons := env_buttons plain_env;
     env_click := env_click plain_env;
     env_download_images := env_download_images plain_env;
     env_makedirs := env_makedirs plain_env;
     env_write := env_write plain_env;
     env_screenshot := env_screenshot plain_env |}.

Definition empty_world : World unit :=
  {| w_fs := ∅; w_browser := tt; w_navigations := []; w_completed := ∅; w_log := [] |}.

Definition q_second : Question :=
  {| q_category := "General"; q_title := "Q2";
     q_url := "https://us.prairielearn.com/pl/course_instance/1/instance_question/13/" |}.

(** *** For the path rewriter *)

(** A position where two texts differ. *)
Fixpoint mismatch (p l : list ascii) : bool :=
  match p, l with
  | a :: p', b :: l' => if decide (a = b) then mismatch p' l' else true
  | _, _ => false
  end.

(** After a literal, one or more characters other than a double quote, then
    a double quote: the characters and the text after the match. *)
Definition match_lit (lit l : list ascii) : option (list ascii * list ascii) :=
  match strip_prefix lit l with
  | Some l2 =>
      match drop_while not_dquote l2 with
      | _ :: rest =>
          if bool_decide (take_while not_dquote l2 = []) then None
          else Some (take_while not_dquote l2, rest)
      | [] => None
      end
  | None => None
  end.

Definition literal (key prefix : list ascii) : list ascii :=
  key ++ "="%char :: dquote :: prefix.

Definition SRC : list ascii := chars "src".
Definition HREF : list ascii := chars "href".

Definition is_key (key : list ascii) : Prop := key = SRC ∨ key = HREF.
Definition is_prefix (prefix : list ascii) : Prop := prefix = ASSETS ∨ prefix = PL.

(** No match of the pattern starts anywhere in the text. *)
Definition no_match (prefix l : list ascii) : Prop :=
  ∀ s, s `suffix_of` l → attr_match_at prefix s = None.

(** Every tail of [lit] from position [from] on differs from [z] somewhere. *)
Definition tails_clash (lit z : list ascii) (from : nat) : bool :=
  forallb (λ n, mismatch (drop n lit) z) (seq from (length lit - from)).

Definition key_eq_quote (key : list ascii) : list ascii := key ++ ["="%char; dquote].

(** The text that replaces a match, up to the tail of the path. *)
Definition replacement_head (key prefix : list ascii) : list ascii :=
  key ++ "="%char :: dquote :: chars PRAIRIELEARN_BASE ++ prefix.

(** A character that the translation of the line ends leaves alone. *)
Definition plain_char (c : ascii) : Prop := c ≠ CR ∧ c ≠ LF.

(** What [read_text] gives for a text file: its text with the line ends
    translated. *)
Definition text_read (content : string) : string :=
  of_chars (translate_newlines (chars content)).

(** A page with an image under [/assets/] and a link under [/pl/]. *)
Definition sample_page : string :=
  "<img src=" +:+ QUOTE +:+ "/assets/logo.png" +:+ QUOTE +:+ "><a href=" +:+ QUOTE
  +:+ "/pl/course_instance/1" +:+ QUOTE +:+ ">".

(** An attribute whose value ends in [src=] and is followed by a quoted
    path under [/assets/]. *)
Definition nested_ref : string :=
  "src=" +:+ QUOTE +:+ "/assets/src=" +:+ QUOTE +:+ "/assets/x" +:+ QUOTE.

(** *** For the sanitizer, further *)

(** A text that neither starts nor ends with a whitespace character. *)
Definition trimmed (l : list ascii) : Prop :=
  (∀ c, head l = Some c → is_space c = false) ∧
  (∀ c, last l = Some c → is_space c = false).

(** A character that the sanitizer removes wherever it stands at an end of
    the text: a path-illegal character or a whitespace character. *)
Definition dropped_char (c : ascii) : Prop := c ∈ illegal_chars ∨ is_space c = true.

(** *** For the download with retries, further *)

(** The seconds slept in all. *)
Definition total_sleep (trace : list net_event) : Z := foldr Z.add 0%Z (sleeps trace).

(** A network whose every answer has status 404. *)
Definition missing_net : Net := λ _ _ _, Response 404 [].

(** *** For the selection, further *)

(** The value of a run of decimal digits read after [acc]. *)
Fixpoint uint_value (d : Decimal.uint) (acc : Z) : Z :=
  match d with
  | Decimal.Nil => acc
  | Decimal.D0 l => uint_value l (10 * acc)
  | Decimal.D1 l => uint_value l (10 * acc + 1)
  | Decimal.D2 l => uint_value l (10 * acc + 2)
  | Decimal.D3 l => uint_value l (10 * acc + 3)
  | Decimal.D4 l => uint_value l (10 * acc + 4)
  | Decimal.D5 l => uint_value l (10 * acc + 5)
  | Decimal.D6 l => uint_value l (10 * acc + 6)
  | Decimal.D7 l => uint_value l (10 * acc + 7)
  | Decimal.D8 l => uint_value l (10 * acc + 8)
  | Decimal.D9 l => uint_value l (10 * acc + 9)
  end%Z.

Abbreviation digits_of := (λ d, chars (NilEmpty.string_of_uint d)).

(** *** For the scan of an assessment page and the output tree *)

(** A row whose wide header cell names a category. *)
Definition names_category (row : QuestionRow) (category : string) : Prop :=
  ∃ category_text,
    qrow_th row = Some category_text ∧
    py_in "Question" category_text = false ∧ py_in "Value" category_text = false ∧
    category_text ≠ "" ∧ category = clean_filename_default category_text.

(** A row without a wide header cell whose link leads to a question. *)
Definition holds_question (row : QuestionRow) (q : Question) : Prop :=
  ∃ link_href text,
    qrow_th row = None ∧ qrow_link row = Some (link_href, text) ∧
    link_href ≠ "" ∧ py_in "/instance_question/" link_href = true ∧
    q_title q = clean_filename_default text ∧ q_url q = SITE +:+ link_href.

Definition scan_state (rows : list QuestionRow) : string * list Question :=
  fold_left scan_question_row rows ("General", []).

(** A path component: a safe name that is not empty. *)
Definition component (s : string) : Prop := safe_name s ∧ s ≠ "".

(** A directory path to join to: not empty, without a slash at its end. *)
Definition open_dir (path : string) : Prop :=
  path ≠ "" ∧ last (chars path) ≠ Some "/"%char.

(** *** For the invariants of the crawl driver *)

(** A computation whose final state is related to its initial state. *)
Definition preserves {B A} (R : World B → World B → Prop) (m : M B A) : Prop :=
  ∀ w, R w (m w).2.

(** The completed set only grows. *)
Definition completed_grows {B} (w w' : World B) : Prop :=
  w_completed w ⊆ w_completed w'.

(** The completed set grows by keys of [ids] only. *)
Definition completed_within {B} (ids : gset string) (w w' : World B) : Prop :=
  w_completed w' ⊆ w_completed w ∪ ids.

(** The navigations grow by URLs that satisfy [P]. *)
Definition visits {B} (P : string → Prop) (w w' : World B) : Prop :=
  ∃ visited, w_navigations w' = w_navigations w ++ visited ∧ Forall P visited.

(** Only the browser may differ. *)
Definition only_browser {B} (w w' : World B) : Prop :=
  w_fs w' = w_fs w ∧ w_navigations w' = w_navigations w ∧
  w_completed w' = w_completed w ∧ w_log w' = w_log w.

(** The completed set after a computation that ends with the recording of
    a question: the key is added when the computation returns, nothing is
    added when it raises. *)
Definition adds_on_success {B} (question_id : string) (m : M B unit) : Prop :=
  ∀ w, match (m w).1 with
       | Ok _ => w_completed (m w).2 = {[question_id]} ∪ w_completed w
       | Exc _ => w_completed (m w).2 = w_completed w
       end.

(** The URL test of the session check. *)
Definition looks_logged_out (url : string) : bool :=
  py_in "login" (py_lower url) || py_in "sign" (py_lower url).

(** The resume logic has looked at the folder and found it incomplete. *)
Definition found_incomplete (r : outcome bool) : bool :=
  match r with
  | Ok false => true
  | _ => false
  end.

(** An absolute URL, as far as the crawl is concerned. *)
Definition absolute (url : string) : Prop := py_startswith url "http" = true.

(** A browser whose session has expired: it shows the login page. *)
Definition logged_out_env : Env unit :=
  {| env_get := env_get plain_env;
     env_current_url := λ _, Ok "https://us.prairielearn.com/pl/login";
     env_page_source := env_page_source plain_env;
     env_page_rows := env_page_rows plain_env;
     env_buttons := env_buttons plain_env;
     env_click := env_click plain_env;
     env_download_images := env_download_images plain_env;
     env_makedirs := env_makedirs plain_env;
     env_write := env_write plain_env;
     env_screenshot := env_screenshot plain_env |}.

(** A browser that cannot tell its URL. *)
Definition mute_env : Env unit :=
  {| env_get := env_get plain_env;
     env_current_url := λ _, Exc "invalid session id";
     env_page_source := env_page_source plain_env;
     env_page_rows := env_page_rows plain_env;
     env_buttons := env_buttons plain_env;
     env_click := env_click plain_env;
     env_download_images := env_download_images plain_env;
     env_makedirs := env_makedirs plain_env;
     env_write := env_write plain_env;
     env_screenshot := env_screenshot plain_env |}.

(** A page with three buttons; the click on the first one fails.  The
    browser counts the clicks. *)
Definition panel_env : Env nat :=
  {| env_get := λ b _, (None, b);
     env_current_url := λ _, Ok "https://us.prairielearn.com/pl/course_instance/1/assessments";
     env_page_source := λ _, Ok "<html></html>";
     env_page_rows := λ _, Ok [];
     env_buttons := λ _, Ok [(Ok "Show Correct Answer", 0); (Ok "Save", 1); (Ok "Solution", 2)];
     env_click := λ b btn, (if bool_decide (btn = 0) then Some "element not interactable"
                             else None, b + 1);
     env_download_images := λ _ fs html_content _, (Ok html_content, fs);
     env_makedirs := λ fs _, (None, fs);
     env_write := λ fs path content, (None, <[path := File content]> fs);
     env_screenshot := λ b fs path, (true, b, fs) |}.

Definition panel_world : World nat :=
  {| w_fs := ∅; w_browser := 0; w_navigations := []; w_completed := ∅; w_log := [] |}.

(** *** [fix_css_paths] and [main] of the stand-alone fixer *)

(** The state of a run: the count of the files fixed so far, the file
    system, and the lines logged or printed. *)
Record FixRun : Type := {
  fixed_count : Z;
  fix_fs : FS;
  fix_log : list (level * string)
}.

(** One turn of [for html_file in html_files] in [fix_css_paths] of the
    scraper; [total] is [len(html_files)]. *)
Definition fix_css_step (total : Z) (st : FixRun) (html_file : string) : FixRun :=
  match read_text (fix_fs st) html_file with
  | Ok content =>
      let original_content := content in
      let content := of_chars (re_sub ASSETS (chars content)) in
      let content := of_chars (re_sub PL (chars content)) in
      if bool_decide (content ≠ original_content) then
        match write_text (fix_fs st) html_file content with
        | (None, fs) =>
            let fixed_count := (fixed_count st + 1)%Z in
            {| fixed_count := fixed_count;
               fix_fs := fs;
               fix_log :=
                 if (fixed_count mod 50 =? 0)%Z
                 then fix_log st ++ [(INFO, "  Fixed " +:+ py_str_of_Z fixed_count +:+ "/"
                                            +:+ py_str_of_Z total +:+ " files...")]
                 else fix_log st |}
        | (Some e, fs) =>
            {| fixed_count := fixed_count st; fix_fs := fs;
               fix_log := fix_log st
                            ++ [(WARNING, "Failed to fix " +:+ html_file +:+ ": " +:+ e)] |}
        end
      else st
  | Exc e =>
      {| fixed_count := fixed_count st; fix_fs := fix_fs st;
         fix_log := fix_log st ++ [(WARNING, "Failed to fix " +:+ html_file +:+ ": " +:+ e)] |}
  end.

(** [fix_css_paths(output_dir)] of the scraper; [html_files] is what
    [archive_path.rglob] gives for the pattern of the HTML files.  The
    newline that opens the first message is left out. *)
Definition fix_css_paths (fs : FS) (output_dir : string) (html_files : list string) : FixRun :=
  let opening := [(INFO, "=== FIXING CSS/JS PATHS ===")] in
  if negb (path_exists fs output_dir) then
    {| fixed_count := 0; fix_fs := fs;
       fix_log := opening ++ [(WARNING, "Output directory not found, skipping CSS fix")] |}
  else
    let total := Z.of_nat (length html_files) in
    let st :=
      fold_left (fix_css_step total) html_files
        {| fixed_count := 0; fix_fs := fs;
           fix_log := opening ++ [(INFO, "Found " +:+ py_str_of_Z total
                                         +:+ " HTML files to fix")] |} in
    {| fixed_count := fixed_count st; fix_fs := fix_fs st;
       fix_log := fix_log st ++ [(INFO, "CSS fix complete! Fixed "
                                        +:+ py_str_of_Z (fixed_count st) +:+ " HTML files.")] |}.

Definition ARCHIVE_DIR : string := "pl_archive_final".

(** What [fix_html_file] prints: the exception of the read or of the
    write. *)
Definition fix_html_file_prints (fs : FS) (filepath : string) : list (level * string) :=
  match read_text fs filepath with
  | Ok original_content =>
      let content := fix_content original_content in
      if bool_decide (content ≠ original_content) then
        match write_text fs filepath content with
        | (None, _) => []
        | (Some e, _) => [(INFO, "Error processing " +:+ filepath +:+ ": " +:+ e)]
        end
      else []
  | Exc e => [(INFO, "Error processing " +:+ filepath +:+ ": " +:+ e)]
  end.

(** One turn of [for html_file in html_files] in [main] of the stand-alone
    fixer.  The lines printed are kept as lines logged at the level INFO. *)
Definition fix_main_step (total : Z) (st : FixRun) (html_file : string) : FixRun :=
  let printed := fix_log st ++ fix_html_file_prints (fix_fs st) html_file in
  let '(changed, fs) := fix_html_file (fix_fs st) html_file in
  if changed then
    let fixed_count := (fixed_count st + 1)%Z in
    {| fixed_count := fixed_count; fix_fs := fs;
       fix_log :=
         if (fixed_count mod 10 =? 0)%Z
         then printed ++ [(INFO, "  Fixed " +:+ py_str_of_Z fixed_count +:+ "/"
                                 +:+ py_str_of_Z total +:+ " files...")]
         else printed |}
  else {| fixed_count := fixed_count st; fix_fs := fs; fix_log := printed |}.

(** [main] of the stand-alone fixer; [html_files] is what
    [archive_path.rglob] gives.  The newline that opens the message of the
    end is left out. *)
Definition fix_main (fs : FS) (html_files : list string) : FixRun :=
  if negb (path_exists fs ARCHIVE_DIR) then
    {| fixed_count := 0; fix_fs := fs;
       fix_log := [(INFO, "Error: " +:+ ARCHIVE_DIR +:+ " directory not found!")] |}
  else
    let total := Z.of_nat (length html_files) in
    let st :=
      fold_left (fix_main_step total) html_files
        {| fixed_count := 0; fix_fs := fs;
           fix_log := [(INFO, "Found " +:+ py_str_of_Z total +:+ " HTML files")] |} in
    {| fixed_count := fixed_count st; fix_fs := fix_fs st;
       fix_log := fix_log st ++
         [(INFO, "Completed! Fixed " +:+ py_str_of_Z (fixed_count st) +:+ " HTML files.");
          (INFO, "You can now open the HTML files in your browser and the CSS should load.")] |}.

(** A file that a run changes: a text file that can be written, in the
    text of which, as it is read, some path is rewritten. *)
Definition needs_fix (fs : FS) (path : string) : bool :=
  match fs !! path with
  | Some (File text) =>
      negb (bool_decide (rewritten_paths (translate_newlines (chars text)) = []))
  | _ => false
  end.

(** The file system after a run over distinct files: the files that the run
    changes hold the rewritten text of what was read, and all else is as it
    was. *)
Definition fixed_node (fs : FS) (html_files : list string) (path : string) : option node :=
  match fs !! path with
  | Some (File text) =>
      if bool_decide (path ∈ html_files) && needs_fix fs path
      then Some (File (fix_content (text_read text)))
      else Some (File text)
  | other => other
  end.

(** The count and the file system after the files of a run. *)
Definition fix_all (fs : FS) (html_files : list string) : Z * FS :=
  fold_left (λ st html_file,
               let '(changed, fs') := fix_html_file st.2 html_file in
               ((if changed then st.1 + 1 else st.1)%Z, fs'))
            html_files (0%Z, fs).

(** An archive of three entries: a page to fix, a page without paths to
    fix, and a folder whose name ends like a page. *)
Definition sample_archive : FS :=
  {[ "out" := Dir 4096 ["a.html"; "b.html"; "c.html"];
     "out/a.html" := File sample_page;
     "out/b.html" := File "<html></html>";
     "out/c.html" := Dir 4096 [];
     "pl_archive_final" := Dir 4096 [] ]}.

(** A page with line ends of two characters, and an archive that holds it
    beside a page that cannot be written. *)
Definition dos_page : string :=
  "<html>" +:+ String CR (String LF "") +:+ sample_page +:+ String CR (String LF "").
Definition guarded_archive : FS :=
  {[ "out" := Dir 4096 ["a.html"; "b.html"];
     "out/a.html" := File dos_page;
     "out/b.html" := ReadOnly sample_page ]}.
Definition sample_files : list string := ["out/a.html"; "out/b.html"; "out/c.html"].

(** *** [extract_course_name] *)

(** The pattern of a course code, one or more capital letters, white space
    or none, one or more digits, tried at the head of the text: group 1. *)
Definition course_match_at (l : list ascii) : option (list ascii) :=
  let capitals := take_while is_upper_az l in
  let l1 := drop_while is_upper_az l in
  let spaces := take_while is_space l1 in
  let digits := take_while is_digit (drop_while is_space l1) in
  if bool_decide (capitals = []) || bool_decide (digits = []) then None
  else Some (capitals ++ spaces ++ digits).

(** [re.search]: the leftmost position where the pattern matches. *)
Fixpoint course_search_chars (l : list ascii) : option (list ascii) :=
  match course_match_at l with
  | Some code => Some code
  | None =>
      match l with
      | _ :: l' => course_search_chars l'
      | [] => None
      end
  end.

(** The pattern of the course instance in a URL, tried at the head of the
    text: group 1, the digits. *)
Definition instance_match_at (l : list ascii) : option (list ascii) :=
  match strip_prefix (chars "/course_instance/") l with
  | Some rest =>
      let digits := take_while is_digit rest in
      if bool_decide (digits = []) then None else Some digits
  | None => None
  end.

Fixpoint instance_search_chars (l : list ascii) : option (list ascii) :=
  match instance_match_at l with
  | Some digits => Some digits
  | None =>
      match l with
      | _ :: l' => instance_search_chars l'
      | [] => None
      end
  end.

Definition DEFAULT_NAME : string := "PrairieLearn_Archive".

(** [extract_course_name(driver)].  [navbar_text] is what the page gives:
    an exception when the page source cannot be read, otherwise the
    stripped text of the navbar entry if there is one; [current_url] is what
    [driver.current_url] gives.  Any exception gives the default name. *)
Definition extract_course_name (navbar_text : outcome (option string))
    (current_url : outcome string) : string :=
  match navbar_text with
  | Exc _ => DEFAULT_NAME
  | Ok found =>
      match found ≫= (λ text, course_search_chars (chars text)) with
      | Some code => of_chars (map space_to_underscore code)
      | None =>
          match current_url with
          | Ok url =>
              match instance_search_chars (chars url) with
              | Some digits => "Course_" +:+ of_chars digits
              | None => DEFAULT_NAME
              end
          | Exc _ => DEFAULT_NAME
          end
      end
  end.

(** [output_dir] in [main]. *)
Definition output_dir_of (course_name : string) : string := course_name +:+ "_archive".

(** The shapes of a course name. *)
Definition course_code (name : string) : Prop :=
  ∃ capitals spaces digits,
    name = of_chars (capitals ++ map space_to_underscore spaces ++ digits) ∧
    capitals ≠ [] ∧ Forall (λ c, is_upper_az c = true) capitals ∧
    Forall (λ c, is_space c = true) spaces ∧
    digits ≠ [] ∧ Forall (λ c, is_digit c = true) digits.
Definition course_number (name : string) : Prop :=
  ∃ digits, name = "Course_" +:+ of_chars digits ∧
            digits ≠ [] ∧ Forall (λ c, is_digit c = true) digits.

(** *** [download_images] *)

Module Images.

(** What [download_images] takes from outside: the [src] values of the
    [img] tags of the parsed page, the page written out again with new
    values, the path part of a URL ([urlparse(src).path]), the creation of
    the images folder, the writing of a file of bytes, the cookies of the
    browser and the network. *)
Record Site : Type := {
  parse_images : string → list string;
  render : string → list string → string;
  url_path : string → outcome string;
  makedirs : FS → string → option string * FS;
  write_bytes : FS → string → list Z → option string * FS;
  get_cookies : outcome Cookies;
  net : Net
}.

(** The state of a call: the file system, what [download_with_retry] did,
    the lines logged by [download_images], and [downloaded_count]. *)
Record Run : Type := {
  run_fs : FS;
  run_trace : list net_event;
  run_log : list (level * string);
  downloaded_count : Z
}.

Definition start (fs : FS) : Run :=
  {| run_fs := fs; run_trace := []; run_log := []; downloaded_count := 0 |}.

Definition logged (lv : level) (msg : string) (st : Run) : Run :=
  {| run_fs := run_fs st; run_trace := run_trace st;
     run_log := run_log st ++ [(lv, msg)]; downloaded_count := downloaded_count st |}.

(** The test on [src] that selects the images to download. *)
Definition wanted (src : string) : bool :=
  py_in "prairielearn.com" src
  && (py_in "clientFilesCourse" src || py_in "clientFilesQuestion" src).

(** [os.path.basename] (POSIX): what follows the last slash. *)
Definition basename (path : string) : string :=
  of_chars (rev (take_while (λ c, negb (bool_decide (c = "/"%char))) (rev (chars path)))).

(** The file name of an image: the base name of the path of its URL, or a
    name made of the MD5 of the URL when the base name is empty. *)
Definition filename_of (src path : string) : string :=
  let filename := basename path in
  if bool_decide (filename = "") then "image_" +:+ of_chars (hash_suffix src) +:+ ".png"
  else filename.

(** [os.path.exists(local_path) and os.path.getsize(local_path) > 0] *)
Definition on_disk (fs : FS) (local_path : string) : bool :=
  path_exists fs local_path &&
  match getsize fs local_path with
  | Some size => (0 <? size)%Z
  | None => false
  end.

(** One turn of [for img in images]: the new value of [src] and the state. *)
Definition image_turn (site : Site) (images_folder : string) (cookies : Cookies)
    (st : Run) (src : string) : string * Run :=
  if wanted src then
    match url_path site src with
    | Exc e => (src, logged ERROR ("    Image download error: " +:+ e) st)
    | Ok path =>
        let filename := filename_of src path in
        let local_path := path_join images_folder [filename] in
        if on_disk (run_fs st) local_path then ("images/" +:+ filename, st)
        else
          let '(content, events) := download_with_retry (net site) src cookies MAX_RETRIES in
          let st := {| run_fs := run_fs st; run_trace := run_trace st ++ events;
                       run_log := run_log st; downloaded_count := downloaded_count st |} in
          match content with
          | Some (b :: bytes) =>
              match write_bytes site (run_fs st) local_path (b :: bytes) with
              | (None, fs) =>
                  ("images/" +:+ filename,
                   {| run_fs := fs; run_trace := run_trace st;
                      run_log := run_log st ++ [(INFO, "    Downloaded image: " +:+ filename)];
                      downloaded_count := downloaded_count st + 1 |})
              | (Some e, fs) =>
                  (src,
                   {| run_fs := fs; run_trace := run_trace st;
                      run_log := run_log st ++ [(ERROR, "    Image download error: " +:+ e)];
                      downloaded_count := downloaded_count st |})
              end
          | _ => (src, st)
          end
    end
  else (src, st).

Fixpoint image_loop (site : Site) (images_folder : string) (cookies : Cookies)
    (images : list string) (st : Run) : list string * Run :=
  match images with
  | [] => ([], st)
  | src :: rest =>
      let '(src', st) := image_turn site images_folder cookies st src in
      let '(srcs, st) := image_loop site images_folder cookies rest st in
      (src' :: srcs, st)
  end.

(** [download_images(driver, html_content, question_folder)] *)
Definition download_images (site : Site) (fs : FS) (html_content question_folder : string)
    : outcome string * Run :=
  let images := parse_images site html_content in
  if bool_decide (images = []) then (Ok html_content, start fs)
  else
    let images_folder := path_join question_folder ["images"] in
    match makedirs site fs images_folder with
    | (Some e, fs) => (Exc e, start fs)
    | (None, fs) =>
        match get_cookies site with
        | Exc e => (Exc e, start fs)
        | Ok cookies =>
            let '(srcs, st) := image_loop site images_folder cookies images (start fs) in
            let st :=
              if (0 <? downloaded_count st)%Z
              then logged INFO ("  Downloaded " +:+ py_str_of_Z (downloaded_count st)
                                +:+ " image(s)") st
              else st in
            (Ok (render site html_content srcs), st)
        end
    end.

(** The new value of a [src]: the old one, or the local path of an image
    that was wanted, [images/] followed by a file name without a slash. *)
Definition local_src (old new : string) : Prop :=
  new = old ∨
  (wanted old = true ∧
   ∃ filename, filename ≠ "" ∧ ("/"%char ∉ chars filename) ∧ new = "images/" +:+ filename).

(** A request of the trace asks for [url]. *)
Definition asks_for (P : string → Prop) (ev : net_event) : Prop :=
  match ev with
  | EvRequest url _ => P url
  | _ => True
  end.

(** The images that are wanted are on the disk. *)
Definition all_cached (site : Site) (fs : FS) (images_folder : string) (images : list string)
    : Prop :=
  ∀ src, src ∈ images → wanted src = true →
    ∃ path, url_path site src = Ok path ∧
            on_disk fs (path_join images_folder [filename_of src path]) = true.

(** The local path that goes with a [src] when its URL can be split. *)
Definition cached_src (site : Site) (src : string) : string :=
  if wanted src then
    match url_path site src with
    | Ok path => "images/" +:+ filename_of src path
    | Exc _ => src
    end
  else src.

End Images.

(** A page with two images, one of the course and one from elsewhere; the
    image of the course is on the disk. *)
Definition figure_url : string :=
  "https://us.prairielearn.com/pl/course_instance/1/clientFilesCourse/fig.png".
Definition two_images : Images.Site :=
  {| Images.parse_images := λ _, [figure_url; "https://example.org/logo.png"];
     Images.render := λ html_content srcs, String.concat "," srcs;
     Images.url_path := λ src, Ok "/pl/course_instance/1/clientFilesCourse/fig.png";
     Images.makedirs := λ fs _, (None, fs);
     Images.write_bytes := λ fs path content, (None, <[path := Blob (Z.of_nat (length content))]> fs);
     Images.get_cookies := Ok [];
     Images.net := λ _ _ _, RaisesTimeout |}.
Definition disk_with_figure : FS := {[ "q/images/fig.png" := Blob 120 ]}.

(** * Properties *)

(** *** Characters of a text *)

Lemma chars_of_chars l : chars (of_chars l) = l.
Proof. apply list_ascii_of_string_of_list_ascii. Qed.

Lemma of_chars_chars s : of_chars (chars s) = s.
Proof. apply string_of_list_ascii_of_string. Qed.

Lemma chars_app s1 s2 : chars (s1 +:+ s2) = chars s1 ++ chars s2.
Proof. induction s1 as [|c s1 IH]; simpl; [done|]. unfold chars in *. simpl. by rewrite IH. Qed.

Lemma lstrip_chars_subseteq l : lstrip_chars l ⊆ l.
Proof.
  induction l as [|c l IH]; simpl; [done|].
  destruct (is_space c); [|done].
  intros x Hx. right. by apply IH.
Qed.

Lemma strip_chars_subseteq l : strip_chars l ⊆ l.
Proof.
  unfold strip_chars, rstrip_chars. intros c Hc.
  apply list_elem_of_In, in_rev, list_elem_of_In in Hc.
  apply lstrip_chars_subseteq in Hc.
  apply list_elem_of_In, in_rev, list_elem_of_In in Hc.
  by apply lstrip_chars_subseteq.
Qed.

Lemma take_subseteq {A} (l : list A) n : take n l ⊆ l.
Proof.
  intros x Hx. rewrite <- (take_drop n l). apply elem_of_app. by left.
Qed.

(** *** The hash suffix *)

Lemma hex_digit_elem n : MD5.hex_digit n ∈ hex_chars.
Proof.
  unfold MD5.hex_digit. fold hex_chars.
  destruct (Nat.lt_ge_cases (Z.to_nat n) (length hex_chars)) as [Hlt|Hge].
  - apply list_elem_of_In, nth_In, Hlt.
  - rewrite nth_overflow by done. vm_compute. set_solver.
Qed.

Lemma hexdigest_hex msg : Forall (λ c, c ∈ hex_chars) (MD5.hexdigest msg).
Proof.
  unfold MD5.hexdigest. apply Forall_concat, Forall_map, Forall_forall.
  intros b _. unfold MD5.hex_byte.
  constructor; [apply hex_digit_elem | constructor; [apply hex_digit_elem | constructor]].
Qed.

Lemma le_bytes_length n x : length (MD5.le_bytes n x) = n.
Proof. unfold MD5.le_bytes. by rewrite length_map, length_seq. Qed.

Lemma digest_length msg : length (MD5.digest msg) = 16.
Proof.
  unfold MD5.digest.
  destruct (MD5.chunks _ _ _) as [[[a b] c] d].
  rewrite !length_app, !le_bytes_length. done.
Qed.

Lemma hexdigest_length msg : length (MD5.hexdigest msg) = 32.
Proof.
  unfold MD5.hexdigest.
  assert (H : ∀ bs, length (concat (map MD5.hex_byte bs)) = 2 * length bs).
  { induction bs as [|b bs IH]; simpl; [done|]. rewrite IH. lia. }
  rewrite H, digest_length. done.
Qed.

Lemma hash_suffix_length text : length (hash_suffix text) = 8.
Proof. unfold hash_suffix. rewrite length_take, hexdigest_length. done. Qed.

Lemma hash_suffix_hex text : Forall (λ c, c ∈ hex_chars) (hash_suffix text).
Proof. unfold hash_suffix. apply Forall_take, hexdigest_hex. Qed.

Lemma hex_chars_safe c : c ∈ hex_chars → safe_char c.
Proof.
  intros Hc.
  assert (H : Forall (λ c, safe_char c) hex_chars).
  { unfold hex_chars, illegal_chars, safe_char. vm_compute.
    repeat constructor; try (intros H; by repeat (apply elem_of_cons in H as [H|H]; [discriminate|]); apply elem_of_nil in H); discriminate. }
  by apply (proj1 (Forall_forall _ _) H).
Qed.

(** The digests of the MD5 test suite (RFC 1321). *)
Example md5_empty : md5_hex "" = "d41d8cd98f00b204e9800998ecf8427e".
Proof. vm_compute. reflexivity. Qed.

Example md5_abc : md5_hex "abc" = "900150983cd24fb0d6963f7d28e17f72".
Proof. vm_compute. reflexivity. Qed.

Example md5_message_digest :
  md5_hex "message digest" = "f96b697d7cb7938d525a2f31aaf161d0".
Proof. vm_compute. reflexivity. Qed.

Example md5_alphabet :
  md5_hex "abcdefghijklmnopqrstuvwxyz" = "c3fcd3d76192e4007dfb496cca67e13b".
Proof. vm_compute. reflexivity. Qed.

Example md5_two_blocks :
  md5_hex "12345678901234567890123456789012345678901234567890123456789012345678901234567890"
  = "57edf4a22be3c955ac49da2e2107b67a".
Proof. vm_compute. reflexivity. Qed.

(** *** The cleaned text *)

Lemma is_illegal_false c : is_illegal c = false ↔ c ∉ illegal_chars.
Proof. unfold is_illegal. apply bool_decide_eq_false. Qed.

Lemma clean_chars_safe text c :
  c ∈ clean_chars text → safe_char c.
Proof.
  unfold clean_chars. intros Hc.
  apply list_elem_of_fmap in Hc as (c0 & -> & Hc0).
  apply strip_chars_subseteq, list_elem_of_filter in Hc0 as [Hleg%is_illegal_false _].
  unfold space_to_underscore, safe_char. destruct (decide (c0 = " "%char)) as [->|Hne].
  - split; [|discriminate]. vm_compute. intros H.
    by repeat (apply elem_of_cons in H as [H|H]; [discriminate|]); apply elem_of_nil in H.
  - done.
Qed.

Lemma slice_to_subseteq {A} (l : list A) k : slice_to l k ⊆ l.
Proof.
  unfold slice_to. destruct (0 <=? k)%Z; apply take_subseteq.
Qed.

Lemma slice_to_length {A} (l : list A) k :
  (0 ≤ k ≤ Z.of_nat (length l))%Z → Z.of_nat (length (slice_to l k)) = k.
Proof.
  intros Hk. unfold slice_to.
  destruct (Z.leb_spec 0 k); [|lia]. rewrite length_take. lia.
Qed.

Lemma slice_to_length_neg {A} (l : list A) k :
  (k < 0)%Z → Z.of_nat (length (slice_to l k)) = Z.max 0 (Z.of_nat (length l) + k).
Proof.
  intros Hk. unfold slice_to.
  destruct (Z.leb_spec 0 k); [lia|]. rewrite length_take. lia.
Qed.

(** The output for a cleaned text that is longer than the maximum. *)
Lemma clean_filename_long text max_length :
  (max_length < Z.of_nat (length (clean_chars (chars text))))%Z →
  clean_filename text max_length
  = of_chars (slice_to (clean_chars (chars text)) (max_length - 9)
              ++ chars "_" ++ hash_suffix text).
Proof.
  intros Hlong. unfold clean_filename.
  by destruct (Z.gtb_spec (Z.of_nat (length (clean_chars (chars text)))) max_length); [|lia].
Qed.

(** C4 (as amended): the output of the sanitizer holds no path-illegal
    character and no space, for every text and every maximum length; when
    the cleaned text is longer than the maximum, the output ends with an
    underscore and the first 8 hexadecimal digits of the MD5 of the original
    text, for every maximum, and its length is the maximum exactly when the
    maximum is at least 9: below 9 the output is longer than the maximum.
    The suffix is the same for every maximum: it depends on the text alone. *)
Theorem clean_filename_spec (text : string) (max_length : Z) :
  safe_name (clean_filename text max_length) ∧
  ((max_length < Z.of_nat (length (clean_chars (chars text))))%Z →
   (length (hash_suffix text) = 8 ∧
    hash_suffix text = take 8 (chars (md5_hex text)) ∧
    ∃ head, clean_filename text max_length
            = of_chars (head ++ chars "_" ++ hash_suffix text)) ∧
   ((9 ≤ max_length)%Z → py_len (clean_filename text max_length) = max_length) ∧
   ((max_length < 9)%Z → (max_length < py_len (clean_filename text max_length))%Z)) ∧
  (∀ max_length' : Z,
     (max_length < Z.of_nat (length (clean_chars (chars text))))%Z →
     (max_length' < Z.of_nat (length (clean_chars (chars text))))%Z →
     ∃ head head',
       clean_filename text max_length
       = of_chars (head ++ chars "_" ++ take 8 (chars (md5_hex text))) ∧
       clean_filename text max_length'
       = of_chars (head' ++ chars "_" ++ take 8 (chars (md5_hex text)))).
Proof.
  assert (Hsuffix : hash_suffix text = take 8 (chars (md5_hex text))).
  { unfold hash_suffix, md5_hex. by rewrite chars_of_chars. }
  split; [|split].
  - unfold safe_name, clean_filename. intros c.
    destruct (Z.of_nat (length (clean_chars (chars text))) >? max_length)%Z;
      rewrite chars_of_chars; [|apply clean_chars_safe].
    intros [Hc|Hc]%elem_of_app.
    + apply slice_to_subseteq in Hc. by apply clean_chars_safe in Hc.
    + apply elem_of_app in Hc as [Hc|Hc].
      * apply list_elem_of_singleton in Hc as ->. split; [|discriminate].
        vm_compute. intros H.
        by repeat (apply elem_of_cons in H as [H|H]; [discriminate|]); apply elem_of_nil in H.
      * apply hex_chars_safe.
        by apply (proj1 (Forall_forall _ _) (hash_suffix_hex text)).
  - intros Hlong. rewrite (clean_filename_long _ _ Hlong).
    assert (Hlen : py_len (of_chars (slice_to (clean_chars (chars text)) (max_length - 9)
                                     ++ chars "_" ++ hash_suffix text))
                   = (Z.of_nat (length (slice_to (clean_chars (chars text)) (max_length - 9)))
                      + 9)%Z).
    { unfold py_len. rewrite chars_of_chars, !length_app, hash_suffix_length.
      change (length (chars "_")) with 1. lia. }
    split; [|split].
    + split; [apply hash_suffix_length|]. split; [exact Hsuffix | by eexists].
    + intros Hmax. rewrite Hlen.
      pose proof (slice_to_length (clean_chars (chars text)) (max_length - 9)). lia.
    + intros Hmax. rewrite Hlen.
      pose proof (slice_to_length_neg (clean_chars (chars text)) (max_length - 9)). lia.
  - intros max_length' Hlong Hlong'.
    rewrite (clean_filename_long _ _ Hlong), (clean_filename_long _ _ Hlong'), Hsuffix.
    by eexists _, _.
Qed.

Lemma clean_filename_spec_witness :
  (12 < Z.of_nat (length (clean_chars (chars "unit 1: a/b testing"))))%Z ∧
  py_len (clean_filename "unit 1: a/b testing" 12) = 12%Z ∧
  (5 < py_len (clean_filename "unit 1: a/b testing" 5))%Z ∧
  ∃ head, clean_filename "unit 1: a/b testing" 12
          = of_chars (head ++ chars "_" ++ hash_suffix "unit 1: a/b testing").
Proof.
  assert (H12 : (12 < Z.of_nat (length (clean_chars (chars "unit 1: a/b testing"))))%Z)
    by (vm_compute; reflexivity).
  assert (H5 : (5 < Z.of_nat (length (clean_chars (chars "unit 1: a/b testing"))))%Z)
    by (vm_compute; reflexivity).
  destruct (proj1 (proj2 (clean_filename_spec "unit 1: a/b testing" 12)) H12)
    as ((_ & _ & Hhead) & Hexact & _).
  destruct (proj1 (proj2 (clean_filename_spec "unit 1: a/b testing" 5)) H5)
    as (_ & _ & Hover).
  split; [exact H12|]. split; [apply Hexact; lia|]. split; [apply Hover; lia | exact Hhead].
Defined.

(** C4 (as stated) fails for a maximum length below 9: the cleaned text of
    10 characters exceeds the maximum 5, and the output has 15 characters. *)
Lemma clean_filename_short_max :
  (5 < Z.of_nat (length (clean_chars (chars "abcdefghij"))))%Z ∧
  clean_filename "abcdefghij" 5 = "abcdef_a9255769" ∧
  ¬ (py_len (clean_filename "abcdefghij" 5) ≤ 5)%Z.
Proof.
  split; [vm_compute; reflexivity|]. split; [vm_compute; reflexivity|].
  vm_compute. intros H. apply H. reflexivity.
Qed.

Example clean_filename_plain : clean_filename_default "  HW 3: Loops/Arrays?  " = "HW_3_LoopsArrays".
Proof. vm_compute. reflexivity. Qed.

Example clean_filename_truncated :
  clean_filename "unit 1: a/b testing" 12 = "uni_24ac7bb6".
Proof. vm_compute. reflexivity. Qed.


(** *** The validity check *)

Lemma path_exists_true (fs : FS) p : path_exists fs p = true ↔ is_Some (fs !! p).
Proof. unfold path_exists. apply bool_decide_eq_true. Qed.

Lemma getsize_is_Some (fs : FS) p : is_Some (fs !! p) → is_Some (getsize fs p).
Proof. unfold getsize. intros [n ->]. destruct n; eauto. Qed.

(** C3 (as amended): the check answers true exactly when the path exists,
    its size is at least 1000 bytes and the first 500 characters read hold,
    in lower case, a doctype declaration or an html tag; a file of exactly
    1000 bytes passes.  In particular a failed read gives false.  The
    characters read are those that a file opened in text mode gives: the
    newlines are translated before the characters are counted, and bytes
    that are not text count only when they lie in the first chunk. *)
Theorem validate_html_file_spec (fs : FS) (filepath : string) :
  (validate_html_file fs filepath = true ↔ valid_with_size_at_least 1000 fs filepath) ∧
  (read_head fs filepath 500 = None → validate_html_file fs filepath = false).
Proof.
  unfold validate_html_file, valid_with_size_at_least, has_html_marker.
  split.
  - destruct (path_exists fs filepath) eqn:Hex; simpl.
    2:{ split; [discriminate | intros [? _]; discriminate]. }
    destruct (getsize fs filepath) as [size|] eqn:Hsz.
    2:{ split; [discriminate | intros (_ & (s & Hs & _) & _); discriminate]. }
    destruct (Z.ltb_spec size 1000).
    { split; [discriminate |].
      intros (_ & (s & Hs & Hge) & _). injection Hs as <-. lia. }
    destruct (read_head fs filepath 500) as [content|] eqn:Hrd.
    2:{ split; [discriminate | intros (_ & _ & (c & Hc & _)); discriminate]. }
    destruct (negb (py_in "<!doctype html>" (py_lower content))
              && negb (py_in "<html" (py_lower content))) eqn:Hm.
    + split; [discriminate |].
      intros (_ & _ & (c & Hc & Hc')). injection Hc as <-.
      apply andb_true_iff in Hm as [H1%negb_true_iff H2%negb_true_iff].
      rewrite H1, H2 in Hc'. discriminate.
    + split; [intros _ | done].
      split; [done|]. split; [exists size; split; [done | lia]|].
      exists content. split; [done|].
      apply andb_false_iff in Hm as [H1%negb_false_iff | H2%negb_false_iff].
      * rewrite H1. done.
      * rewrite H2. apply orb_true_r.
  - intros Hrd. rewrite Hrd.
    destruct (path_exists fs filepath); simpl; [|done].
    destruct (getsize fs filepath) as [size|]; [|done].
    destruct (size <? 1000)%Z; done.
Qed.

(** C3 (as stated) fails on a file of exactly 1000 bytes that starts with a
    doctype: the check answers true although the size does not exceed 1000. *)
Lemma validate_html_file_size_1000 :
  let fs : FS := {[ "index.html" := File page1000 ]} in
  getsize fs "index.html" = Some 1000%Z ∧
  ¬ (validate_html_file fs "index.html" = true ↔ valid_with_size_above 1000 fs "index.html").
Proof.
  split; [vm_compute; reflexivity|].
  intros [Hto _].
  assert (Hv : validate_html_file {[ "index.html" := File page1000 ]} "index.html" = true)
    by (vm_compute; reflexivity).
  destruct (Hto Hv) as (_ & (size & Hs & Hgt) & _).
  assert (Hs' : getsize ({[ "index.html" := File page1000 ]} : FS) "index.html" = Some 1000%Z)
    by (vm_compute; reflexivity).
  rewrite Hs' in Hs. injection Hs as <-. lia.
Qed.

Lemma validate_html_file_spec_witness :
  let fs : FS := {[ "render.png" := Blob 4096 ]} in
  read_head fs "render.png" 500 = None ∧ validate_html_file fs "render.png" = false.
Proof.
  split; [reflexivity|].
  apply (proj2 (validate_html_file_spec {[ "render.png" := Blob 4096 ]} "render.png")).
  reflexivity.
Defined.

Example validate_html_file_translates_newlines :
  let fs : FS := {[ "index.html" := File crlf_page ]} in
  validate_html_file fs "index.html" = true ∧
  py_in "<html" (of_chars (take 500 (chars crlf_page))) = false.
Proof. vm_compute. done. Qed.

(** A page of 8192 bytes of text followed by bytes that are not text passes;
    with one byte of text less it does not, the read raises. *)
Example validate_html_file_first_chunk :
  let whole : FS := {[ "index.html" := Torn (padded "<!doctype html>" "a" (Z.to_nat 8177)) 100 ]} in
  let short : FS := {[ "index.html" := Torn (padded "<!doctype html>" "a" (Z.to_nat 8176)) 100 ]} in
  validate_html_file whole "index.html" = true ∧
  validate_html_file short "index.html" = false ∧
  read_head short "index.html" 500 = None.
Proof. vm_compute. done. Qed.


(** *** The download with retries *)

Section Retry.
Context (net : Net) (url : string) (cookies : Cookies) (max_retries : Z).

Lemma requests_app tr1 tr2 : requests (tr1 ++ tr2) = requests tr1 + requests tr2.
Proof. unfold requests. by rewrite filter_app, length_app. Qed.

Lemma sleeps_app tr1 tr2 : sleeps (tr1 ++ tr2) = sleeps tr1 ++ sleeps tr2.
Proof. unfold sleeps. apply omap_app. Qed.

Lemma attempts_from_S a n : attempts_from a (S n) = Z.of_nat a :: attempts_from (S a) n.
Proof. reflexivity. Qed.

Lemma filter_raises_cons x l :
  filter (λ i, raises (net url cookies i) = true) (x :: l)
  = if raises (net url cookies x) then x :: filter (λ i, raises (net url cookies i) = true) l
    else filter (λ i, raises (net url cookies i) = true) l.
Proof. rewrite filter_cons. destruct (raises (net url cookies x)); by case_decide. Qed.

Lemma attempts_from_snoc a n :
  attempts_from a (S n) = attempts_from a n ++ [Z.of_nat (a + n)].
Proof. unfold attempts_from. by rewrite seq_S, map_app. Qed.

(** What the loop over the attempts [a], ..., [a + n - 1] does: it performs
    [p] requests, sleeps after those that raise, and stops at the first
    attempt answered by 200 or 401. *)
Lemma retry_loop_spec n : ∀ a tr,
  ∃ p, p ≤ n ∧
    requests (retry_loop net url cookies max_retries (attempts_from a n) tr).2 = requests tr + p ∧
    sleeps (retry_loop net url cookies max_retries (attempts_from a n) tr).2
    = sleeps tr ++ map (λ i, 2 ^ i)%Z (filter (λ i, raises (net url cookies i) = true) (attempts_from a p)) ∧
    (∀ i, i ∈ attempts_from a (pred p) → decisive (net url cookies i) = false) ∧
    ((p = n ∧ (∀ i, i ∈ attempts_from a n → decisive (net url cookies i) = false) ∧
      (retry_loop net url cookies max_retries (attempts_from a n) tr).1 = None) ∨
     (∃ q status content, p = S q ∧ net url cookies (Z.of_nat (a + q)) = Response status content ∧
        ((status = 200%Z ∧ (retry_loop net url cookies max_retries (attempts_from a n) tr).1 = Some content ∧
          last (retry_loop net url cookies max_retries (attempts_from a n) tr).2 = Some (EvRequest url (Z.of_nat (a + q)))) ∨
         (status = 401%Z ∧ (retry_loop net url cookies max_retries (attempts_from a n) tr).1 = None ∧
          last (retry_loop net url cookies max_retries (attempts_from a n) tr).2
          = Some (EvLogError "Session expired - please re-login"))))).
Proof.
  induction n as [|n IH]; intros a tr.
  - exists 0. simpl. rewrite Nat.add_0_r, app_nil_r.
    split; [lia|]. split; [done|]. split; [done|].
    split; [intros i Hi; cbn in Hi; by apply elem_of_nil in Hi|].
    left. split; [done|]. split; [|done]. intros i Hi; cbn in Hi; by apply elem_of_nil in Hi.
  - rewrite attempts_from_S. cbn [retry_loop].
    destruct (net url cookies (Z.of_nat a)) as [status content| |e] eqn:Hout.
    + destruct (Z.eqb_spec status 200) as [->|Hne200];
        [|destruct (Z.eqb_spec status 401) as [->|Hne401]].
      * exists 1. cbn [fst snd]. rewrite requests_app, sleeps_app.
        rewrite (attempts_from_S a 0), filter_raises_cons, Hout. cbn. rewrite !app_nil_r.
        split; [lia|]. split; [unfold requests; simpl; lia|]. split; [done|].
        split; [intros i Hi; cbn in Hi; by apply elem_of_nil in Hi|].
        right. exists 0, 200%Z, content. rewrite Nat.add_0_r.
        split; [done|]. split; [done|]. left. by rewrite last_snoc.
      * exists 1. cbn [fst snd]. rewrite !requests_app, !sleeps_app.
        rewrite (attempts_from_S a 0), filter_raises_cons, Hout. cbn. rewrite !app_nil_r.
        split; [lia|]. split; [unfold requests; simpl; lia|]. split; [done|].
        split; [intros i Hi; cbn in Hi; by apply elem_of_nil in Hi|].
        right. exists 0, 401%Z, content. rewrite Nat.add_0_r.
        split; [done|]. split; [done|]. right. by rewrite last_snoc.
      * destruct (IH (S a) (tr ++ [EvRequest url (Z.of_nat a)]))
          as (p & Hp & Hreq & Hsl & Hpre & Hend).
        exists (S p). split; [lia|].
        split; [rewrite Hreq, requests_app; unfold requests; simpl; lia|].
        split.
        { rewrite Hsl, sleeps_app, attempts_from_S, filter_raises_cons, Hout. cbn.
          by rewrite app_nil_r. }
        assert (Hda : decisive (net url cookies (Z.of_nat a)) = false).
        { rewrite Hout. cbn. destruct (Z.eqb_spec status 200); [done|].
          destruct (Z.eqb_spec status 401); done. }
        split.
        { cbn [pred]. destruct p as [|p]; [intros i Hi; cbn in Hi; by apply elem_of_nil in Hi|].
          rewrite attempts_from_S. intros i [->|Hi]%elem_of_cons; [done|]. by apply Hpre. }
        destruct Hend as [(-> & Hall & Hres)|(q & st & c & -> & Hq & Hres)].
        -- left. split; [done|]. split; [|done].
           intros i [->|Hi]%elem_of_cons; [done|]. by apply Hall.
        -- right. exists (S q), st, c. split; [done|].
           replace (a + S q) with (S a + q) by lia. done.
    + destruct (IH (S a) (tr ++ [EvRequest url (Z.of_nat a)] ++
                  [EvLogWarning ("Timeout on attempt " +:+ py_str_of_Z (Z.of_nat a + 1)
                                  +:+ "/" +:+ py_str_of_Z max_retries);
                   EvSleep (2 ^ Z.of_nat a)]))
        as (p & Hp & Hreq & Hsl & Hpre & Hend).
      rewrite <- !app_assoc.
      exists (S p). split; [lia|].
      split; [rewrite Hreq, requests_app; unfold requests; simpl; lia|].
      split.
      { rewrite Hsl, !sleeps_app, attempts_from_S, filter_raises_cons, Hout. cbn.
        by rewrite <- app_assoc. }
      assert (Hda : decisive (net url cookies (Z.of_nat a)) = false) by (by rewrite Hout).
      split.
      { cbn [pred]. destruct p as [|p]; [intros i Hi; cbn in Hi; by apply elem_of_nil in Hi|].
        rewrite attempts_from_S. intros i [->|Hi]%elem_of_cons; [done|]. by apply Hpre. }
      destruct Hend as [(-> & Hall & Hres)|(q & st & c & -> & Hq & Hres)].
      -- left. split; [done|]. split; [|done].
         intros i [->|Hi]%elem_of_cons; [done|]. by apply Hall.
      -- right. exists (S q), st, c. split; [done|].
         replace (a + S q) with (S a + q) by lia. done.
    + destruct (IH (S a) (tr ++ [EvRequest url (Z.of_nat a)] ++
                  [EvLogWarning ("Download failed (attempt " +:+ py_str_of_Z (Z.of_nat a + 1)
                                  +:+ "): " +:+ e);
                   EvSleep (2 ^ Z.of_nat a)]))
        as (p & Hp & Hreq & Hsl & Hpre & Hend).
      rewrite <- !app_assoc.
      exists (S p). split; [lia|].
      split; [rewrite Hreq, requests_app; unfold requests; simpl; lia|].
      split.
      { rewrite Hsl, !sleeps_app, attempts_from_S, filter_raises_cons, Hout. cbn.
        by rewrite <- app_assoc. }
      assert (Hda : decisive (net url cookies (Z.of_nat a)) = false) by (by rewrite Hout).
      split.
      { cbn [pred]. destruct p as [|p]; [intros i Hi; cbn in Hi; by apply elem_of_nil in Hi|].
        rewrite attempts_from_S. intros i [->|Hi]%elem_of_cons; [done|]. by apply Hpre. }
      destruct Hend as [(-> & Hall & Hres)|(q & st & c & -> & Hq & Hres)].
      -- left. split; [done|]. split; [|done].
         intros i [->|Hi]%elem_of_cons; [done|]. by apply Hall.
      -- right. exists (S q), st, c. split; [done|].
         replace (a + S q) with (S a + q) by lia. done.
Qed.

End Retry.

Lemma elem_of_attempts_from i a n :
  i ∈ attempts_from a n ↔ ∃ m, i = Z.of_nat m ∧ a ≤ m < a + n.
Proof.
  unfold attempts_from. rewrite list_elem_of_fmap. split.
  - intros (m & -> & Hm). exists m. split; [done|].
    apply list_elem_of_In, in_seq in Hm. lia.
  - intros (m & -> & Hm). exists m. split; [done|].
    apply list_elem_of_In, in_seq. lia.
Qed.

(** The first attempt answered by 200 or 401 is where the loop stops. *)
Lemma first_decisive_stops (net : Net) url cookies (max_retries : Z) k status content :
  (0 ≤ k < max_retries)%Z →
  net url cookies k = Response status content →
  (status = 200 ∨ status = 401)%Z →
  (∀ j, (0 ≤ j < k)%Z → decisive (net url cookies j) = false) →
  let run := download_with_retry net url cookies max_retries in
  Z.of_nat (requests run.2) = (k + 1)%Z ∧
  ((status = 200%Z ∧ run.1 = Some content ∧ last run.2 = Some (EvRequest url k)) ∨
   (status = 401%Z ∧ run.1 = None ∧
    last run.2 = Some (EvLogError "Session expired - please re-login"))).
Proof.
  intros Hk Hout Hst Hbefore run. subst run. unfold download_with_retry, py_range.
  fold (attempts_from 0 (Z.to_nat max_retries)).
  destruct (retry_loop_spec net url cookies max_retries (Z.to_nat max_retries) 0 [])
    as (p & Hp & Hreq & _ & Hpre & Hend).
  assert (Hdk : decisive (net url cookies k) = true).
  { rewrite Hout. cbn. destruct Hst as [-> | ->]; done. }
  destruct Hend as [(-> & Hall & _)|(q & st & c & -> & Hq & Hres)].
  - rewrite Hall in Hdk; [done|]. apply elem_of_attempts_from.
    exists (Z.to_nat k). lia.
  - cbn [pred] in Hpre. rewrite Nat.add_0_l in Hq, Hres.
    assert (Hqk : Z.of_nat q = k).
    { destruct (Z.lt_trichotomy (Z.of_nat q) k) as [Hlt|[Heq|Hgt]]; [|done|].
      - assert (Hnd : decisive (net url cookies (Z.of_nat q)) = false)
          by (apply Hbefore; lia).
        rewrite Hq in Hnd. cbn in Hnd. destruct Hres as [(-> & _)|(-> & _)]; done.
      - rewrite Hpre in Hdk; [done|]. apply elem_of_attempts_from.
        exists (Z.to_nat k). lia. }
    rewrite Hqk in *. rewrite Hq in Hout. injection Hout as -> ->.
    split; [rewrite Hreq; unfold requests; simpl; lia|]. done.
Qed.

(** C9: the download performs at most [max_retries] requests; it sleeps
    [2 ** attempt] seconds after each attempt that raises; at the first
    attempt answered by status 200 it returns the body, and at an attempt
    answered by status 401 (none before it answered by 200 or 401) it logs
    the expired session and returns [None], in both cases without another
    request. *)
Theorem download_with_retry_spec (net : Net) (url : string) (cookies : Cookies)
    (max_retries : Z) :
  let run := download_with_retry net url cookies max_retries in
  (Z.of_nat (requests run.2) ≤ Z.max 0 max_retries)%Z ∧
  sleeps run.2
  = map (λ i, 2 ^ i)%Z
      (filter (λ i, raises (net url cookies i) = true) (py_range (Z.of_nat (requests run.2)))) ∧
  (∀ k content,
     (0 ≤ k < max_retries)%Z →
     net url cookies k = Response 200 content →
     (∀ j, (0 ≤ j < k)%Z → decisive (net url cookies j) = false) →
     run.1 = Some content ∧ Z.of_nat (requests run.2) = (k + 1)%Z ∧
     last run.2 = Some (EvRequest url k)) ∧
  (∀ k content,
     (0 ≤ k < max_retries)%Z →
     net url cookies k = Response 401 content →
     (∀ j, (0 ≤ j < k)%Z → decisive (net url cookies j) = false) →
     run.1 = None ∧ Z.of_nat (requests run.2) = (k + 1)%Z ∧
     last run.2 = Some (EvLogError "Session expired - please re-login")).
Proof.
  intros run. split; [|split; [|split]].
  - subst run. unfold download_with_retry, py_range.
    fold (attempts_from 0 (Z.to_nat max_retries)).
    destruct (retry_loop_spec net url cookies max_retries (Z.to_nat max_retries) 0 [])
      as (p & Hp & Hreq & _).
    rewrite Hreq. unfold requests. simpl. lia.
  - subst run. unfold download_with_retry, py_range.
    fold (attempts_from 0 (Z.to_nat max_retries)).
    destruct (retry_loop_spec net url cookies max_retries (Z.to_nat max_retries) 0 [])
      as (p & Hp & Hreq & Hsl & _).
    rewrite Hsl, Hreq. unfold requests. simpl. by rewrite Nat2Z.id.
  - intros k content Hk Hout Hbefore.
    destruct (first_decisive_stops net url cookies max_retries k 200 content
                Hk Hout (or_introl eq_refl) Hbefore) as [Hreq [(_ & ? & ?)|(? & _)]]; done.
  - intros k content Hk Hout Hbefore.
    destruct (first_decisive_stops net url cookies max_retries k 401 content
                Hk Hout (or_intror eq_refl) Hbefore) as [Hreq [(? & _)|(_ & ? & ?)]]; done.
Qed.

Lemma download_with_retry_spec_witness :
  (0 ≤ 2 < MAX_RETRIES)%Z ∧
  flaky_net "https://us.prairielearn.com/a.png" [] 2 = Response 200 [104; 105]%Z ∧
  (download_with_retry flaky_net "https://us.prairielearn.com/a.png" [] MAX_RETRIES).1
  = Some [104; 105]%Z.
Proof.
  split; [unfold MAX_RETRIES; lia|]. split; [reflexivity|].
  apply (proj1 (proj2 (proj2
           (download_with_retry_spec flaky_net "https://us.prairielearn.com/a.png" [] MAX_RETRIES)))
         2%Z [104; 105]%Z).
  - unfold MAX_RETRIES; lia.
  - reflexivity.
  - intros j Hj. assert (j = 0 ∨ j = 1)%Z as [-> | ->] by lia; reflexivity.
Defined.

Example download_with_retry_flaky :
  download_with_retry flaky_net "u" [] MAX_RETRIES
  = (Some [104; 105]%Z,
     [EvRequest "u" 0; EvLogWarning "Timeout on attempt 1/3"; EvSleep 1;
      EvRequest "u" 1; EvRequest "u" 2]).
Proof. vm_compute. reflexivity. Qed.


(** *** Module discovery *)

Lemma discover_from_app st rows1 rows2 :
  discover_from st (rows1 ++ rows2) = discover_from (discover_from st rows1) rows2.
Proof. unfold discover_from. apply fold_left_app. Qed.

Lemma discover_from_cons st row rows :
  discover_from st (row :: rows) = discover_from (discover_row st row) rows.
Proof. reflexivity. Qed.

(** A heading row with a week number outside 1..14 resets the cursor and
    leaves the aggregates and the candidates alone. *)
Lemma discover_row_invalid_header st row :
  invalid_week_header row →
  current_week_num (discover_row st row) = None ∧
  module_types (discover_row st row) = module_types st ∧
  temp_assessments (discover_row st row) = temp_assessments st.
Proof.
  intros (week_title & week_num & Hh & Hs & Hout).
  unfold discover_row. rewrite Hh, Hs.
  destruct (Z.leb_spec 1 week_num), (Z.leb_spec week_num 14); simpl; (done || lia).
Qed.

(** While the cursor is unset, a row that is not a valid week header
    changes nothing. *)
Lemma discover_row_suppressed st row :
  current_week_num st = None →
  ¬ valid_week_header row →
  discover_row st row = st.
Proof.
  intros Hcur Hnv. unfold discover_row.
  destruct (row_header row) as [week_title|] eqn:Hh.
  - destruct (week_search week_title) as [week_num|] eqn:Hs; [|done].
    destruct (Z.leb_spec 1 week_num), (Z.leb_spec week_num 14); simpl;
      try (destruct st; simpl in *; by subst).
    exfalso. apply Hnv. exists week_title, week_num. split; [done|]. split; [done|]. lia.
  - by rewrite Hcur.
Qed.

Lemma discover_from_suppressed rows : ∀ st,
  current_week_num st = None →
  Forall (λ row, ¬ valid_week_header row) rows →
  discover_from st rows = st.
Proof.
  induction rows as [|row rows IH]; intros st Hcur Hall; [done|].
  apply Forall_cons in Hall as [Hrow Hrows].
  rewrite discover_from_cons, (discover_row_suppressed st row Hcur Hrow).
  by apply IH.
Qed.

(** C5: after a week header whose number is read and lies outside 1..14,
    the cursor is unset, and the rows that follow it, up to the next header
    with a number in 1..14, add nothing to the aggregates or to the
    candidates and leave the cursor unset. *)
Theorem week_cursor_reset (st : Discovery) (header : Row) (rows : list Row) :
  invalid_week_header header →
  Forall (λ row, ¬ valid_week_header row) rows →
  current_week_num (discover_row st header) = None ∧
  current_week_num (discover_from st (header :: rows)) = None ∧
  module_types (discover_from st (header :: rows)) = module_types st ∧
  temp_assessments (discover_from st (header :: rows)) = temp_assessments st.
Proof.
  intros Hhead Hrows.
  destruct (discover_row_invalid_header st header Hhead) as (Hcur & Htypes & Htemp).
  rewrite discover_from_cons, (discover_from_suppressed rows _ Hcur Hrows). done.
Qed.

Lemma not_valid_item badge_text link_href text users :
  ¬ valid_week_header (item_row badge_text link_href text users).
Proof. intros (? & ? & ? & _). discriminate. Qed.

(** A listing with a week 1, then a week 15 followed by an item. *)
Lemma week_cursor_reset_witness :
  let st := discover [header_row "Week 1"; item_row "HW1" "/pl/assessment/1" "First" false] in
  let after := [item_row "HW9" "/pl/assessment/9" "Late" false; header_row "Finals"] in
  current_week_num st = Some 1%Z ∧
  temp_assessments (discover_from st (header_row "Week 15" :: after)) = temp_assessments st.
Proof.
  split; [reflexivity|].
  apply (week_cursor_reset
           (discover [header_row "Week 1"; item_row "HW1" "/pl/assessment/1" "First" false])
           (header_row "Week 15")
           [item_row "HW9" "/pl/assessment/9" "Late" false; header_row "Finals"]).
  - exists "Week 15", 15%Z. split; [reflexivity|]. split; [reflexivity|]. lia.
  - repeat constructor.
    + apply not_valid_item.
    + intros (t & n & Ht & Hs & _). injection Ht as <-. discriminate.
Defined.


(** *** The per-type aggregates *)

Lemma discover_row_qualifies st row module_type link :
  qualifies st row = Some (module_type, link) →
  ∃ a, candidate_of st row module_type link = Some a ∧
    discover_row st row
    = {| module_types := types_after (module_types st) module_type link;
         temp_assessments := temp_assessments st ++ [a];
         current_week_num := current_week_num st |}.
Proof.
  unfold qualifies, discover_row, candidate_of, types_after.
  destruct (row_header row); [done|].
  destruct (current_week_num st) as [week_num|]; [|done].
  destruct (row_badge row) as [badge_text|]; [|done].
  destruct (row_link row) as [link0|]; [|done].
  destruct (bool_decide (href link0 = "")); [done|].
  destruct (py_in "/assessment/" (href link0) || py_in "/assessment_instance/" (href link0));
    [|done].
  destruct (type_match badge_text) as [T|]; [|done].
  simpl. intros [= -> ->]. eexists. split; [reflexivity|]. done.
Qed.

Lemma discover_row_not_qualifies st row :
  qualifies st row = None →
  module_types (discover_row st row) = module_types st ∧
  temp_assessments (discover_row st row) = temp_assessments st.
Proof.
  unfold qualifies, discover_row.
  destruct (row_header row) as [week_title|].
  { intros _. destruct (week_search week_title) as [n|]; [|done].
    destruct ((1 <=? n)%Z && (n <=? 14)%Z); done. }
  destruct (current_week_num st) as [week_num|]; [|done].
  destruct (row_badge row) as [badge_text|]; [|done].
  destruct (row_link row) as [link0|]; [|done].
  destruct (bool_decide (href link0 = "")); [done|].
  destruct (py_in "/assessment/" (href link0) || py_in "/assessment_instance/" (href link0));
    [|done].
  destruct (type_match badge_text) as [T|]; [|done].
  discriminate.
Qed.

Lemma candidate_of_fields st row module_type link a :
  candidate_of st row module_type link = Some a →
  a_type a = module_type ∧ a_is_group a = has_users_icon link ∧ a_title a = link_text link ∧
  a_url a = (if py_startswith (href link) "http" then href link else SITE +:+ href link).
Proof.
  unfold candidate_of.
  destruct (current_week_num st); [|done]. destruct (row_badge row); [|done].
  simpl. by intros [= <-].
Qed.

(** The first qualifying row of a type creates its aggregate. *)
Lemma types_after_first types module_type link :
  types !! module_type = None →
  types_after types module_type link !! module_type
  = Some {| count := 1; is_group := has_users_icon link; sample_title := link_text link |}.
Proof.
  intros Hnone. unfold types_after. rewrite Hnone, lookup_alter_eq, lookup_insert_eq. done.
Qed.

(** A later qualifying row of the type only counts. *)
Lemma types_after_later types module_type link info :
  types !! module_type = Some info →
  types_after types module_type link !! module_type = Some (bump info).
Proof.
  intros Hsome. unfold types_after. rewrite Hsome, lookup_alter_eq, Hsome. done.
Qed.

Lemma types_after_other types module_type link other :
  module_type ≠ other →
  types_after types module_type link !! other = types !! other.
Proof.
  intros Hne. unfold types_after. rewrite lookup_alter_ne by done.
  destruct (types !! module_type); [done|]. by rewrite lookup_insert_ne.
Qed.

Lemma of_type_snoc module_type temp a :
  of_type module_type (temp ++ [a])
  = of_type module_type temp ++ (if decide (a_type a = module_type) then [a] else []).
Proof. unfold of_type. rewrite filter_app. f_equal. Qed.

(** One row leaves the group flag and the sample title of an aggregate that
    exists alone, and adds to its count the candidates of its type. *)
Lemma discover_row_keeps st row module_type info :
  module_types st !! module_type = Some info →
  ∃ info',
    module_types (discover_row st row) !! module_type = Some info' ∧
    is_group info' = is_group info ∧ sample_title info' = sample_title info ∧
    (count info' - count info)%Z
    = (Z.of_nat (length (of_type module_type (temp_assessments (discover_row st row))))
       - Z.of_nat (length (of_type module_type (temp_assessments st))))%Z ∧
    (count info' = count info ∨ count info' = count info + 1)%Z.
Proof.
  intros Hinfo.
  destruct (qualifies st row) as [[T link]|] eqn:Hq.
  - destruct (discover_row_qualifies st row T link Hq) as (a & Ha & ->).
    apply candidate_of_fields in Ha as (HaT & _). cbn [module_types temp_assessments].
    rewrite of_type_snoc, length_app, HaT.
    destruct (decide (T = module_type)) as [->|Hne].
    + exists (bump info). rewrite (types_after_later _ _ _ _ Hinfo).
      split; [done|]. split; [done|]. split; [done|]. cbn. split; [lia | by right].
    + exists info. rewrite types_after_other by done.
      split; [done|]. split; [done|]. split; [done|]. cbn. split; [lia | by left].
  - destruct (discover_row_not_qualifies st row Hq) as [-> ->].
    exists info. split; [done|]. split; [done|]. split; [done|]. split; [lia | by left].
Qed.

Lemma discover_from_keeps rows : ∀ st module_type info,
  module_types st !! module_type = Some info →
  ∃ info',
    module_types (discover_from st rows) !! module_type = Some info' ∧
    is_group info' = is_group info ∧ sample_title info' = sample_title info ∧
    (count info' - count info)%Z
    = (Z.of_nat (length (of_type module_type (temp_assessments (discover_from st rows))))
       - Z.of_nat (length (of_type module_type (temp_assessments st))))%Z.
Proof.
  induction rows as [|row rows IH]; intros st module_type info Hinfo.
  - exists info. split; [done|]. split; [done|]. split; [done|]. simpl. lia.
  - destruct (discover_row_keeps st row module_type info Hinfo)
      as (info1 & H1 & Hg1 & Ht1 & Hc1 & _).
    destruct (IH _ _ _ H1) as (info2 & H2 & Hg2 & Ht2 & Hc2).
    exists info2. rewrite discover_from_cons.
    split; [done|]. split; [congruence|]. split; [congruence|]. lia.
Qed.

(** A type without an aggregate has no candidate. *)
Lemma no_aggregate_no_candidate rows module_type :
  module_types (discover rows) !! module_type = None →
  of_type module_type (temp_assessments (discover rows)) = [].
Proof.
  unfold discover.
  assert (H : ∀ rs st,
    (∀ T, module_types st !! T = None → of_type T (temp_assessments st) = []) →
    ∀ T, module_types (discover_from st rs) !! T = None →
         of_type T (temp_assessments (discover_from st rs)) = []).
  { induction rs as [|row rs IH]; intros st Hst T; [apply Hst|].
    rewrite discover_from_cons. apply IH. clear T. intros T.
    destruct (qualifies st row) as [[T' link]|] eqn:Hq.
    - destruct (discover_row_qualifies st row T' link Hq) as (a & Ha & ->).
      apply candidate_of_fields in Ha as (HaT & _). cbn [module_types temp_assessments].
      destruct (decide (T' = T)) as [->|Hne].
      + destruct (module_types st !! T) as [info|] eqn:Hinfo.
        * by rewrite (types_after_later _ _ _ _ Hinfo).
        * by rewrite (types_after_first _ _ _ Hinfo).
      + rewrite types_after_other by done. intros Hnone.
        rewrite of_type_snoc, (Hst _ Hnone). by rewrite decide_False by congruence.
    - destruct (discover_row_not_qualifies st row Hq) as [-> ->]. apply Hst. }
  apply H. intros T _. done.
Qed.

(** C10: in a listing, the aggregate of a module type records the group
    flag and the title of the first qualifying row of the type; the rows
    after it leave both alone and each adds 0 or 1 to the count, which ends
    as the number of candidates of the type. *)
Theorem first_row_fixes_aggregate (pre : list Row) (row : Row) (post : list Row)
    (module_type : string) (link : Link) :
  qualifies (discover pre) row = Some (module_type, link) →
  module_types (discover pre) !! module_type = None →
  (∃ info,
     module_types (discover (pre ++ row :: post)) !! module_type = Some info ∧
     is_group info = has_users_icon link ∧
     sample_title info = link_text link ∧
     count info
     = Z.of_nat (length (of_type module_type (temp_assessments (discover (pre ++ row :: post)))))) ∧
  (∀ st later info,
     module_types st !! module_type = Some info →
     ∃ info',
       module_types (discover_row st later) !! module_type = Some info' ∧
       is_group info' = is_group info ∧ sample_title info' = sample_title info ∧
       (count info' = count info ∨ count info' = count info + 1)%Z).
Proof.
  intros Hq Hnone. split.
  - unfold discover at 1 2. rewrite !discover_from_app, !discover_from_cons.
    fold (discover pre).
    destruct (discover_row_qualifies _ row module_type link Hq) as (a & Ha & Hrow).
    apply candidate_of_fields in Ha as (HaT & _).
    pose proof (no_aggregate_no_candidate pre module_type Hnone) as Hnocand.
    assert (H1 : module_types (discover_row (discover pre) row) !! module_type
                 = Some {| count := 1; is_group := has_users_icon link;
                           sample_title := link_text link |}).
    { rewrite Hrow. cbn [module_types]. by apply types_after_first. }
    destruct (discover_from_keeps post _ _ _ H1) as (info & Hinfo & Hg & Ht & Hc).
    exists info. split; [done|]. split; [done|]. split; [done|].
    rewrite Hrow in Hc at 2. cbn [temp_assessments count] in Hc.
    rewrite of_type_snoc, Hnocand, HaT, decide_True in Hc by done. simpl in Hc. lia.
  - intros st later info Hinfo.
    destruct (discover_row_keeps st later module_type info Hinfo)
      as (info' & ? & ? & ? & _ & ?).
    by exists info'.
Qed.

Lemma first_row_fixes_aggregate_witness :
  ∃ info, module_types (discover mixed_listing) !! "HW" = Some info ∧
          is_group info = true ∧ sample_title info = "Team homework" ∧ count info = 2%Z.
Proof.
  destruct (proj1 (first_row_fixes_aggregate
              [header_row "Week 2"]
              (item_row "HW1" "/pl/course_instance/1/assessment/10" "Team homework" true)
              [item_row "HW2" "/pl/course_instance/1/assessment/11" "Solo homework" false]
              "HW"
              {| href := "/pl/course_instance/1/assessment/10"; link_text := "Team homework";
                 has_users_icon := true |}
              eq_refl eq_refl))
    as (info & Hinfo & Hg & Ht & Hc).
  exists info. split; [exact Hinfo|]. split; [exact Hg|]. split; [exact Ht|].
  rewrite Hc. vm_compute. reflexivity.
Defined.


(** *** Group rows *)

(** The candidates only grow. *)
Lemma discover_row_grows st row :
  temp_assessments st `prefix_of` temp_assessments (discover_row st row).
Proof.
  destruct (qualifies st row) as [[T link]|] eqn:Hq.
  - destruct (discover_row_qualifies st row T link Hq) as (a & _ & ->).
    by apply prefix_app_r.
  - by destruct (discover_row_not_qualifies st row Hq) as [_ ->].
Qed.

Lemma discover_from_grows rows : ∀ st,
  temp_assessments st `prefix_of` temp_assessments (discover_from st rows).
Proof.
  induction rows as [|row rows IH]; intros st; [done|].
  rewrite discover_from_cons. etrans; [apply discover_row_grows | apply IH].
Qed.

Lemma sorted_keys_elem (d : gmap string ModuleType) k :
  k ∈ sorted_keys d ↔ is_Some (d !! k).
Proof.
  unfold sorted_keys. rewrite merge_sort_Permutation, elem_of_elements. apply elem_of_dom.
Qed.

Lemma available_types_lookup types k info :
  available_types types !! k = Some info ↔ types !! k = Some info ∧ is_group info = false.
Proof. unfold available_types. by rewrite map_lookup_filter_Some. Qed.

(** C6: a qualifying row whose link holds the users icon adds a candidate
    with the group flag set, whatever its module type; no candidate with the
    group flag set is among the assessments to process; and no module type
    whose aggregate has the group flag set is among the available types or in
    the list shown to the operator. *)
Theorem group_rows_excluded :
  (∀ pre row post module_type link,
     qualifies (discover pre) row = Some (module_type, link) →
     has_users_icon link = true →
     ∃ a, temp_assessments (discover (pre ++ [row])) = temp_assessments (discover pre) ++ [a] ∧
          a ∈ temp_assessments (discover (pre ++ row :: post)) ∧
          a_type a = module_type ∧ a_title a = link_text link ∧ a_is_group a = true) ∧
  (∀ selected_types temp a,
     a ∈ assessments_to_process selected_types temp → a_is_group a = false) ∧
  (∀ types module_type info,
     types !! module_type = Some info → is_group info = true →
     available_types types !! module_type = None ∧
     module_type ∉ sorted_keys (available_types types)).
Proof.
  split; [|split].
  - intros pre row post T link Hq Hicon.
    destruct (discover_row_qualifies _ row T link Hq) as (a & Ha & Hrow).
    apply candidate_of_fields in Ha as (HaT & Hag & Hat & _).
    exists a. unfold discover at 1 3. rewrite !discover_from_app, !discover_from_cons.
    fold (discover pre). split; [by rewrite Hrow|].
    split; [|by rewrite Hag].
    eapply elem_of_prefix; [|apply discover_from_grows].
    rewrite Hrow. cbn. apply elem_of_app. right. by left.
  - intros selected temp a Ha. unfold assessments_to_process in Ha.
    by apply list_elem_of_filter in Ha as [[_ ?] _].
  - intros types T info Hinfo Hgroup.
    assert (Hnone : available_types types !! T = None).
    { destruct (available_types types !! T) as [info'|] eqn:Hl; [|done].
      apply available_types_lookup in Hl as [Hl Hf]. congruence. }
    split; [done|]. rewrite sorted_keys_elem, Hnone. by intros [? ?].
Qed.

Lemma group_rows_excluded_witness :
  ∃ a, a ∈ temp_assessments (discover mixed_listing) ∧ a_type a = "HW" ∧ a_is_group a = true.
Proof.
  destruct (proj1 group_rows_excluded
              [header_row "Week 2"]
              (item_row "HW1" "/pl/course_instance/1/assessment/10" "Team homework" true)
              [item_row "HW2" "/pl/course_instance/1/assessment/11" "Solo homework" false]
              "HW"
              {| href := "/pl/course_instance/1/assessment/10"; link_text := "Team homework";
                 has_users_icon := true |}
              eq_refl eq_refl)
    as (a & _ & Hin & HT & _ & Hg).
  exists a. split; [exact Hin|]. split; [exact HT | exact Hg].
Defined.


(** *** Selection *)

Lemma select_types_selected type_list raw_input s :
  select_types type_list raw_input = Selected s →
  s ≠ ∅ ∧ ∀ T, T ∈ s → T ∈ type_list.
Proof.
  unfold select_types.
  set (parsed := if bool_decide (py_lower (py_strip raw_input) = "all") then _ else _).
  assert (Hparsed : ∀ s', parsed = Some s' → ∀ T, T ∈ s' → T ∈ type_list).
  { subst parsed. intros s'. case_bool_decide.
    - intros [= <-] T. by rewrite elem_of_list_to_set.
    - destruct (mapM _ (py_split_comma _)) as [indices|]; [|done]. simpl.
      destruct (mapM _ (filter _ indices)) as [picked|] eqn:Hpick; [|done]. simpl.
      intros [= <-] T. rewrite elem_of_list_to_set. intros HT.
      apply mapM_Some in Hpick.
      revert HT. induction Hpick as [|i T' idx picked Hi _ IH]; [by intros ?%elem_of_nil|].
      intros [->|HT]%elem_of_cons; [|by apply IH].
      by apply list_elem_of_lookup_2 in Hi. }
  destruct parsed as [s'|]; [|done].
  case_bool_decide as Hempty; [done|]. intros [= <-]. split; [done|]. by apply Hparsed.
Qed.

Lemma select_types_unparsable type_list raw_input tok :
  py_lower (py_strip raw_input) ≠ "all" →
  tok ∈ tokens raw_input → token_value tok = None →
  select_types type_list raw_input
  = Rejected "Invalid selection! Please enter valid numbers or 'all'".
Proof.
  intros Hall Htok Hval. unfold select_types.
  rewrite bool_decide_eq_false_2 by done.
  assert (Hnone : mapM (λ x, py_int (py_strip x)) (py_split_comma (py_lower (py_strip raw_input)))
                  = None).
  { apply mapM_None, Exists_exists. by exists tok. }
  by rewrite Hnone.
Qed.

Lemma filter_in_range_nil type_list (toks : list string) (indices : list Z) :
  Forall2 (λ tok i, token_value tok = Some i) toks indices →
  (∀ tok i, tok ∈ toks → token_value tok = Some i → ¬ in_range type_list i) →
  filter (λ i : Z, (1 ≤ i ≤ Z.of_nat (length type_list))%Z) indices = [].
Proof.
  induction 1 as [|tok i toks indices Hti _ IH]; intros Hout; [done|].
  rewrite filter_cons. rewrite decide_False.
  - apply IH. intros tok' i' Hin. apply Hout. by right.
  - apply (Hout tok i); [by left | done].
Qed.

Lemma select_types_out_of_range type_list raw_input :
  py_lower (py_strip raw_input) ≠ "all" →
  (∀ tok i, tok ∈ tokens raw_input → token_value tok = Some i → ¬ in_range type_list i) →
  ∃ msg, select_types type_list raw_input = Rejected msg.
Proof.
  intros Hall Hout. unfold select_types.
  rewrite bool_decide_eq_false_2 by done.
  destruct (mapM (λ x, py_int (py_strip x)) (py_split_comma (py_lower (py_strip raw_input))))
    as [indices|] eqn:Hidx; [|by eexists].
  apply mapM_Some in Hidx. simpl.
  rewrite (filter_in_range_nil type_list _ _ Hidx Hout). simpl.
  rewrite bool_decide_eq_true_2 by done. by eexists.
Qed.

Lemma pick_in_range type_list indices :
  mapM (λ i : Z, type_list !! Z.to_nat (i - 1))
    (filter (λ i : Z, (1 ≤ i ≤ Z.of_nat (length type_list))%Z) indices)
  = Some (omap (λ i : Z, if decide (in_range type_list i)
                         then type_list !! Z.to_nat (i - 1) else None) indices).
Proof.
  induction indices as [|i indices IH]; [done|].
  rewrite filter_cons. cbn [omap list_omap]. unfold in_range at 1.
  destruct (decide (1 ≤ i ≤ Z.of_nat (length type_list))%Z) as [Hin|Hout].
  - destruct (lookup_lt_is_Some_2 type_list (Z.to_nat (i - 1))) as [T HT]; [lia|].
    cbn. rewrite HT. cbn. by rewrite IH.
  - exact IH.
Qed.

(** When [int] reads every token, the selection is the set of the entries
    at the indices in range, or the error of an empty selection. *)
Lemma select_types_indices type_list raw_input indices :
  py_lower (py_strip raw_input) ≠ "all" →
  mapM token_value (tokens raw_input) = Some indices →
  select_types type_list raw_input
  = if bool_decide (entries_at type_list indices = ∅) then Rejected "No types selected!"
    else Selected (entries_at type_list indices).
Proof.
  intros Hall Hidx. unfold select_types.
  rewrite bool_decide_eq_false_2 by done.
  unfold tokens, token_value in Hidx. rewrite Hidx. cbn.
  rewrite pick_in_range. done.
Qed.

Lemma elem_of_entries_at type_list indices T :
  T ∈ entries_at type_list indices ↔
  ∃ i, i ∈ indices ∧ in_range type_list i ∧ type_list !! Z.to_nat (i - 1) = Some T.
Proof.
  unfold entries_at. rewrite elem_of_list_to_set, list_elem_of_omap. split.
  - intros (i & Hi & HT). exists i. by destruct (decide (in_range type_list i)).
  - intros (i & Hi & Hin & HT). exists i. by rewrite decide_True.
Qed.

Lemma sorted_keys_empty : sorted_keys ∅ = [].
Proof. reflexivity. Qed.

Lemma selection_phase_cases types raw_input :
  selection_phase types raw_input = Rejected "No downloadable module types found!" ∨
  selection_phase types raw_input
  = select_types (sorted_keys (available_types types)) raw_input.
Proof. unfold selection_phase. case_bool_decide; [by left | by right]. Qed.

Section Abort.
Context {B : Type} (E : Env B).

(** A rejected selection ends the run with one error in the log: nothing is
    fetched or written. *)
Lemma crawl_rejected output_dir all_rows raw_input msg (w : World B) :
  selection_phase (module_types (discover all_rows)) raw_input = Rejected msg →
  crawl E output_dir all_rows raw_input w = log ERROR msg w.
Proof. intros H. unfold crawl. by rewrite H. Qed.

End Abort.

(** C1 (as amended): the selection step gives a non-empty set of available
    (non-group) type keys or an error; an expression with a token that [int]
    does not read is an error; an expression none of whose indices is in
    range is an error, so is the expression 99 with fewer than 99 types;
    after an error the run ends without navigating or writing.  When [int]
    reads every token and some index is in range, the indices out of range
    are dropped by the range guard and the selection is the set of the
    entries at the indices in range. *)
Theorem selection_contract (types : gmap string ModuleType) (raw_input : string) :
  (∀ s, selection_phase types raw_input = Selected s →
        s ≠ ∅ ∧ ∀ T, T ∈ s → ∃ info, types !! T = Some info ∧ is_group info = false) ∧
  (py_lower (py_strip raw_input) ≠ "all" →
   (∃ tok, tok ∈ tokens raw_input ∧ token_value tok = None) →
   ∃ msg, selection_phase types raw_input = Rejected msg) ∧
  (py_lower (py_strip raw_input) ≠ "all" →
   (∀ tok i, tok ∈ tokens raw_input → token_value tok = Some i →
             ¬ in_range (sorted_keys (available_types types)) i) →
   ∃ msg, selection_phase types raw_input = Rejected msg) ∧
  (length (sorted_keys (available_types types)) < 99 →
   ∃ msg, selection_phase types "99" = Rejected msg) ∧
  (∀ B (E : Env B) output_dir all_rows msg (w : World B),
     types = module_types (discover all_rows) →
     selection_phase types raw_input = Rejected msg →
     ∃ w', crawl E output_dir all_rows raw_input w = (Ok tt, w') ∧
           w_navigations w' = w_navigations w ∧ w_fs w' = w_fs w ∧
           w_completed w' = w_completed w ∧ w_log w' = w_log w ++ [(ERROR, msg)]) ∧
  (py_lower (py_strip raw_input) ≠ "all" →
   ∀ indices, mapM token_value (tokens raw_input) = Some indices →
     (∃ i, i ∈ indices ∧ in_range (sorted_keys (available_types types)) i) →
     ∃ s, selection_phase types raw_input = Selected s ∧
          ∀ T, T ∈ s ↔
               ∃ i, i ∈ indices ∧ in_range (sorted_keys (available_types types)) i ∧
                    sorted_keys (available_types types) !! Z.to_nat (i - 1) = Some T).
Proof.
  split; [|split; [|split; [|split; [|split]]]].
  - intros s Hsel.
    destruct (selection_phase_cases types raw_input) as [Hrej|Heq]; [congruence|].
    rewrite Heq in Hsel. apply select_types_selected in Hsel as [Hne Hsub].
    split; [done|]. intros T HT. apply Hsub, sorted_keys_elem in HT as [info Hinfo].
    apply available_types_lookup in Hinfo. by exists info.
  - intros Hall (tok & Htok & Hval).
    destruct (selection_phase_cases types raw_input) as [Hrej|Heq]; [by eexists|].
    rewrite Heq, (select_types_unparsable _ _ tok) by done. by eexists.
  - intros Hall Hout.
    destruct (selection_phase_cases types raw_input) as [Hrej|Heq]; [by eexists|].
    rewrite Heq. by apply select_types_out_of_range.
  - intros Hlen.
    destruct (selection_phase_cases types "99") as [Hrej|Heq]; [by eexists|].
    rewrite Heq. apply select_types_out_of_range; [done|].
    intros tok i Htok Hval. assert (tok = "99") as ->.
    { apply list_elem_of_In in Htok. vm_compute in Htok. by destruct Htok. }
    vm_compute in Hval. injection Hval as <-. unfold in_range. lia.
  - intros B E output_dir all_rows msg w -> Hrej.
    rewrite (crawl_rejected E _ _ _ _ _ Hrej). by eexists.
  - intros Hall indices Hidx (i & Hi & Hin).
    set (type_list := sorted_keys (available_types types)) in *.
    destruct (lookup_lt_is_Some_2 type_list (Z.to_nat (i - 1))) as [T HT];
      [unfold in_range in Hin; lia|].
    assert (Hmem : T ∈ entries_at type_list indices)
      by (apply elem_of_entries_at; by exists i).
    assert (Hsome : available_types types ≠ ∅).
    { intros Hempty. subst type_list. rewrite Hempty, sorted_keys_empty in HT.
      by rewrite lookup_nil in HT. }
    exists (entries_at type_list indices). split; [|intros T'; apply elem_of_entries_at].
    unfold selection_phase. rewrite (bool_decide_eq_false_2 _ Hsome).
    fold type_list. rewrite (select_types_indices type_list raw_input indices Hall Hidx).
    rewrite bool_decide_eq_false_2; [done|].
    intros Hempty. rewrite Hempty in Hmem. by apply not_elem_of_empty in Hmem.
Qed.

Lemma selection_contract_witness :
  (∃ tok, tok ∈ tokens "1,abc" ∧ token_value tok = None) ∧
  (∃ msg, selection_phase two_types "1,abc" = Rejected msg) ∧
  (∃ msg, selection_phase two_types "99" = Rejected msg) ∧
  mapM token_value (tokens "2, 7,2") = Some [2; 7; 2]%Z ∧
  (∃ s, selection_phase two_types "2, 7,2" = Selected s ∧ "LAB" ∈ s ∧ "HW" ∉ s).
Proof.
  assert (Htok : ∃ tok, tok ∈ tokens "1,abc" ∧ token_value tok = None).
  { exists "abc". split; [|reflexivity].
    apply list_elem_of_In. vm_compute. right. left. reflexivity. }
  assert (Hkeys : sorted_keys (available_types two_types) = ["HW"; "LAB"])
    by (vm_compute; reflexivity).
  split; [exact Htok|]. split; [|split; [|split; [reflexivity|]]].
  - apply (proj1 (proj2 (selection_contract two_types "1,abc"))); [discriminate | exact Htok].
  - apply (proj1 (proj2 (proj2 (proj2 (selection_contract two_types "1,abc"))))).
    vm_compute. lia.
  - destruct (proj2 (proj2 (proj2 (proj2 (proj2 (selection_contract two_types "2, 7,2")))))
                ltac:(discriminate) [2; 7; 2]%Z eq_refl) as (s & Hsel & Hmem).
    { exists 2%Z. split; [by left|]. rewrite Hkeys. unfold in_range. simpl. lia. }
    exists s. split; [exact Hsel|]. split.
    + apply Hmem. exists 2%Z. rewrite Hkeys. split; [by left|].
      split; [unfold in_range; simpl; lia | reflexivity].
    + intros (i & Hi & Hin & HT)%Hmem. rewrite Hkeys in Hin, HT.
      unfold in_range in Hin. simpl in Hin.
      assert (i = 1 ∨ i = 2)%Z as [->| ->] by lia; [|discriminate].
      apply list_elem_of_In in Hi. simpl in Hi. intuition discriminate.
Defined.

(** C1 (as stated) fails on the expression 1,99 with two available types:
    the index 99 is out of range, and the selection of the first type alone
    is applied without an error. *)
Lemma selection_partial_applied :
  sorted_keys (available_types two_types) = ["HW"; "LAB"] ∧
  "99" ∈ tokens "1,99" ∧ token_value "99" = Some 99%Z ∧
  ¬ in_range (sorted_keys (available_types two_types)) 99 ∧
  selection_phase two_types "1,99" = Selected {["HW"]}.
Proof.
  assert (Hkeys : sorted_keys (available_types two_types) = ["HW"; "LAB"])
    by (vm_compute; reflexivity).
  split; [exact Hkeys|].
  split; [apply list_elem_of_In; vm_compute; right; left; reflexivity|].
  split; [reflexivity|].
  split; [rewrite Hkeys; unfold in_range; simpl; lia|].
  vm_compute. reflexivity.
Qed.

(** A token of more digits than [int] reads is an error, also next to an
    index in range. *)
Example selection_long_numeral_rejected :
  selection_phase two_types long_numeral
  = Rejected "Invalid selection! Please enter valid numbers or 'all'".
Proof. vm_compute. reflexivity. Qed.


(** *** The crawl driver *)

Section DriverFacts.
Context {B : Type} (E : Env B).

Lemma nav_frame_ret {A} (a : A) : nav_frame (ret (B:=B) a).
Proof. done. Qed.

Lemma nav_frame_raise {A} e : nav_frame (raise (B:=B) (A:=A) e).
Proof. done. Qed.

Lemma nav_frame_bind {A C} (m : M B A) (k : A → M B C) :
  nav_frame m → (∀ a, nav_frame (k a)) → nav_frame (bind m k).
Proof.
  intros Hm Hk w. unfold bind. specialize (Hm w).
  destruct (m w) as [[a|e] w1]; simpl in *; [|done].
  by rewrite Hk.
Qed.

Lemma nav_frame_try {A} (m : M B A) (h : string → M B A) :
  nav_frame m → (∀ e, nav_frame (h e)) → nav_frame (try_except m h).
Proof.
  intros Hm Hh w. unfold try_except. specialize (Hm w).
  destruct (m w) as [[a|e] w1]; simpl in *; [done|].
  by rewrite Hh.
Qed.

Lemma nav_frame_for_each {A} (l : list A) (body : A → M B unit) :
  (∀ x, nav_frame (body x)) → nav_frame (for_each l body).
Proof.
  intros Hbody. induction l as [|x l IH]; simpl; [apply nav_frame_ret|].
  apply nav_frame_bind; [apply Hbody | by intros _].
Qed.

Lemma nav_frame_log lv msg : nav_frame (log (B:=B) lv msg).
Proof. done. Qed.

Lemma nav_frame_add_completed question_id : nav_frame (add_completed (B:=B) question_id).
Proof. done. Qed.

Lemma nav_frame_click btn : nav_frame (click E btn).
Proof. intros w. unfold click. by destruct (env_click E (w_browser w) btn). Qed.

Lemma nav_frame_expand : nav_frame (expand_answer_panel E).
Proof.
  unfold expand_answer_panel.
  apply nav_frame_try; [|intros; apply nav_frame_ret].
  apply nav_frame_bind; [done|]. intros buttons.
  apply nav_frame_for_each. intros btn.
  apply nav_frame_bind; [done|]. intros text.
  destruct (_ || _); [|apply nav_frame_ret].
  apply nav_frame_try; [apply nav_frame_click | intros; apply nav_frame_ret].
Qed.

Lemma nav_frame_download html_content question_folder :
  nav_frame (download_images E html_content question_folder).
Proof. intros w. unfold download_images. by destruct (env_download_images E _ _ _ _). Qed.

Lemma nav_frame_makedirs path : nav_frame (makedirs E path).
Proof. intros w. unfold makedirs. by destruct (env_makedirs E _ _). Qed.

Lemma nav_frame_write path content : nav_frame (write_file E path content).
Proof. intros w. unfold write_file. by destruct (env_write E _ _ _). Qed.

Lemma nav_frame_screenshot filepath : nav_frame (take_full_page_screenshot E filepath).
Proof.
  intros w. unfold take_full_page_screenshot. by destruct (env_screenshot E _ _ _) as [[? ?] ?].
Qed.

Lemma nav_frame_after_get question_id question_folder :
  nav_frame (after_get E question_id question_folder).
Proof.
  unfold after_get.
  apply nav_frame_bind; [apply nav_frame_expand | intros _].
  apply nav_frame_bind; [done | intros source].
  apply nav_frame_bind; [apply nav_frame_download | intros html].
  apply nav_frame_bind; [apply nav_frame_makedirs | intros _].
  apply nav_frame_bind; [apply nav_frame_write | intros _].
  apply nav_frame_bind; [apply nav_frame_screenshot | intros _].
  apply nav_frame_add_completed.
Qed.

Lemma driver_get_navigates url (w : World B) :
  w_navigations (driver_get E url w).2 = w_navigations w ++ [url].
Proof. unfold driver_get. by destruct (env_get E (w_browser w) url). Qed.

(** The decision of the resume logic on a complete folder. *)
Lemma folder_complete_true question_folder (w : World B) entries :
  validate_html_file (w_fs w) (path_join question_folder ["index.html"]) = true →
  listdir (w_fs w) (path_join question_folder ["images"]) = Some entries →
  entries ≠ [] →
  path_exists (w_fs w) (path_join question_folder ["render.png"]) = true →
  folder_complete question_folder w = (Ok true, w).
Proof.
  intros Hvalid Hlist Hne Hshot. unfold folder_complete, bind, get_fs.
  rewrite Hvalid.
  assert (Hex : path_exists (w_fs w) (path_join question_folder ["images"]) = true).
  { unfold path_exists. apply bool_decide_eq_true. unfold listdir in Hlist.
    destruct (w_fs w !! path_join question_folder ["images"]); [by eexists | done]. }
  rewrite Hex, Hlist, Hshot. simpl. unfold ret.
  rewrite bool_decide_eq_false_2; [done|]. by destruct entries.
Qed.

(** The decision of the resume logic on a folder whose page is invalid. *)
Lemma folder_complete_invalid question_folder (w : World B) :
  validate_html_file (w_fs w) (path_join question_folder ["index.html"]) = false →
  folder_complete question_folder w = (Ok false, w).
Proof. intros Hinvalid. unfold folder_complete, bind, get_fs. by rewrite Hinvalid. Qed.

Lemma validate_small (fs : FS) filepath size :
  getsize fs filepath = Some size → (size < 1000)%Z → validate_html_file fs filepath = false.
Proof.
  intros Hsize Hsmall. unfold validate_html_file. rewrite Hsize.
  destruct (path_exists fs filepath); simpl; [|done].
  by destruct (Z.ltb_spec size 1000); [|lia].
Qed.

(** A question's turn never lets an exception out. *)
Lemma process_question_ok output_dir assess total iq (w : World B) :
  (process_question E output_dir assess total iq w).1 = Ok tt.
Proof.
  destruct iq as [q_idx q]. unfold process_question, bind, get_completed.
  case_bool_decide; [done|]. unfold try_except.
  destruct (question_body E output_dir assess total q_idx q w) as [[[]|e] w1]; done.
Qed.

Lemma for_each_ok {A} (l : list A) (body : A → M B unit) :
  (∀ x w, (body x w).1 = Ok tt) →
  ∀ w, for_each l body w = (Ok tt, fold_left (λ w x, (body x w).2) l w).
Proof.
  intros Hbody. induction l as [|x l IH]; intros w; [done|].
  simpl. unfold bind. specialize (Hbody x w).
  destruct (body x w) as [[[]|e] w1] eqn:Hx; simpl in *; [|done].
  apply IH.
Qed.

Lemma with_browser_same (w : World B) : with_browser (w_browser w) w = w.
Proof. by destruct w. Qed.

(** A loop whose body changes the browser only changes the browser only. *)
Lemma for_each_browser {A : Type} (body : A → M B unit) (l : list A) :
  (∀ x w, ∃ r b, body x w = (r, with_browser b w)) →
  ∀ w, ∃ r b, for_each l body w = (r, with_browser b w).
Proof.
  intros Hbody. induction l as [|x l IH]; intros w.
  { exists (Ok tt), (w_browser w). cbn. unfold ret. by rewrite with_browser_same. }
  cbn [for_each]. unfold bind.
  destruct (Hbody x w) as (r & b & Hx). rewrite Hx.
  destruct r as [[]|e].
  - destruct (IH (with_browser b w)) as (r' & b' & Hrest). rewrite Hrest.
    by exists r', b'.
  - by exists (Exc e), b.
Qed.

(** The expansion of the answer panels returns, and leaves all but the
    browser as it was. *)
Lemma expand_answer_panel_browser (w : World B) :
  ∃ b, expand_answer_panel E w = (Ok tt, with_browser b w).
Proof.
  unfold expand_answer_panel. unfold try_except at 1. unfold bind at 1.
  destruct (env_buttons E (w_browser w)) as [buttons|e].
  - match goal with |- context [for_each buttons ?body w] =>
      destruct (for_each_browser body buttons) with (w := w) as (r & b & Hloop) end.
    { intros btn w0. unfold bind.
      destruct btn.1 as [text|e]; cbn beta iota.
      2: { exists (Exc e), (w_browser w0). by rewrite with_browser_same. }
      cbv zeta. destruct (_ || _).
      - unfold try_except, click.
        destruct (env_click E (w_browser w0) btn.2) as [[e|] b]; cbn [of_raised].
        + by exists (Ok tt), b.
        + by exists (Ok tt), b.
      - exists (Ok tt), (w_browser w0). unfold ret. by rewrite with_browser_same. }
    rewrite Hloop. exists b. by destruct r as [[]|?].
  - exists (w_browser w). unfold ret. by rewrite with_browser_same.
Qed.

End DriverFacts.

Section Resume.
Context {B : Type} (E : Env B).

Lemma try_except_nav {A} (m : M B A) (h : string → M B A) (w : World B) :
  (∀ e, nav_frame (h e)) →
  w_navigations (try_except m h w).2 = w_navigations (m w).2.
Proof.
  intros Hh. unfold try_except. destruct (m w) as [[a|e] w1]; simpl; [done|]. apply Hh.
Qed.

Lemma question_body_skip output_dir assess total q_idx q (w : World B) :
  folder_complete (question_folder_of output_dir assess q) w = (Ok true, w) →
  question_body E output_dir assess total q_idx q w
  = (log INFO ("  " +:+ progress q_idx total +:+ " SKIP: " +:+ first50 (q_title q)) ;;;
     add_completed (question_id_of assess q)) w.
Proof. intros H. unfold question_body, bind at 1. by rewrite H. Qed.

Lemma question_body_fetch output_dir assess total q_idx q (w : World B) :
  folder_complete (question_folder_of output_dir assess q) w = (Ok false, w) →
  question_body E output_dir assess total q_idx q w
  = (log INFO ("  " +:+ progress q_idx total +:+ " Downloading: " +:+ first50 (q_title q)) ;;;
     driver_get E (q_url q) ;;;
     after_get E (question_id_of assess q) (question_folder_of output_dir assess q)) w.
Proof. intros H. unfold question_body, bind at 1. by rewrite H. Qed.

(** The fetch of a question whose steps all succeed. *)
Lemma fetch_question_succeeds output_dir assess total q_idx q (w : World B)
    source html fs1 fs2 fs3 r b3 fs4 :
  let folder := question_folder_of output_dir assess q in
  let started := "  " +:+ progress q_idx total +:+ " Downloading: " +:+ first50 (q_title q) in
  let loaded := driver_get E (q_url q) (log INFO started w).2 in
  let expanded := (expand_answer_panel E loaded.2).2 in
  loaded.1 = Ok tt →
  env_page_source E (w_browser expanded) = Ok source →
  env_download_images E (w_browser expanded) (w_fs w) source folder = (Ok html, fs1) →
  env_makedirs E fs1 folder = (None, fs2) →
  env_write E fs2 (path_join folder ["index.html"]) html = (None, fs3) →
  env_screenshot E (w_browser expanded) fs3 (path_join folder ["render.png"]) = (r, b3, fs4) →
  fetch_question E output_dir assess total q_idx q w
  = (Ok tt,
     {| w_fs := fs4; w_browser := b3;
        w_navigations := w_navigations w ++ [q_url q];
        w_completed := {[question_id_of assess q]} ∪ w_completed w;
        w_log := w_log w ++ [(INFO, started)] |}).
Proof.
  intros folder started loaded expanded Hload Hsource Hdown Hmk Hwr Hshot.
  assert (Hloaded : ∃ b1, loaded
            = (Ok tt,
               {| w_fs := w_fs w; w_browser := b1;
                  w_navigations := w_navigations w ++ [q_url q];
                  w_completed := w_completed w; w_log := w_log w ++ [(INFO, started)] |})).
  { revert Hload. subst loaded. unfold driver_get.
    cbn [log snd w_browser w_fs w_navigations w_completed w_log].
    destruct (env_get E (w_browser w) (q_url q)) as [r0 b1]. cbn [fst].
    intros ->. by exists b1. }
  destruct Hloaded as [b1 Hw1].
  destruct (expand_answer_panel_browser E loaded.2) as [b2 Hexp].
  assert (Hb2 : w_browser expanded = b2) by (subst expanded; by rewrite Hexp).
  rewrite Hb2 in Hsource, Hdown, Hshot. clear Hb2. clearbody expanded.
  rewrite Hw1 in Hexp. cbn [snd] in Hexp.
  unfold fetch_question. unfold bind at 1. cbn [log]. unfold bind at 1.
  fold started. change (driver_get E (q_url q) _) with loaded. rewrite Hw1.
  unfold after_get. unfold bind at 1. rewrite Hexp.
  unfold with_browser. cbn [w_browser w_fs w_navigations w_completed w_log].
  unfold bind at 1, page_source. cbn [w_browser]. rewrite Hsource.
  unfold bind at 1, download_images. cbn [w_browser w_fs]. fold folder. rewrite Hdown.
  unfold with_fs. cbn [w_browser w_fs w_navigations w_completed w_log].
  unfold bind at 1, makedirs. cbn [w_fs]. rewrite Hmk. cbn [of_raised].
  unfold with_fs. cbn [w_browser w_fs w_navigations w_completed w_log].
  unfold bind at 1, write_file. cbn [w_fs]. rewrite Hwr. cbn [of_raised].
  unfold with_fs. cbn [w_browser w_fs w_navigations w_completed w_log].
  unfold bind at 1, take_full_page_screenshot. cbn [w_fs w_browser]. rewrite Hshot.
  reflexivity.
Qed.

Lemma process_question_unfold output_dir assess total q_idx q (w : World B) :
  process_question E output_dir assess total (q_idx, q) w
  = if bool_decide (question_id_of assess q ∈ w_completed w) then
      log INFO ("  " +:+ progress q_idx total +:+ " SKIP: " +:+ first50 (q_title q)
                +:+ " (completed)") w
    else
      try_except (question_body E output_dir assess total q_idx q)
        (λ e, log ERROR ("  Error processing " +:+ first50 (q_title q) +:+ ": " +:+ e)) w.
Proof. unfold process_question, bind, get_completed. by case_bool_decide. Qed.

(** C2 (as amended): when the folder of a question holds a valid
    [index.html], a non-empty [images] folder and a screenshot, the question's
    turn ends with the question in the completed set, no navigation, and the
    file system and the browser as they were; when the question's key is not
    yet in the completed set and the existing [index.html] is smaller than
    1000 bytes, the page is invalid and the turn fetches the question again:
    it is the fetch (the visit of the URL of the question, once, the
    expansion of the panels, the extraction of the page, the download of the
    images, the writing of the page and the screenshot) under the handler
    that logs a failure; when no step of the fetch fails, the page that the
    image downloader gives is written to [index.html], the screenshot is
    taken and the question is in the completed set. *)
Theorem resume_logic (output_dir : string) (assess : Assessment) (total q_idx : Z)
    (q : Question) (w : World B) :
  let folder := question_folder_of output_dir assess q in
  let turn := process_question E output_dir assess total (q_idx, q) w in
  (validate_html_file (w_fs w) (path_join folder ["index.html"]) = true →
   (∃ entries, listdir (w_fs w) (path_join folder ["images"]) = Some entries ∧ entries ≠ []) →
   path_exists (w_fs w) (path_join folder ["render.png"]) = true →
   turn.1 = Ok tt ∧ question_id_of assess q ∈ w_completed turn.2 ∧
   w_navigations turn.2 = w_navigations w ∧ w_fs turn.2 = w_fs w ∧
   w_browser turn.2 = w_browser w) ∧
  (question_id_of assess q ∉ w_completed w →
   (∃ size, getsize (w_fs w) (path_join folder ["index.html"]) = Some size ∧ (size < 1000)%Z) →
   validate_html_file (w_fs w) (path_join folder ["index.html"]) = false ∧
   turn.1 = Ok tt ∧ w_navigations turn.2 = w_navigations w ++ [q_url q] ∧
   turn = try_except (fetch_question E output_dir assess total q_idx q)
            (λ e, log ERROR ("  Error processing " +:+ first50 (q_title q) +:+ ": " +:+ e)) w ∧
   ∀ source html fs1 fs2 fs3 r b3 fs4,
     let started :=
       "  " +:+ progress q_idx total +:+ " Downloading: " +:+ first50 (q_title q) in
     let loaded := driver_get E (q_url q) (log INFO started w).2 in
     let expanded := (expand_answer_panel E loaded.2).2 in
     loaded.1 = Ok tt →
     env_page_source E (w_browser expanded) = Ok source →
     env_download_images E (w_browser expanded) (w_fs w) source folder = (Ok html, fs1) →
     env_makedirs E fs1 folder = (None, fs2) →
     env_write E fs2 (path_join folder ["index.html"]) html = (None, fs3) →
     env_screenshot E (w_browser expanded) fs3 (path_join folder ["render.png"])
     = (r, b3, fs4) →
     turn
     = (Ok tt,
        {| w_fs := fs4; w_browser := b3;
           w_navigations := w_navigations w ++ [q_url q];
           w_completed := {[question_id_of assess q]} ∪ w_completed w;
           w_log := w_log w ++ [(INFO, started)] |})).
Proof.
  intros folder turn. split.
  - intros Hvalid (entries & Hlist & Hne) Hshot. subst turn.
    rewrite process_question_unfold.
    destruct (decide (question_id_of assess q ∈ w_completed w)) as [Hdone|Hnew].
    { rewrite bool_decide_eq_true_2 by done. cbn. split; [done|]. split; [done|]. split; [done|]. split; done. }
    rewrite bool_decide_eq_false_2 by done.
    pose proof (folder_complete_true folder w entries Hvalid Hlist Hne Hshot) as Hc.
    unfold try_except. rewrite (question_body_skip _ _ _ _ _ _ Hc).
    cbn. split; [done|]. split; [|done]. set_solver.
  - intros Hnew (size & Hsize & Hsmall).
    pose proof (validate_small _ _ _ Hsize Hsmall) as Hinvalid.
    assert (Hturn : turn
              = try_except (fetch_question E output_dir assess total q_idx q)
                  (λ e, log ERROR ("  Error processing " +:+ first50 (q_title q)
                                   +:+ ": " +:+ e)) w).
    { subst turn. rewrite process_question_unfold, bool_decide_eq_false_2 by done.
      unfold try_except.
      by rewrite (question_body_fetch _ _ _ _ _ _ (folder_complete_invalid folder w Hinvalid)). }
    split; [done|]. split; [apply process_question_ok|]. split; [|split; [exact Hturn|]].
    + rewrite Hturn.
      rewrite try_except_nav by (intros e; apply nav_frame_log).
      unfold fetch_question.
      unfold bind at 1. cbn [log]. unfold bind at 1.
      match goal with |- context [driver_get E ?u ?w0] =>
        pose proof (driver_get_navigates E u w0) as Hnav;
        destruct (driver_get E u w0) as [[[]|e] w2] end; cbn [snd] in *; [|done].
      by rewrite nav_frame_after_get.
    + intros source html fs1 fs2 fs3 r b3 fs4 started loaded expanded
        Hload Hsource Hdown Hmk Hwr Hshot.
      rewrite Hturn. unfold try_except.
      by rewrite (fetch_question_succeeds output_dir assess total q_idx q w
                    source html fs1 fs2 fs3 r b3 fs4 Hload Hsource Hdown Hmk Hwr Hshot).
Qed.

End Resume.

Lemma resume_logic_witness :
  let kept := process_question plain_env "out" hw1 2 (1%Z, q_general) complete_world in
  let turn := process_question plain_env "out" hw1 2 (2%Z, q_part_b) truncated_world in
  validate_html_file (w_fs complete_world) "out/Week_1/HW1/General/Q1/index.html" = true ∧
  (question_id_of hw1 q_general ∈ w_completed kept.2 ∧
   w_navigations kept.2 = [] ∧ w_fs kept.2 = w_fs complete_world) ∧
  (question_id_of hw1 q_part_b ∉ w_completed truncated_world) ∧
  getsize (w_fs truncated_world) "out/Week_1/HW1/Part_B/Q1/index.html" = Some 9%Z ∧
  w_navigations turn.2 = [q_url q_part_b] ∧
  w_fs turn.2 !! "out/Week_1/HW1/Part_B/Q1/index.html"
  = Some (File "<!DOCTYPE html><html><body>question</body></html>") ∧
  w_fs turn.2 !! "out/Week_1/HW1/Part_B/Q1/render.png" = Some (Blob 2048) ∧
  question_id_of hw1 q_part_b ∈ w_completed turn.2.
Proof.
  assert (Hvalid : validate_html_file (w_fs complete_world)
                     "out/Week_1/HW1/General/Q1/index.html" = true)
    by (vm_compute; reflexivity).
  assert (Hnew : question_id_of hw1 q_part_b ∉ w_completed truncated_world)
    by apply not_elem_of_empty.
  destruct (proj1 (resume_logic plain_env "out" hw1 2 1 q_general complete_world))
    as (_ & Hkept & Hnav0 & Hfs0 & _).
  { exact Hvalid. }
  { exists ["fig.png"]. split; [reflexivity | discriminate]. }
  { reflexivity. }
  destruct (proj2 (resume_logic plain_env "out" hw1 2 2 q_part_b truncated_world))
    as (_ & _ & Hnav & _ & Hfetch).
  { exact Hnew. }
  { exists 9%Z. split; [reflexivity | lia]. }
  specialize (Hfetch "<!DOCTYPE html><html><body>question</body></html>"
                "<!DOCTYPE html><html><body>question</body></html>"
                _ _ _ true tt _ eq_refl eq_refl eq_refl eq_refl eq_refl eq_refl).
  cbv zeta. split; [exact Hvalid|]. split; [by split; [exact Hkept | split; [exact Hnav0 | exact Hfs0]]|].
  split; [exact Hnew|]. split; [reflexivity|]. split; [exact Hnav|].
  rewrite Hfetch. cbn [snd w_fs w_completed].
  split; [reflexivity|]. split; [reflexivity|].
  apply elem_of_union_l, elem_of_singleton. reflexivity.
Defined.

(** C2 (as stated) fails for a question whose key is already in the
    completed set: in a run that starts with an empty set, the second of two
    questions with the same title finds an [index.html] of 9 bytes in its
    folder and is skipped, its URL never visited. *)
Lemma resume_skips_repeated_key :
  let final := (question_loop plain_env "out" hw1 [q_general; q_part_b] truncated_world).2 in
  w_completed truncated_world = ∅ ∧
  question_folder_of "out" hw1 q_part_b = "out/Week_1/HW1/Part_B/Q1" ∧
  getsize (w_fs truncated_world) "out/Week_1/HW1/Part_B/Q1/index.html" = Some 9%Z ∧
  w_navigations final = [q_url q_general] ∧
  q_url q_part_b ∉ w_navigations final.
Proof.
  assert (Hnav : w_navigations
            (question_loop plain_env "out" hw1 [q_general; q_part_b] truncated_world).2
          = [q_url q_general]) by (vm_compute; reflexivity).
  split; [reflexivity|]. split; [vm_compute; reflexivity|]. split; [reflexivity|].
  split; [exact Hnav|]. cbv zeta. rewrite Hnav.
  intros Hin. apply list_elem_of_singleton in Hin. discriminate.
Qed.

(** *** Failures of one question *)

Section Contained.
Context {B : Type} (E : Env B).

Lemma never_raises_ret {A} (a : A) : never_raises (ret (B:=B) a).
Proof. intros w. by exists a. Qed.

Lemma never_raises_log lv msg : never_raises (log (B:=B) lv msg).
Proof. intros w. by exists tt. Qed.

Lemma never_raises_bind {A C} (m : M B A) (k : A → M B C) :
  never_raises m → (∀ a, never_raises (k a)) → never_raises (bind m k).
Proof.
  intros Hm Hk w. unfold bind. destruct (Hm w) as [a Ha].
  destruct (m w) as [[a'|e] w1]; simpl in *; [|done]. apply Hk.
Qed.

Lemma never_raises_try {A} (m : M B A) (h : string → M B A) :
  (∀ e, never_raises (h e)) → never_raises (try_except m h).
Proof.
  intros Hh w. unfold try_except.
  destruct (m w) as [[a|e] w1]; simpl; [by exists a | apply Hh].
Qed.

Lemma never_raises_question_loop output_dir assess questions_to_scrape :
  never_raises (question_loop E output_dir assess questions_to_scrape).
Proof.
  intros w. exists tt. unfold question_loop.
  rewrite for_each_ok; [done|]. intros iq w'. apply process_question_ok.
Qed.

Lemma never_raises_check_session : never_raises (check_session_valid E).
Proof. apply never_raises_try. intros _. apply never_raises_ret. Qed.

(** When the pages of the assessments can be read, no exception escapes the
    loop over the assessments. *)
Lemma never_raises_assessment_loop output_dir total todo :
  (∀ b, ∃ rows, env_page_rows E b = Ok rows) →
  never_raises (assessment_loop E output_dir total todo).
Proof.
  intros Hrows. induction todo as [|[assess_idx assess] rest IH]; simpl.
  { apply never_raises_ret. }
  apply never_raises_bind; [apply never_raises_log | intros _].
  apply never_raises_bind; [apply never_raises_check_session | intros valid].
  destruct valid; simpl; [|apply never_raises_log].
  apply never_raises_bind.
  { apply never_raises_try. intros e.
    apply never_raises_bind; [apply never_raises_log | intros _; apply never_raises_ret]. }
  intros loaded. destruct loaded; simpl; [|apply IH].
  apply never_raises_bind.
  { intros w. unfold page_rows. destruct (Hrows (w_browser w)) as [rows ->]. by exists rows. }
  intros rows.
  apply never_raises_bind; [apply never_raises_log | intros _].
  apply never_raises_bind; [apply never_raises_question_loop | intros _]. apply IH.
Qed.

(** C8: an exception raised in the body of a question's turn is caught and
    logged, the turn returns normally, and the loop over the questions runs
    the turn of every question, each from the state the one before left; so
    no exception of a question escapes the loop over the assessments. *)
Theorem question_failures_contained (output_dir : string) (assess : Assessment) :
  (∀ total q_idx q (w w1 : World B) e,
     question_id_of assess q ∉ w_completed w →
     question_body E output_dir assess total q_idx q w = (Exc e, w1) →
     process_question E output_dir assess total (q_idx, q) w
     = log ERROR ("  Error processing " +:+ first50 (q_title q) +:+ ": " +:+ e) w1) ∧
  (∀ total iq (w : World B), (process_question E output_dir assess total iq w).1 = Ok tt) ∧
  (∀ questions_to_scrape (w : World B),
     question_loop E output_dir assess questions_to_scrape w
     = (Ok tt,
        fold_left
          (λ w iq, (process_question E output_dir assess
                      (Z.of_nat (length questions_to_scrape)) iq w).2)
          (enumerate1 questions_to_scrape) w)) ∧
  ((∀ b, ∃ rows, env_page_rows E b = Ok rows) →
   ∀ total todo (w : World B), (assessment_loop E output_dir total todo w).1 = Ok tt).
Proof.
  split; [|split; [|split]].
  - intros total q_idx q w w1 e Hnew Hbody.
    rewrite process_question_unfold, bool_decide_eq_false_2 by done.
    unfold try_except. by rewrite Hbody.
  - intros. apply process_question_ok.
  - intros qs w. unfold question_loop. apply for_each_ok.
    intros iq w'. apply process_question_ok.
  - intros Hrows total todo w.
    destruct (never_raises_assessment_loop output_dir total todo Hrows w) as [[] H]. exact H.
Qed.

End Contained.

Lemma question_failures_contained_witness :
  let failed := question_body failing_env "out" hw1 2 1 q_general empty_world in
  let final := (question_loop failing_env "out" hw1 [q_general; q_second] empty_world).2 in
  failed.1 = Exc "net::ERR_CONNECTION_RESET" ∧
  process_question failing_env "out" hw1 2 (1%Z, q_general) empty_world
  = log ERROR "  Error processing Q1: net::ERR_CONNECTION_RESET" failed.2 ∧
  w_navigations final = [q_url q_general; q_url q_second] ∧
  w_log final
  = [(INFO, "  [1/2] Downloading: Q1");
     (ERROR, "  Error processing Q1: net::ERR_CONNECTION_RESET");
     (INFO, "  [2/2] Downloading: Q2")] ∧
  (assessment_loop failing_env "out" 1 [(1%Z, hw1)] empty_world).1 = Ok tt.
Proof.
  split; [vm_compute; reflexivity|]. split; [|split; [|split]].
  - apply (proj1 (question_failures_contained failing_env "out" hw1)
             2%Z 1%Z q_general empty_world _ "net::ERR_CONNECTION_RESET").
    + apply not_elem_of_empty.
    + vm_compute. reflexivity.
  - rewrite (proj1 (proj2 (proj2 (question_failures_contained failing_env "out" hw1)))).
    vm_compute. reflexivity.
  - rewrite (proj1 (proj2 (proj2 (question_failures_contained failing_env "out" hw1)))).
    vm_compute. reflexivity.
  - apply (proj2 (proj2 (proj2 (question_failures_contained failing_env "out" hw1)))).
    intros b. by exists [].
Defined.


(** *** The path rewriter *)

(** **** Prefixes and runs *)

Lemma strip_prefix_Some p : ∀ l r, strip_prefix p l = Some r ↔ l = p ++ r.
Proof.
  induction p as [|a p IH]; intros l r; simpl.
  - split; [by intros [= ->] | by intros ->].
  - destruct l as [|b l]; [done|].
    destruct (decide (a = b)) as [->|Hne].
    + rewrite IH. split; [by intros -> | by intros [= ->]].
    + split; [done | intros [= ? _]; congruence].
Qed.

Lemma strip_prefix_app_l k m : ∀ l,
  strip_prefix (k ++ m) l
  = match strip_prefix k l with Some r => strip_prefix m r | None => None end.
Proof.
  induction k as [|a k IH]; intros l; simpl; [done|].
  destruct l as [|b l]; [done|]. destruct (decide (a = b)); [apply IH | done].
Qed.

Lemma mismatch_strip p : ∀ z y, mismatch p z = true → strip_prefix p (z ++ y) = None.
Proof.
  induction p as [|a p IH]; intros z y; simpl; [done|].
  destruct z as [|b z]; [done|]. simpl.
  destruct (decide (a = b)); [apply IH | done].
Qed.

(** The prefix falls inside the head of the text, or the head inside the
    prefix, or they differ. *)
Lemma strip_prefix_app_inside p : ∀ a a_rest z,
  strip_prefix p a = Some a_rest → strip_prefix p (a ++ z) = Some (a_rest ++ z).
Proof. intros a a_rest z ->%strip_prefix_Some. rewrite <- app_assoc. by apply strip_prefix_Some. Qed.

Lemma strip_prefix_app_across p : ∀ a z,
  strip_prefix p a = None →
  strip_prefix p (a ++ z)
  = match strip_prefix a p with Some p_rest => strip_prefix p_rest z | None => None end.
Proof.
  induction p as [|c p IH]; intros a z; simpl; [done|].
  destruct a as [|b a]; simpl; [done|].
  destruct (decide (c = b)) as [->|Hne].
  - rewrite decide_True by done. apply IH.
  - by rewrite decide_False by congruence.
Qed.

Lemma strip_prefix_drop a : ∀ p r, strip_prefix a p = Some r → r = drop (length a) p.
Proof. intros p r ->%strip_prefix_Some. by rewrite drop_app_length. Qed.

Lemma take_drop_while f l : take_while f l ++ drop_while f l = l.
Proof. induction l as [|c l IH]; simpl; [done|]. destruct (f c); simpl; [by rewrite IH | done]. Qed.

Lemma take_while_Forall f l : Forall (λ c, f c = true) (take_while f l).
Proof.
  induction l as [|c l IH]; simpl; [constructor|].
  destruct (f c) eqn:Hc; [by constructor | constructor].
Qed.

Lemma drop_while_head f l c r : drop_while f l = c :: r → f c = false.
Proof.
  induction l as [|b l IH]; simpl; [done|].
  destruct (f b) eqn:Hb; [done|]. by intros [= <- _].
Qed.

Lemma while_app_all f a z :
  Forall (λ c, f c = true) a →
  take_while f (a ++ z) = a ++ take_while f z ∧ drop_while f (a ++ z) = drop_while f z.
Proof.
  induction 1 as [|c a Hc _ [IH1 IH2]]; simpl; [done|].
  rewrite Hc. by rewrite IH1, IH2.
Qed.

Lemma while_app_stop f a c r z :
  drop_while f a = c :: r →
  take_while f (a ++ z) = take_while f a ∧ drop_while f (a ++ z) = c :: r ++ z.
Proof.
  induction a as [|b a IH]; simpl; [done|].
  destruct (f b) eqn:Hb.
  - intros H. destruct (IH H) as [-> ->]. done.
  - by intros [= <- <-].
Qed.

Lemma drop_while_nil f a : drop_while f a = [] → Forall (λ c, f c = true) a.
Proof.
  induction a as [|b a IH]; simpl; [constructor|].
  destruct (f b) eqn:Hb; [|done]. intros H. constructor; [done | by apply IH].
Qed.

Lemma not_dquote_true c : not_dquote c = true ↔ c ≠ dquote.
Proof. unfold not_dquote. rewrite negb_true_iff. apply bool_decide_eq_false. Qed.

(** The first double quote of a text is where it is. *)
Lemma first_dquote_unique a : ∀ b x y,
  Forall (λ c, not_dquote c = true) a → Forall (λ c, not_dquote c = true) b →
  a ++ dquote :: x = b ++ dquote :: y → a = b ∧ x = y.
Proof.
  induction a as [|c a IH]; intros b x y Ha Hb Heq.
  - destruct b as [|d b]; simpl in *; [by injection Heq as ->|].
    injection Heq as <- _. apply Forall_cons in Hb as [Hd _]. done.
  - destruct b as [|d b]; simpl in *.
    + injection Heq as -> _. apply Forall_cons in Ha as [Hc _]. done.
    + injection Heq as <- Heq. apply Forall_cons in Ha as [_ Ha].
      apply Forall_cons in Hb as [_ Hb].
      destruct (IH _ _ _ Ha Hb Heq) as [-> ->]. done.
Qed.

(** **** One literal of the pattern *)

Lemma attr_match_at_lit prefix l :
  attr_match_at prefix l
  = match match_lit (literal SRC prefix) l with
    | Some (tail, rest) => Some (SRC, prefix ++ tail, rest)
    | None =>
        match match_lit (literal HREF prefix) l with
        | Some (tail, rest) => Some (HREF, prefix ++ tail, rest)
        | None => None
        end
    end.
Proof.
  unfold attr_match_at, match_key, match_lit, literal.
  rewrite !strip_prefix_app_l. fold SRC HREF.
  destruct (strip_prefix SRC l) as [l1|] eqn:Hsrc.
  - assert (Hhref : strip_prefix HREF l = None)
      by (by apply strip_prefix_Some in Hsrc as ->).
    rewrite Hhref.
    destruct (strip_prefix _ l1) as [l2|]; [|done].
    destruct (drop_while not_dquote l2); [done|]. by case_bool_decide.
  - destruct (strip_prefix HREF l) as [l1|]; [|done].
    destruct (strip_prefix _ l1) as [l2|]; [|done].
    destruct (drop_while not_dquote l2); [done|]. by case_bool_decide.
Qed.

Lemma match_lit_Some lit l tail rest :
  match_lit lit l = Some (tail, rest) ↔
  l = lit ++ tail ++ dquote :: rest ∧ tail ≠ [] ∧ Forall (λ c, not_dquote c = true) tail.
Proof.
  unfold match_lit. split.
  - destruct (strip_prefix lit l) as [l2|] eqn:Hs; [|done].
    apply strip_prefix_Some in Hs as ->.
    destruct (drop_while not_dquote l2) as [|c r] eqn:Hd; [done|].
    case_bool_decide as Hne; [done|]. intros [= <- <-].
    pose proof (drop_while_head _ _ _ _ Hd) as Hc.
    assert (c = dquote) as ->.
    { unfold not_dquote in Hc. apply negb_false_iff, bool_decide_eq_true in Hc. done. }
    split; [|split; [done | apply take_while_Forall]].
    by rewrite <- Hd, take_drop_while.
  - intros (-> & Hne & Hall).
    rewrite (proj2 (strip_prefix_Some lit _ _) eq_refl).
    destruct (while_app_all not_dquote tail (dquote :: rest) Hall) as [-> ->].
    simpl. rewrite app_nil_r. by rewrite bool_decide_eq_false_2.
Qed.

Lemma attr_match_at_Some prefix l key path rest :
  attr_match_at prefix l = Some (key, path, rest) →
  ∃ tail, is_key key ∧ path = prefix ++ tail ∧ tail ≠ [] ∧
          Forall (λ c, not_dquote c = true) tail ∧
          l = literal key prefix ++ tail ++ dquote :: rest.
Proof.
  rewrite attr_match_at_lit.
  destruct (match_lit (literal SRC prefix) l) as [[tail r]|] eqn:Hsrc.
  - intros [= <- <- <-]. apply match_lit_Some in Hsrc as (-> & ? & ?).
    exists tail. split; [by left | done].
  - destruct (match_lit (literal HREF prefix) l) as [[tail r]|] eqn:Hhref; [|done].
    intros [= <- <- <-]. apply match_lit_Some in Hhref as (-> & ? & ?).
    exists tail. split; [by right | done].
Qed.

Lemma attr_match_at_None prefix l :
  attr_match_at prefix l = None ↔
  match_lit (literal SRC prefix) l = None ∧ match_lit (literal HREF prefix) l = None.
Proof.
  rewrite attr_match_at_lit.
  destruct (match_lit (literal SRC prefix) l) as [[tail r]|];
    [split; [done | by intros [? _]]|].
  destruct (match_lit (literal HREF prefix) l) as [[tail r]|];
    [split; [done | by intros [_ ?]] | done].
Qed.

Lemma attr_match_at_shorter prefix l key path rest :
  attr_match_at prefix l = Some (key, path, rest) → length rest < length l.
Proof.
  intros (tail & _ & _ & _ & _ & ->)%attr_match_at_Some.
  rewrite !length_app. simpl. lia.
Qed.

(** **** The scan of [re.sub] *)

Lemma re_sub_fuel_enough prefix : ∀ n m l,
  length l ≤ n → length l ≤ m → re_sub_fuel n prefix l = re_sub_fuel m prefix l.
Proof.
  induction n as [|n IH]; intros m l Hn Hm.
  - destruct l; [|simpl in Hn; lia]. destruct m; simpl; [done|].
    by destruct (attr_match_at prefix []) as [[[? ?] ?]|].
  - destruct m as [|m].
    { destruct l; [|simpl in Hm; lia]. simpl.
      by destruct (attr_match_at prefix []) as [[[? ?] ?]|]. }
    simpl. destruct (attr_match_at prefix l) as [[[key path] rest]|] eqn:Hm'.
    + apply attr_match_at_shorter in Hm'. f_equal. apply IH; lia.
    + destruct l as [|c l]; [done|]. simpl in *. f_equal. apply IH; lia.
Qed.

Lemma re_sub_nil prefix : re_sub prefix [] = [].
Proof. done. Qed.

Lemma re_sub_match prefix l key path rest :
  attr_match_at prefix l = Some (key, path, rest) →
  re_sub prefix l = replacement key path ++ re_sub prefix rest.
Proof.
  intros Hm. pose proof (attr_match_at_shorter _ _ _ _ _ Hm) as Hlen.
  unfold re_sub. destruct (length l) as [|n] eqn:Hn; [lia|].
  simpl. rewrite Hm. f_equal. apply re_sub_fuel_enough; lia.
Qed.

Lemma re_sub_step prefix c l :
  attr_match_at prefix (c :: l) = None →
  re_sub prefix (c :: l) = c :: re_sub prefix l.
Proof. intros Hm. unfold re_sub. simpl. by rewrite Hm. Qed.

Lemma re_paths_fuel_enough prefix : ∀ n m l,
  length l ≤ n → length l ≤ m → re_paths_fuel n prefix l = re_paths_fuel m prefix l.
Proof.
  induction n as [|n IH]; intros m l Hn Hm.
  - destruct l; [|simpl in Hn; lia]. destruct m; simpl; [done|].
    destruct (attr_match_at prefix []) as [[[? ?] ?]|] eqn:H; [|done].
    apply attr_match_at_shorter in H. simpl in H. lia.
  - destruct m as [|m].
    { destruct l; [|simpl in Hm; lia]. simpl.
      destruct (attr_match_at prefix []) as [[[? ?] ?]|] eqn:H; [|done].
      apply attr_match_at_shorter in H. simpl in H. lia. }
    simpl. destruct (attr_match_at prefix l) as [[[key path] rest]|] eqn:Hm'.
    + apply attr_match_at_shorter in Hm'. f_equal. apply IH; lia.
    + destruct l as [|c l]; [done|]. simpl in *. apply IH; lia.
Qed.

Lemma re_paths_match prefix l key path rest :
  attr_match_at prefix l = Some (key, path, rest) →
  re_paths prefix l = path :: re_paths prefix rest.
Proof.
  intros Hm. pose proof (attr_match_at_shorter _ _ _ _ _ Hm) as Hlen.
  unfold re_paths. destruct (length l) as [|n] eqn:Hn; [lia|].
  simpl. rewrite Hm. f_equal. apply re_paths_fuel_enough; lia.
Qed.

Lemma re_paths_step prefix c l :
  attr_match_at prefix (c :: l) = None →
  re_paths prefix (c :: l) = re_paths prefix l.
Proof. intros Hm. unfold re_paths. simpl. by rewrite Hm. Qed.

(** Induction along the scan: the text is empty, or has no match at its
    head, or has a match at its head and the scan goes on after it. *)
Lemma scan_ind prefix (P : list ascii → Prop) :
  P [] →
  (∀ c l, attr_match_at prefix (c :: l) = None → P l → P (c :: l)) →
  (∀ l key path rest, attr_match_at prefix l = Some (key, path, rest) → P rest → P l) →
  ∀ l, P l.
Proof.
  intros Hnil Hstep Hmatch l.
  induction l as [l IH] using (induction_ltof1 _ (@length ascii)). unfold ltof in IH.
  destruct (attr_match_at prefix l) as [[[key path] rest]|] eqn:Hm.
  - apply (Hmatch _ _ _ _ Hm), IH. by apply attr_match_at_shorter in Hm.
  - destruct l as [|c l]; [done|]. apply Hstep; [done|]. apply IH. simpl. lia.
Qed.

Lemma no_match_cons prefix c l :
  attr_match_at prefix (c :: l) = None → no_match prefix l → no_match prefix (c :: l).
Proof.
  intros Hc Hl s [pre Hs]. destruct pre as [|d pre]; simpl in Hs.
  - by rewrite <- Hs.
  - injection Hs as _ Hs. apply Hl. by exists pre.
Qed.

Lemma no_match_tail prefix a l : no_match prefix (a ++ l) → no_match prefix l.
Proof. intros H s Hs. apply H. by apply suffix_app_r. Qed.

(** Without a match, [re.sub] gives the text back. *)
Lemma re_sub_no_match prefix l : no_match prefix l → re_sub prefix l = l.
Proof.
  induction l as [|c l IH]; intros H; [done|].
  rewrite re_sub_step by (by apply H). f_equal. apply IH.
  by apply (no_match_tail prefix [c]).
Qed.

(** **** New matches do not appear *)

Lemma tails_clash_spec lit z from n :
  tails_clash lit z from = true → from ≤ n < length lit → mismatch (drop n lit) z = true.
Proof.
  unfold tails_clash. rewrite forallb_forall. intros H Hn. apply H, in_seq. lia.
Qed.

Lemma mismatch_sym p : ∀ l, mismatch p l = mismatch l p.
Proof.
  induction p as [|a p IH]; intros [|b l]; simpl; try done.
  destruct (decide (a = b)) as [->|Hne].
  - rewrite decide_True by done. apply IH.
  - by rewrite decide_False by congruence.
Qed.

(** A key, an equals sign and a double quote cannot continue a literal that
    has started before them. *)
Lemma literal_tail_clash key' q key n :
  is_key key' → is_prefix q → is_key key →
  1 ≤ n < length (literal key' q) →
  mismatch (drop n (literal key' q)) (key_eq_quote key) = true.
Proof.
  intros Hk' Hq Hk Hn. apply (tails_clash_spec _ _ 1); [|done].
  destruct Hk' as [-> | ->], Hq as [-> | ->], Hk as [-> | ->]; vm_compute; reflexivity.
Qed.

Lemma key_eq_no_dquote key : is_key key → Forall (λ c, not_dquote c = true) (key ++ ["="%char]).
Proof. intros [-> | ->]; repeat constructor. Qed.

Lemma key_nonempty key : is_key key → key ≠ [].
Proof. by intros [-> | ->]. Qed.

(** The outcome of a literal at a position before a key, an equals sign and a
    double quote does not depend on what follows them. *)
Lemma match_lit_before_key key' q a key y y' :
  is_key key' → is_prefix q → is_key key → a ≠ [] →
  match_lit (literal key' q) (a ++ key ++ "="%char :: dquote :: y) = None →
  match_lit (literal key' q) (a ++ key ++ "="%char :: dquote :: y') = None.
Proof.
  intros Hk' Hq Hk Ha. unfold match_lit.
  destruct (strip_prefix (literal key' q) a) as [a_rest|] eqn:Hin.
  - rewrite !(strip_prefix_app_inside _ _ _ _ Hin).
    destruct (drop_while not_dquote a_rest) as [|c r] eqn:Hd.
    + apply drop_while_nil in Hd.
      assert (Hall : Forall (λ c, not_dquote c = true) (a_rest ++ key ++ ["="%char])).
      { apply Forall_app. split; [done | by apply key_eq_no_dquote]. }
      replace (a_rest ++ key ++ "="%char :: dquote :: y)
        with ((a_rest ++ key ++ ["="%char]) ++ dquote :: y)
        by (by rewrite <- !app_assoc).
      destruct (while_app_all not_dquote _ (dquote :: y) Hall) as [-> ->]. simpl.
      rewrite bool_decide_eq_false_2; [done|].
      rewrite app_nil_r. intros Hnil.
      apply app_eq_nil in Hnil as [_ Hnil]. apply app_eq_nil in Hnil as [Hnil _].
      by apply key_nonempty in Hk.
    + destruct (while_app_stop not_dquote a_rest c r
                  (key ++ "="%char :: dquote :: y) Hd) as [-> ->].
      destruct (while_app_stop not_dquote a_rest c r
                  (key ++ "="%char :: dquote :: y') Hd) as [-> ->].
      by case_bool_decide.
  - rewrite !strip_prefix_app_across by done. intros _.
    destruct (strip_prefix a (literal key' q)) as [lit_rest|] eqn:Hacross; [|done].
    pose proof (strip_prefix_drop _ _ _ Hacross) as ->.
    apply strip_prefix_Some in Hacross.
    assert (Hlen : 1 ≤ length a < length (literal key' q)).
    { split; [destruct a; [done | simpl; lia]|].
      destruct (decide (length a < length (literal key' q))) as [|Hge]; [done|].
      exfalso. assert (Hl : length (literal key' q) = length a + length (drop (length a) (literal key' q)))
        by (by rewrite Hacross at 1; rewrite length_app).
      assert (Hnil : drop (length a) (literal key' q) = []) by (apply nil_length_inv; lia).
      rewrite Hnil, app_nil_r in Hacross. rewrite Hacross in Hin.
      by rewrite (proj2 (strip_prefix_Some a a []) (eq_sym (app_nil_r a))) in Hin. }
    change (key ++ "="%char :: dquote :: y') with (key ++ ["="%char; dquote] ++ y').
    rewrite app_assoc, mismatch_strip; [done|].
    by apply literal_tail_clash.
Qed.

(** A position of the text that precedes what [re.sub] rewrites keeps its
    outcome. *)
Lemma no_match_kept q p :
  is_prefix q → is_prefix p →
  ∀ l a, a ≠ [] →
    attr_match_at q (a ++ l) = None → attr_match_at q (a ++ re_sub p l) = None.
Proof.
  intros Hq Hp l. induction l as [|c l Hc IH|l key path rest Hm _] using (scan_ind p);
    intros a Ha Hnone.
  - done.
  - rewrite re_sub_step by done.
    replace (a ++ c :: re_sub p l) with ((a ++ [c]) ++ re_sub p l) by (by rewrite <- app_assoc).
    apply IH; [by destruct a | by rewrite <- app_assoc].
  - rewrite (re_sub_match _ _ _ _ _ Hm).
    apply attr_match_at_Some in Hm as (tail & Hkey & -> & _ & _ & ->).
    unfold replacement, literal in *. rewrite <- !app_assoc in *. simpl in *.
    apply attr_match_at_None in Hnone as [Hsrc Hhref].
    apply attr_match_at_None. split.
    + eapply match_lit_before_key; [by left | done | done | done | exact Hsrc].
    + eapply match_lit_before_key; [by right | done | done | done | exact Hhref].
Qed.

Lemma starts_with_app a : ∀ b, starts_with a (a ++ b) = true.
Proof. induction a as [|c a IH]; intros b; simpl; [done|]. by rewrite decide_True. Qed.

Lemma ends_with_app pre suffix : ends_with suffix (pre ++ suffix) = true.
Proof. unfold ends_with. rewrite rev_app_distr. apply starts_with_app. Qed.

Lemma ends_in_key_eq_app pre key :
  is_key key → ends_in_key_eq (pre ++ key ++ ["="%char]) = true.
Proof.
  intros [-> | ->]; unfold ends_in_key_eq.
  - change (chars "src=") with (SRC ++ ["="%char]). by rewrite ends_with_app.
  - change (chars "href=") with (HREF ++ ["="%char]).
    rewrite (ends_with_app pre (HREF ++ ["="%char])). apply orb_true_r.
Qed.

Lemma replacement_split key prefix tail :
  replacement key (prefix ++ tail) = replacement_head key prefix ++ tail ++ [dquote].
Proof. unfold replacement, replacement_head. by rewrite <- !app_assoc. Qed.

(** No literal starts inside the head of a replacement. *)
Lemma replacement_head_clash key' q key p n :
  is_key key' → is_prefix q → is_key key → is_prefix p →
  n < length (replacement_head key p) →
  mismatch (literal key' q) (drop n (replacement_head key p)) = true.
Proof.
  intros Hk' Hq Hk Hp Hn. rewrite mismatch_sym.
  apply (tails_clash_spec _ _ 0); [|lia].
  destruct Hk' as [-> | ->], Hq as [-> | ->], Hk as [-> | ->], Hp as [-> | ->];
    vm_compute; reflexivity.
Qed.

Lemma literal_split key q : literal key q = (key ++ ["="%char]) ++ dquote :: q.
Proof. unfold literal. by rewrite <- app_assoc. Qed.

(** No match starts inside the text that replaces a match, when the path
    does not end in [src=] or [href=]. *)
Lemma no_match_in_replacement q key p tail s1 s2 x :
  is_prefix q → is_key key → is_prefix p →
  Forall (λ c, not_dquote c = true) tail →
  ends_in_key_eq (p ++ tail) = false →
  replacement key (p ++ tail) = s1 ++ s2 → s2 ≠ [] →
  attr_match_at q (s2 ++ x) = None.
Proof.
  intros Hq Hk Hp Htail Hend Hsplit Hs2.
  rewrite replacement_split in Hsplit.
  assert (Hlit : ∀ key', is_key key' → match_lit (literal key' q) (s2 ++ x) = None).
  { intros key' Hk'. unfold match_lit.
    assert (Hquote : ∀ t2, Forall (λ c, not_dquote c = true) t2 →
              (∃ l, tail = l ++ t2) →
              match strip_prefix (literal key' q) (t2 ++ dquote :: x) with
              | Some l2 =>
                  match drop_while not_dquote l2 with
                  | [] => None
                  | _ :: rest =>
                      if bool_decide (take_while not_dquote l2 = []) then None
                      else Some (take_while not_dquote l2, rest)
                  end
              | None => None
              end = None).
    { intros t2 Ht2 [l Hl].
      destruct (strip_prefix (literal key' q) (t2 ++ dquote :: x)) as [r|] eqn:Hr; [|done].
      apply strip_prefix_Some in Hr. rewrite literal_split, <- app_assoc in Hr. simpl in Hr.
      apply first_dquote_unique in Hr as [Hr _]; [|done | by apply key_eq_no_dquote].
      exfalso. subst t2 tail. rewrite app_assoc in Hend.
      by rewrite ends_in_key_eq_app in Hend. }
    apply app_eq_app in Hsplit as [l [[Hhead Hs]|[Hs1 Htl]]].
    - (* the position lies in the head *)
      destruct (decide (l = [])) as [->|Hl].
      + simpl in Hs. subst s2. rewrite <- app_assoc. simpl.
        apply Hquote; [done | by exists []].
      + subst s2. rewrite <- app_assoc.
        assert (Hdrop : l = drop (length s1) (replacement_head key p))
          by (by rewrite Hhead, drop_app_length).
        rewrite Hdrop, mismatch_strip; [done|].
        apply replacement_head_clash; try done.
        rewrite Hhead, length_app. destruct l; [done | simpl; lia].
    - (* the position lies in the tail or on the closing quote *)
      destruct (exists_last Hs2) as (t2 & c & ->).
      rewrite app_assoc in Htl. apply app_inj_tail in Htl as [Htl <-].
      rewrite <- app_assoc. simpl.
      apply Hquote; [|by exists l].
      rewrite Htl in Htail. by apply Forall_app in Htail as [_ ?]. }
  apply attr_match_at_None. split; apply Hlit; [by left | by right].
Qed.

Lemma no_match_app q a x :
  (∀ s1 s2, a = s1 ++ s2 → s2 ≠ [] → attr_match_at q (s2 ++ x) = None) →
  no_match q x → no_match q (a ++ x).
Proof.
  intros Ha Hx s [pre Hs].
  apply app_eq_app in Hs as [l [[-> ->]|[-> ->]]].
  - destruct (decide (l = [])) as [->|Hl]; [by apply Hx|]. by apply (Ha pre l).
  - apply Hx. by exists l.
Qed.

(** After [re.sub] for the prefix [p], no match for the prefix [q] is left,
    when none of the rewritten paths ends in [src=] or [href=] and the text
    held no match for [q] outside the matches for [p]. *)
Lemma re_sub_clean q p :
  is_prefix q → is_prefix p →
  ∀ l,
    Forall (λ path, ends_in_key_eq path = false) (re_paths p l) →
    (∀ s, s `suffix_of` l → attr_match_at p s = None → attr_match_at q s = None) →
    no_match q (re_sub p l).
Proof.
  intros Hq Hp l.
  induction l as [|c l Hc IH|l key path rest Hm IH] using (scan_ind p); intros Hpaths Hout.
  - intros s ->%suffix_nil_inv. by apply Hout.
  - rewrite re_sub_step by done. rewrite re_paths_step in Hpaths by done.
    apply no_match_cons.
    + apply (no_match_kept q p Hq Hp l [c]); [done|]. by apply Hout.
    + apply IH; [done|]. intros s Hs. apply Hout. by apply suffix_cons_r.
  - rewrite (re_sub_match _ _ _ _ _ Hm). rewrite (re_paths_match _ _ _ _ _ Hm) in Hpaths.
    apply Forall_cons in Hpaths as [Hpath Hpaths].
    apply attr_match_at_Some in Hm as (tail & Hkey & -> & _ & Htail & ->).
    apply no_match_app.
    + intros s1 s2 Hsplit Hs2. by eapply no_match_in_replacement.
    + apply IH; [done|]. intros s Hs. apply Hout.
      destruct Hs as [pre ->]. exists (literal key p ++ tail ++ dquote :: pre).
      by rewrite <- !app_assoc.
Qed.

(** **** Idempotence *)

Lemma attr_match_at_nil prefix : attr_match_at prefix [] = None.
Proof. done. Qed.

Lemma fix_chars_idempotent content :
  Forall (λ path, ends_in_key_eq path = false) (rewritten_paths content) →
  fix_chars (fix_chars content) = fix_chars content.
Proof.
  unfold rewritten_paths, fix_chars. intros [Hassets Hpl]%Forall_app.
  assert (HA : is_prefix ASSETS) by (by left).
  assert (HP : is_prefix PL) by (by right).
  assert (Hclean1 : no_match ASSETS (re_sub ASSETS content))
    by (by apply re_sub_clean).
  assert (Hclean2 : no_match PL (re_sub PL (re_sub ASSETS content)))
    by (by apply re_sub_clean).
  assert (Hclean3 : no_match ASSETS (re_sub PL (re_sub ASSETS content))).
  { apply re_sub_clean; [done..|]. intros s Hs _. by apply Hclean1. }
  by rewrite (re_sub_no_match ASSETS _ Hclean3), (re_sub_no_match PL _ Hclean2).
Qed.

(** **** Reading in text mode *)

Lemma translate_cons c l :
  c ≠ CR → translate_newlines (c :: l) = c :: translate_newlines l.
Proof. intros Hc. simpl. by rewrite decide_False. Qed.

Lemma translate_CR_LF l :
  translate_newlines (CR :: LF :: l) = LF :: translate_newlines l.
Proof. done. Qed.

Lemma translate_CR l :
  head l ≠ Some LF → translate_newlines (CR :: l) = LF :: translate_newlines l.
Proof.
  intros Hl. destruct l as [|d l]; [done|].
  change (translate_newlines (CR :: d :: l))
    with (LF :: if decide (d = LF) then translate_newlines l
                else translate_newlines (d :: l)).
  rewrite decide_False; [done|]. intros ->. by apply Hl.
Qed.

Lemma translate_literal lit l :
  Forall plain_char lit → translate_newlines (lit ++ l) = lit ++ translate_newlines l.
Proof.
  induction 1 as [|c lit [Hc _] _ IH]; [done|].
  rewrite <- app_comm_cons, translate_cons, IH; done.
Qed.

Lemma translate_nil l : translate_newlines l = [] → l = [].
Proof.
  destruct l as [|c l]; [done|]. simpl. by destruct (decide (c = CR)).
Qed.

(** The translation of a text cut in front of a character other than the
    line feed is the translation of its two parts. *)
Lemma translate_app a c b :
  c ≠ LF →
  translate_newlines (a ++ c :: b) = translate_newlines a ++ translate_newlines (c :: b).
Proof.
  intros Hc. induction a as [a IH] using (induction_ltof1 _ (@length ascii)).
  unfold ltof in IH. destruct a as [|x a]; [done|].
  destruct (decide (x = CR)) as [->|Hx].
  - destruct a as [|y a].
    + rewrite app_nil_l || idtac. change ([CR] ++ c :: b) with (CR :: c :: b).
      rewrite translate_CR by (simpl; congruence). done.
    + destruct (decide (y = LF)) as [->|Hy].
      * change ((CR :: LF :: a) ++ c :: b) with (CR :: LF :: (a ++ c :: b)).
        rewrite !translate_CR_LF, IH by (simpl; lia). done.
      * change ((CR :: y :: a) ++ c :: b) with (CR :: ((y :: a) ++ c :: b)).
        rewrite (translate_CR ((y :: a) ++ c :: b)) by (simpl; congruence).
        rewrite (translate_CR (y :: a)) by (simpl; congruence).
        rewrite IH by (simpl; lia). done.
  - rewrite <- app_comm_cons, !translate_cons, IH by (done || simpl; lia). done.
Qed.

Lemma translate_app_dquote a b :
  translate_newlines (a ++ dquote :: b)
  = translate_newlines a ++ dquote :: translate_newlines b.
Proof. rewrite translate_app by done. by rewrite translate_cons. Qed.

(** The characters of the translated text are those of the text and the line
    feed; the carriage return is not among them. *)
Lemma translate_elem c l :
  c ∈ translate_newlines l → c ∈ l ∨ c = LF.
Proof.
  induction l as [l IH] using (induction_ltof1 _ (@length ascii)). unfold ltof in IH.
  destruct l as [|x l]; [by left|].
  destruct (decide (x = CR)) as [->|Hx].
  - destruct l as [|y l]; [simpl; rewrite list_elem_of_singleton; by right|].
    destruct (decide (y = LF)) as [->|Hy].
    + rewrite translate_CR_LF, elem_of_cons. intros [->|Hin]; [by right|].
      apply IH in Hin as [Hin| ->]; [|by right|simpl; lia].
      left. by do 2 apply list_elem_of_further.
    + rewrite translate_CR by (simpl; congruence). rewrite elem_of_cons.
      intros [->|Hin]; [by right|].
      apply IH in Hin as [Hin| ->]; [|by right|simpl; lia].
      left. by apply list_elem_of_further.
  - rewrite translate_cons by done. rewrite elem_of_cons. intros [->|Hin].
    + left. apply list_elem_of_here.
    + apply IH in Hin as [Hin| ->]; [|by right|simpl; lia]. left. by apply list_elem_of_further.
Qed.

Lemma translate_no_CR l : Forall (λ c, c ≠ CR) (translate_newlines l).
Proof.
  induction l as [l IH] using (induction_ltof1 _ (@length ascii)). unfold ltof in IH.
  destruct l as [|x l]; [constructor|].
  destruct (decide (x = CR)) as [->|Hx].
  - destruct l as [|y l]; [by repeat constructor|].
    destruct (decide (y = LF)) as [->|Hy].
    + rewrite translate_CR_LF. constructor; [done|]. apply IH. simpl. lia.
    + rewrite translate_CR by (simpl; congruence). constructor; [done|].
      apply IH. simpl. lia.
  - rewrite translate_cons by done. constructor; [done|]. apply IH. simpl. lia.
Qed.

Lemma translate_same l : Forall (λ c, c ≠ CR) l → translate_newlines l = l.
Proof.
  induction 1 as [|c l Hc _ IH]; [done|]. by rewrite translate_cons, IH.
Qed.

Lemma translate_keeps_not_dquote l :
  Forall (λ c, not_dquote c = true) l →
  Forall (λ c, not_dquote c = true) (translate_newlines l).
Proof.
  rewrite !Forall_forall. intros Hall c [Hin| ->]%translate_elem; [by apply Hall | done].
Qed.

(** The text before the translated text begins with a plain literal when
    the translated text does. *)
Lemma translate_starts lit : ∀ l x,
  Forall plain_char lit → translate_newlines l = lit ++ x →
  ∃ l', l = lit ++ l' ∧ x = translate_newlines l'.
Proof.
  induction lit as [|c lit IH]; intros l x Hlit Hl; [by exists l|].
  apply Forall_cons in Hlit as [[Hc1 Hc2] Hlit].
  destruct l as [|d l]; [done|].
  destruct (decide (d = CR)) as [->|Hd].
  { simpl in Hl. injection Hl as Hl _. congruence. }
  rewrite translate_cons in Hl by done. injection Hl as -> Hl.
  destruct (IH l x Hlit Hl) as (l' & -> & ->). by exists l'.
Qed.

Lemma drop_while_all f l : Forall (λ c, f c = true) l → drop_while f l = [].
Proof. induction 1 as [|c l Hc _ IH]; [done|]. simpl. by rewrite Hc. Qed.

(** **** Matches in the translated text *)

Lemma match_lit_translate lit l :
  Forall plain_char lit →
  match_lit lit (translate_newlines l)
  = match match_lit lit l with
    | Some (tail, rest) => Some (translate_newlines tail, translate_newlines rest)
    | None => None
    end.
Proof.
  intros Hlit. destruct (match_lit lit l) as [[tail rest]|] eqn:Hm.
  - apply match_lit_Some in Hm as (-> & Hne & Hall). apply match_lit_Some.
    rewrite translate_literal, translate_app_dquote by done.
    split; [done|]. split; [|by apply translate_keeps_not_dquote].
    intros Hnil%translate_nil. done.
  - destruct (match_lit lit (translate_newlines l)) as [[tail' rest']|] eqn:Hm'; [|done].
    exfalso. apply match_lit_Some in Hm' as (Hl & Hne & Hall).
    destruct (translate_starts lit l _ Hlit Hl) as (l2 & -> & Hl2).
    revert Hm. unfold match_lit. rewrite (proj2 (strip_prefix_Some lit _ _) eq_refl).
    destruct (drop_while not_dquote l2) as [|c r] eqn:Hd.
    + intros _. apply drop_while_nil, translate_keeps_not_dquote in Hd.
      rewrite <- Hl2 in Hd. apply Forall_app in Hd as [_ Hd].
      by apply Forall_cons in Hd as [Hd _].
    + case_bool_decide as Htake; [|done]. intros _.
      destruct l2 as [|d l2]; [done|]. simpl in Htake.
      destruct (not_dquote d) eqn:Hdq; [done|].
      assert (d = dquote) as ->.
      { unfold not_dquote in Hdq. by apply negb_false_iff, bool_decide_eq_true in Hdq. }
      rewrite translate_cons in Hl2 by done.
      destruct tail' as [|t0 tail']; [by destruct Hne|]. injection Hl2 as -> _.
      by apply Forall_cons in Hall as [Hall _].
Qed.

Lemma plain_chars_decide l :
  forallb (λ c, negb (bool_decide (c = CR)) && negb (bool_decide (c = LF))) l = true →
  Forall plain_char l.
Proof.
  rewrite forallb_forall, Forall_forall. intros H c Hin.
  apply list_elem_of_In, H, andb_true_iff in Hin as [H1 H2].
  apply negb_true_iff, bool_decide_eq_false in H1, H2. by split.
Qed.

Lemma literal_plain key prefix :
  is_key key → is_prefix prefix → Forall plain_char (literal key prefix).
Proof.
  intros [-> | ->] [-> | ->]; apply plain_chars_decide; vm_compute; reflexivity.
Qed.

Lemma prefix_plain prefix : is_prefix prefix → Forall plain_char prefix.
Proof. intros [-> | ->]; apply plain_chars_decide; vm_compute; reflexivity. Qed.

Lemma replacement_head_plain key prefix :
  is_key key → is_prefix prefix →
  Forall plain_char (key ++ "="%char :: dquote :: chars PRAIRIELEARN_BASE ++ prefix).
Proof.
  intros [-> | ->] [-> | ->]; apply plain_chars_decide; vm_compute; reflexivity.
Qed.

Lemma attr_match_at_translate prefix l :
  is_prefix prefix →
  attr_match_at prefix (translate_newlines l)
  = match attr_match_at prefix l with
    | Some (key, path, rest) => Some (key, translate_newlines path, translate_newlines rest)
    | None => None
    end.
Proof.
  intros Hp. rewrite !attr_match_at_lit.
  rewrite !match_lit_translate by (apply literal_plain; [(by left) || (by right) | done]).
  pose proof (prefix_plain prefix Hp) as Hplain.
  destruct (match_lit (literal SRC prefix) l) as [[tail rest]|].
  { by rewrite translate_literal. }
  destruct (match_lit (literal HREF prefix) l) as [[tail rest]|]; [|done].
  by rewrite translate_literal.
Qed.

Lemma attr_match_at_LF prefix l : attr_match_at prefix (LF :: l) = None.
Proof. done. Qed.

Lemma attr_match_at_CR prefix l : attr_match_at prefix (CR :: l) = None.
Proof. done. Qed.

Lemma replacement_translate key path tail x prefix :
  is_key key → is_prefix prefix → path = prefix ++ tail →
  translate_newlines (replacement key path ++ x)
  = replacement key (translate_newlines path) ++ translate_newlines x.
Proof.
  intros Hk Hp ->. unfold replacement.
  rewrite (translate_literal prefix) by (by apply prefix_plain).
  replace ((key ++ "="%char :: dquote :: chars PRAIRIELEARN_BASE ++ (prefix ++ tail) ++ [dquote]) ++ x)
    with ((key ++ "="%char :: dquote :: chars PRAIRIELEARN_BASE ++ prefix) ++ tail ++ dquote :: x).
  2: { rewrite <- !app_assoc. simpl. rewrite <- !app_assoc. done. }
  rewrite translate_literal by (by apply replacement_head_plain).
  rewrite translate_app_dquote.
  rewrite <- !app_assoc. simpl. rewrite <- !app_assoc. done.
Qed.

Lemma re_sub_head prefix l : head (re_sub prefix l) = head l.
Proof.
  destruct (attr_match_at prefix l) as [[[key path] rest]|] eqn:Hm.
  - rewrite (re_sub_match _ _ _ _ _ Hm).
    apply attr_match_at_Some in Hm as (tail & Hk & _ & _ & _ & ->).
    by destruct Hk as [-> | ->].
  - destruct l as [|c l]; [done|]. by rewrite re_sub_step.
Qed.

(** The substitution in the translated text gives the translation of the
    substitution in the text. *)
Lemma re_sub_translate prefix l :
  is_prefix prefix →
  re_sub prefix (translate_newlines l) = translate_newlines (re_sub prefix l).
Proof.
  intros Hp. induction l as [l IH] using (induction_ltof1 _ (@length ascii)).
  unfold ltof in IH.
  pose proof (attr_match_at_translate prefix l Hp) as Ht.
  destruct (attr_match_at prefix l) as [[[key path] rest]|] eqn:Hm.
  - rewrite (re_sub_match _ _ _ _ _ Ht), (re_sub_match _ _ _ _ _ Hm).
    pose proof (attr_match_at_shorter _ _ _ _ _ Hm) as Hlen.
    apply attr_match_at_Some in Hm as (tail & Hk & Hpath & _ & _ & _).
    rewrite (replacement_translate key path tail _ prefix Hk Hp Hpath).
    by rewrite IH.
  - destruct l as [|c l]; [done|]. rewrite (re_sub_step _ _ _ Hm).
    destruct (decide (c = CR)) as [->|Hc].
    + destruct l as [|d l]; [done|].
      destruct (decide (d = LF)) as [->|Hd].
      * rewrite (re_sub_step _ _ _ (attr_match_at_LF prefix l)).
        rewrite !translate_CR_LF.
        rewrite (re_sub_step _ _ _ (attr_match_at_LF prefix _)).
        rewrite IH by (simpl; lia). done.
      * rewrite (translate_CR (d :: l)) by (simpl; congruence).
        rewrite (translate_CR (re_sub prefix (d :: l)))
          by (rewrite re_sub_head; simpl; congruence).
        rewrite (re_sub_step _ _ _ (attr_match_at_LF prefix _)).
        rewrite IH by (simpl; lia). done.
    + rewrite translate_cons in Ht |- * by done.
      rewrite (re_sub_step _ _ _ Ht), translate_cons by done.
      rewrite IH by (simpl; lia). done.
Qed.

Lemma re_paths_translate prefix l :
  is_prefix prefix →
  re_paths prefix (translate_newlines l) = map translate_newlines (re_paths prefix l).
Proof.
  intros Hp. induction l as [l IH] using (induction_ltof1 _ (@length ascii)).
  unfold ltof in IH.
  pose proof (attr_match_at_translate prefix l Hp) as Ht.
  destruct (attr_match_at prefix l) as [[[key path] rest]|] eqn:Hm.
  - rewrite (re_paths_match _ _ _ _ _ Ht), (re_paths_match _ _ _ _ _ Hm).
    pose proof (attr_match_at_shorter _ _ _ _ _ Hm) as Hlen.
    simpl. by rewrite IH.
  - destruct l as [|c l]; [done|]. rewrite (re_paths_step _ _ _ Hm).
    destruct (decide (c = CR)) as [->|Hc].
    + destruct l as [|d l]; [done|].
      destruct (decide (d = LF)) as [->|Hd].
      * rewrite (re_paths_step _ _ _ (attr_match_at_LF prefix l)).
        rewrite !translate_CR_LF.
        rewrite (re_paths_step _ _ _ (attr_match_at_LF prefix _)).
        rewrite IH by (simpl; lia). done.
      * rewrite (translate_CR (d :: l)) by (simpl; congruence).
        rewrite (re_paths_step _ _ _ (attr_match_at_LF prefix _)).
        rewrite IH by (simpl; lia). done.
    + rewrite translate_cons in Ht |- * by done.
      rewrite (re_paths_step _ _ _ Ht).
      rewrite IH by (simpl; lia). done.
Qed.

Lemma rewritten_paths_translate l :
  rewritten_paths (translate_newlines l) = map translate_newlines (rewritten_paths l).
Proof.
  unfold rewritten_paths.
  rewrite map_app, !re_paths_translate, re_sub_translate, re_paths_translate;
    first done; (by left) || (by right).
Qed.

(** **** The end of a translated path *)

Lemma translate_last l :
  last (translate_newlines l) = (λ c, if decide (c = CR) then LF else c) <$> last l.
Proof.
  induction l as [l IH] using (induction_ltof1 _ (@length ascii)). unfold ltof in IH.
  destruct l as [|x l]; [done|].
  destruct l as [|y l].
  { simpl. by destruct (decide (x = CR)). }
  destruct (decide (x = CR)) as [->|Hx].
  - destruct (decide (y = LF)) as [->|Hy].
    + rewrite translate_CR_LF. destruct l as [|z l]; [done|].
      rewrite last_cons.
      destruct (last (translate_newlines (z :: l))) as [c|] eqn:Hl.
      * rewrite <- Hl, IH by (simpl; lia). by rewrite !last_cons_cons.
      * apply last_None, translate_nil in Hl. done.
    + rewrite translate_CR by (simpl; congruence). rewrite last_cons.
      destruct (last (translate_newlines (y :: l))) as [c|] eqn:Hl.
      * rewrite <- Hl, IH by (simpl; lia). by rewrite !last_cons_cons.
      * apply last_None, translate_nil in Hl. done.
  - rewrite translate_cons by done. rewrite last_cons.
    destruct (last (translate_newlines (y :: l))) as [c|] eqn:Hl.
    + rewrite <- Hl, IH by (simpl; lia). by rewrite !last_cons_cons.
    + apply last_None, translate_nil in Hl. done.
Qed.

Lemma translate_ends suffix :
  Forall plain_char suffix →
  ∀ l x, translate_newlines l = x ++ suffix → ∃ l', l = l' ++ suffix.
Proof.
  induction suffix as [|c suffix IH] using rev_ind; intros Hs l x Hl.
  { exists l. by rewrite app_nil_r. }
  apply Forall_app in Hs as [Hs [[Hc1 Hc2] _]%Forall_cons].
  pose proof (translate_last l) as Hlast.
  rewrite Hl, app_assoc, last_snoc in Hlast.
  destruct (last l) as [d|] eqn:Hd; [|done].
  apply last_Some in Hd as [l0 ->]. simpl in Hlast. injection Hlast as Hlast.
  assert (d = c) as ->.
  { destruct (decide (d = CR)); congruence. }
  rewrite translate_app in Hl by done. rewrite translate_cons in Hl by done.
  rewrite app_assoc in Hl. apply app_inj_tail in Hl as [Hl _].
  destruct (IH Hs l0 x Hl) as [l' ->]. exists l'. by rewrite app_assoc.
Qed.

Lemma starts_with_Some p : ∀ l, starts_with p l = true → ∃ r, l = p ++ r.
Proof.
  induction p as [|a p IH]; intros l; simpl; [by exists l|].
  destruct l as [|b l]; [done|]. destruct (decide (a = b)) as [->|]; [|done].
  intros [r ->]%IH. by exists r.
Qed.

Lemma ends_with_Some suffix l : ends_with suffix l = true → ∃ pre, l = pre ++ suffix.
Proof.
  unfold ends_with. intros [r Hr]%starts_with_Some. exists (rev r).
  apply (f_equal (@rev ascii)) in Hr. by rewrite rev_involutive, rev_app_distr, rev_involutive in Hr.
Qed.

Lemma ends_with_translate suffix l :
  Forall plain_char suffix →
  ends_with suffix l = false → ends_with suffix (translate_newlines l) = false.
Proof.
  intros Hs Hl. destruct (ends_with suffix (translate_newlines l)) eqn:Ht; [|done].
  apply ends_with_Some in Ht as [x Hx].
  destruct (translate_ends suffix Hs l x Hx) as [l' ->].
  by rewrite ends_with_app in Hl.
Qed.

Lemma ends_in_key_eq_translate path :
  ends_in_key_eq path = false → ends_in_key_eq (translate_newlines path) = false.
Proof.
  unfold ends_in_key_eq. intros [H1 H2]%orb_false_iff.
  rewrite !ends_with_translate; first done; try done;
    apply plain_chars_decide; vm_compute; reflexivity.
Qed.

(** A text with rewritten paths that do not end in a key is read as such a
    text. *)
Lemma plain_paths_translate l :
  Forall (λ path, ends_in_key_eq path = false) (rewritten_paths l) →
  Forall (λ path, ends_in_key_eq path = false) (rewritten_paths (translate_newlines l)).
Proof.
  rewrite rewritten_paths_translate, Forall_forall. intros Hall.
  apply Forall_forall. intros p Hin.
  apply list_elem_of_In, in_map_iff in Hin as (path & <- & Hin).
  apply ends_in_key_eq_translate, Hall. by apply list_elem_of_In.
Qed.

(** The substitutions add no carriage return. *)
Lemma re_sub_no_CR prefix l :
  is_prefix prefix → Forall (λ c, c ≠ CR) l → Forall (λ c, c ≠ CR) (re_sub prefix l).
Proof.
  intros Hp. revert l. apply (scan_ind prefix (λ l, Forall (λ c, c ≠ CR) l →
                                                    Forall (λ c, c ≠ CR) (re_sub prefix l))).
  - done.
  - intros c l Hm IH [Hc Hl]%Forall_cons. rewrite re_sub_step by done.
    constructor; [done | by apply IH].
  - intros l key path rest Hm IH Hl. rewrite (re_sub_match _ _ _ _ _ Hm).
    apply attr_match_at_Some in Hm as (tail & Hk & -> & _ & _ & ->).
    unfold literal in Hl. rewrite !Forall_app in Hl.
    destruct Hl as (_ & Htail & Hrest). apply Forall_cons in Hrest as [_ Hrest].
    apply Forall_app. split; [|by apply IH].
    unfold replacement.
    replace (key ++ "="%char :: dquote :: chars PRAIRIELEARN_BASE ++ (prefix ++ tail) ++ [dquote])
      with ((key ++ "="%char :: dquote :: chars PRAIRIELEARN_BASE ++ prefix) ++ tail ++ [dquote]).
    2: { rewrite <- !app_assoc. simpl. rewrite <- ?app_assoc. done. }
    apply Forall_app. split; [|apply Forall_app; split; [done | by repeat constructor]].
    eapply Forall_impl; [by apply replacement_head_plain|]. by intros c [? _].
Qed.

Lemma fix_chars_no_CR l : Forall (λ c, c ≠ CR) l → Forall (λ c, c ≠ CR) (fix_chars l).
Proof.
  intros Hl. unfold fix_chars. apply re_sub_no_CR; [by right|].
  apply re_sub_no_CR; [by left | done].
Qed.

Lemma text_read_fix_content content :
  text_read (fix_content (text_read content)) = fix_content (text_read content).
Proof.
  unfold text_read, fix_content. rewrite !chars_of_chars. f_equal.
  apply translate_same, fix_chars_no_CR, translate_no_CR.
Qed.

Lemma fix_content_text_read_idempotent content :
  plain_paths content →
  fix_content (fix_content (text_read content)) = fix_content (text_read content).
Proof.
  intros Hplain. unfold fix_content, text_read. rewrite !chars_of_chars. f_equal.
  by apply fix_chars_idempotent, plain_paths_translate.
Qed.

(** C7 (as amended): for a text none of whose rewritten paths ends in
    [src=] or [href=], rewriting the rewritten text changes nothing, and a
    second run of [fix_html_file] on the file leaves the file system as the
    first run left it and reports no change. *)
Theorem fix_content_idempotent (content : string) :
  plain_paths content →
  fix_content (fix_content content) = fix_content content ∧
  (∀ (fs : FS) filepath,
     fs !! filepath = Some (File content) →
     fix_html_file (fix_html_file fs filepath).2 filepath
     = (false, (fix_html_file fs filepath).2)).
Proof.
  intros Hplain.
  assert (Hidem : fix_content (fix_content content) = fix_content content).
  { unfold fix_content. rewrite chars_of_chars. f_equal. by apply fix_chars_idempotent. }
  split; [done|]. intros fs filepath Hfile.
  assert (Hfirst : fix_html_file fs filepath
            = if bool_decide (fix_content (text_read content) ≠ text_read content)
              then (true, <[filepath := File (fix_content (text_read content))]> fs)
              else (false, fs)).
  { unfold fix_html_file, read_text, write_text. rewrite Hfile. fold (text_read content).
    cbv zeta. by case_bool_decide. }
  rewrite Hfirst. case_bool_decide as Hchanged; cbn [snd].
  - unfold fix_html_file, read_text. rewrite lookup_insert_eq.
    fold (text_read (fix_content (text_read content))).
    rewrite text_read_fix_content. cbv zeta.
    rewrite (fix_content_text_read_idempotent content Hplain).
    by rewrite bool_decide_eq_false_2 by (by intros []).
  - by rewrite Hfirst.
Qed.

Lemma plain_paths_decide content :
  forallb (λ path, negb (ends_in_key_eq path)) (rewritten_paths (chars content)) = true →
  plain_paths content.
Proof.
  unfold plain_paths. rewrite forallb_forall, Forall_forall.
  intros H path Hin. apply list_elem_of_In, H, negb_true_iff in Hin. done.
Qed.

Lemma fix_content_idempotent_witness :
  plain_paths sample_page ∧
  fix_content (fix_content sample_page) = fix_content sample_page.
Proof.
  assert (Hplain : plain_paths sample_page)
    by (apply plain_paths_decide; vm_compute; reflexivity).
  split; [exact Hplain|].
  apply (proj1 (fix_content_idempotent sample_page Hplain)).
Defined.

(** C7 (as stated) fails on such a text: the first run rewrites the outer
    attribute only, and the second run rewrites the inner one. *)
Lemma fix_content_not_idempotent :
  fix_content nested_ref
  = "src=" +:+ QUOTE +:+ "https://us.prairielearn.com/assets/src=" +:+ QUOTE
    +:+ "/assets/x" +:+ QUOTE ∧
  fix_content (fix_content nested_ref)
  = "src=" +:+ QUOTE +:+ "https://us.prairielearn.com/assets/src=" +:+ QUOTE
    +:+ "https://us.prairielearn.com/assets/x" +:+ QUOTE ∧
  fix_content (fix_content nested_ref) ≠ fix_content nested_ref.
Proof.
  split; [vm_compute; reflexivity|]. split; [vm_compute; reflexivity|].
  apply String.eqb_neq. vm_compute. reflexivity.
Qed.


(** *** More on the sanitizer *)

Lemma lstrip_chars_id l :
  (∀ c, head l = Some c → is_space c = false) → lstrip_chars l = l.
Proof. destruct l as [|c l]; simpl; [done|]. intros H. by rewrite (H c). Qed.

Lemma last_rev_head {A} (l : list A) : head (rev l) = last l.
Proof.
  induction l as [|x l IH] using rev_ind; [done|].
  by rewrite rev_unit, last_snoc.
Qed.

Lemma strip_chars_id l : trimmed l → strip_chars l = l.
Proof.
  intros [Hhead Hlast]. unfold strip_chars, rstrip_chars.
  rewrite (lstrip_chars_id l Hhead), lstrip_chars_id, rev_involutive; [done|].
  intros c. rewrite last_rev_head. apply Hlast.
Qed.

Lemma lstrip_chars_head l c : head (lstrip_chars l) = Some c → is_space c = false.
Proof.
  induction l as [|b l IH]; simpl; [done|].
  destruct (is_space b) eqn:Hb; [done|]. simpl. by intros [= <-].
Qed.

Lemma lstrip_chars_last l c : last (lstrip_chars l) = Some c → last l = Some c.
Proof.
  induction l as [|b l IH]; simpl; [done|].
  destruct (is_space b) eqn:Hb; [|done].
  intros H. specialize (IH H). destruct l; [done|]. done.
Qed.

Lemma lstrip_chars_nil l : lstrip_chars l = [] ↔ Forall (λ c, is_space c = true) l.
Proof.
  induction l as [|b l IH]; simpl; [by split; [constructor|]|].
  destruct (is_space b) eqn:Hb.
  - rewrite IH. split; [by constructor | by intros [_ ?]%Forall_cons].
  - split; [done|]. intros [? _]%Forall_cons. congruence.
Qed.

(** The result of [strip] is trimmed. *)
Lemma strip_chars_trimmed l : trimmed (strip_chars l).
Proof.
  unfold strip_chars, rstrip_chars. split; intros c.
  - rewrite last_rev_head. intros Hc%lstrip_chars_last.
    rewrite <- last_rev_head, rev_involutive in Hc. by apply lstrip_chars_head in Hc.
  - rewrite <- last_rev_head, rev_involutive. apply lstrip_chars_head.
Qed.

Lemma strip_chars_nil l : strip_chars l = [] ↔ Forall (λ c, is_space c = true) l.
Proof.
  unfold strip_chars, rstrip_chars. split.
  - intros H. assert (H' : lstrip_chars (rev (lstrip_chars l)) = [])
      by (by rewrite <- (rev_involutive (lstrip_chars _)), H).
    apply lstrip_chars_nil in H'.
    assert (Hall : Forall (λ c, is_space c = true) (lstrip_chars l)).
    { apply Forall_forall. intros c Hc. apply (proj1 (Forall_forall _ _) H').
      by apply list_elem_of_In, in_rev, list_elem_of_In in Hc. }
    destruct (lstrip_chars l) as [|c r] eqn:Hl; [by apply lstrip_chars_nil|].
    apply Forall_cons in Hall as [Hc _].
    assert (head (lstrip_chars l) = Some c) as Hh by (by rewrite Hl).
    apply lstrip_chars_head in Hh. congruence.
  - intros H. by rewrite (proj2 (lstrip_chars_nil l) H).
Qed.

Lemma space_is_space : is_space " "%char = true.
Proof. done. Qed.

Lemma space_to_underscore_space c : is_space (space_to_underscore c) = true → is_space c = true.
Proof. unfold space_to_underscore. by destruct (decide (c = " "%char)) as [->|]. Qed.

Lemma space_to_underscore_not_space c :
  is_space c = false → space_to_underscore c = c.
Proof.
  unfold space_to_underscore. destruct (decide (c = " "%char)) as [->|]; [|done].
  by rewrite space_is_space.
Qed.

Lemma trimmed_fmap (f : ascii → ascii) l :
  (∀ c, is_space c = false → f c = c) → trimmed l → trimmed (f <$> l).
Proof.
  intros Hf [Hhead Hlast]. split; intros c.
  - destruct l as [|b l]; [done|]. simpl. intros [= <-].
    specialize (Hhead b eq_refl). by rewrite Hf.
  - rewrite fmap_last. destruct (last l) as [b|] eqn:Hb; [|done]. simpl. intros [= <-].
    specialize (Hlast b eq_refl). by rewrite Hf.
Qed.

Lemma clean_chars_trimmed text : trimmed (clean_chars text).
Proof.
  unfold clean_chars. apply trimmed_fmap; [apply space_to_underscore_not_space|].
  apply strip_chars_trimmed.
Qed.

Lemma filter_legal_id l :
  Forall safe_char l → filter (λ c, is_illegal c = false) l = l.
Proof.
  induction 1 as [|c l [Hc _] _ IH]; [done|].
  rewrite filter_cons, decide_True by (by apply is_illegal_false). by f_equal.
Qed.

Lemma space_to_underscore_id l :
  Forall safe_char l → space_to_underscore <$> l = l.
Proof.
  induction 1 as [|c l [_ Hc] _ IH]; [done|]. simpl. f_equal; [|done].
  unfold space_to_underscore. by rewrite decide_False.
Qed.

(** On a text of safe characters that is trimmed, cleaning changes nothing. *)
Lemma clean_chars_id l :
  Forall safe_char l → trimmed l → clean_chars l = l.
Proof.
  intros Hsafe Htrim. unfold clean_chars.
  by rewrite (filter_legal_id l Hsafe), (strip_chars_id l Htrim), space_to_underscore_id.
Qed.

Lemma clean_filename_id (text : string) (max_length : Z) :
  safe_name text → trimmed (chars text) → (py_len text ≤ max_length)%Z →
  clean_filename text max_length = text.
Proof.
  intros Hsafe Htrim Hlen. unfold clean_filename.
  assert (Hall : Forall safe_char (chars text)) by (by apply Forall_forall).
  rewrite (clean_chars_id _ Hall Htrim).
  destruct (Z.gtb_spec (Z.of_nat (length (chars text))) max_length) as [Hgt|_].
  - unfold py_len in Hlen. lia.
  - apply of_chars_chars.
Qed.

(** X1: a name made of safe characters, without whitespace at its ends and
    not longer than the maximum length comes out of the sanitizer as it is. *)
Theorem clean_filename_keeps_clean_names (text : string) (max_length : Z) :
  safe_name text → trimmed (chars text) → (py_len text ≤ max_length)%Z →
  clean_filename text max_length = text.
Proof. apply clean_filename_id. Qed.

Lemma trimmed_decide l :
  match head l with Some c => negb (is_space c) | None => true end
  && match last l with Some c => negb (is_space c) | None => true end = true →
  trimmed l.
Proof.
  intros [H1 H2]%andb_true_iff. split; intros c Hc; rewrite Hc in *;
    by apply negb_true_iff.
Qed.

Lemma safe_char_decide c :
  negb (is_illegal c) && negb (bool_decide (c = " "%char)) = true → safe_char c.
Proof.
  intros [H1%negb_true_iff H2%negb_true_iff]%andb_true_iff. split.
  - by apply is_illegal_false.
  - by apply bool_decide_eq_false in H2.
Qed.

Lemma safe_name_decide s :
  forallb (λ c, negb (is_illegal c) && negb (bool_decide (c = " "%char))) (chars s) = true →
  safe_name s.
Proof.
  rewrite forallb_forall. intros H c Hc. apply safe_char_decide, H. by apply list_elem_of_In.
Qed.

Lemma clean_filename_keeps_clean_names_witness :
  safe_name "HW3_Loops" ∧ clean_filename "HW3_Loops" 80 = "HW3_Loops".
Proof.
  assert (Hsafe : safe_name "HW3_Loops") by (apply safe_name_decide; vm_compute; reflexivity).
  split; [exact Hsafe|].
  apply (clean_filename_keeps_clean_names "HW3_Loops" 80 Hsafe).
  - apply trimmed_decide. vm_compute. reflexivity.
  - vm_compute. discriminate.
Defined.

(** The output of the sanitizer is trimmed when the maximum is at least 9
    or the text is not truncated. *)
Lemma truncated_trimmed (clean : list ascii) k text :
  trimmed clean → trimmed (slice_to clean k ++ chars "_" ++ hash_suffix text).
Proof.
  intros [Hhead _]. split; intros c.
  - assert (Hpre : ∀ n, head (take n clean ++ chars "_" ++ hash_suffix text) = Some c →
                        is_space c = false).
    { intros n. destruct n as [|n]; [by intros [= <-]|].
      destruct clean as [|b r]; [by intros [= <-]|]. simpl. intros [= <-]. by apply Hhead. }
    unfold slice_to. destruct (0 <=? k)%Z; apply Hpre.
  - rewrite !app_assoc, last_app.
    pose proof (hash_suffix_length text) as Hlen.
    pose proof (hash_suffix_hex text) as Hhex.
    destruct (last (hash_suffix text)) as [d|] eqn:Hd.
    + intros [= <-]. apply last_Some_elem_of in Hd.
      apply (proj1 (Forall_forall _ _) Hhex) in Hd.
      assert (H : Forall (λ c, is_space c = false) hex_chars) by (by repeat constructor).
      by apply (proj1 (Forall_forall _ _) H).
    + apply last_None in Hd. by rewrite Hd in Hlen.
Qed.

(** The output of the sanitizer is a safe name. *)
Lemma clean_filename_safe_name (text : string) (max_length : Z) :
  safe_name (clean_filename text max_length).
Proof.
  unfold safe_name, clean_filename. intros c.
  destruct (Z.of_nat (length (clean_chars (chars text))) >? max_length)%Z;
    rewrite chars_of_chars; [|apply clean_chars_safe].
  intros [Hc|Hc]%elem_of_app.
  - apply slice_to_subseteq in Hc. by apply clean_chars_safe in Hc.
  - apply elem_of_app in Hc as [Hc|Hc].
    + apply list_elem_of_singleton in Hc as ->. by apply safe_char_decide.
    + apply hex_chars_safe.
      by apply (proj1 (Forall_forall _ _) (hash_suffix_hex text)).
Qed.

(** X2: sanitizing a sanitized name again changes nothing, for a maximum
    length of at least 9. *)
Theorem clean_filename_idempotent (text : string) (max_length : Z) :
  (9 ≤ max_length)%Z →
  clean_filename (clean_filename text max_length) max_length
  = clean_filename text max_length.
Proof.
  intros Hmax. apply clean_filename_id.
  - apply clean_filename_safe_name.
  - unfold clean_filename.
    destruct (Z.of_nat (length (clean_chars (chars text))) >? max_length)%Z;
      rewrite chars_of_chars.
    + apply truncated_trimmed, clean_chars_trimmed.
    + apply clean_chars_trimmed.
  - unfold clean_filename, py_len.
    destruct (Z.gtb_spec (Z.of_nat (length (clean_chars (chars text)))) max_length);
      rewrite chars_of_chars; [|lia].
    rewrite !length_app, hash_suffix_length. simpl.
    pose proof (slice_to_length (clean_chars (chars text)) (max_length - 9)). lia.
Qed.

Lemma clean_filename_idempotent_witness :
  (9 ≤ 12)%Z ∧
  clean_filename (clean_filename "unit 1: a/b testing" 12) 12
  = clean_filename "unit 1: a/b testing" 12.
Proof.
  split; [lia|]. apply (clean_filename_idempotent "unit 1: a/b testing" 12). lia.
Defined.

Lemma of_chars_nil l : of_chars l = "" ↔ l = [].
Proof.
  split; [|by intros ->]. intros H.
  by rewrite <- (chars_of_chars l), H.
Qed.

(** X3: for a maximum length that is not negative, the sanitizer gives the
    empty name exactly when every character of the text is path-illegal or
    whitespace. *)
Theorem clean_filename_empty (text : string) (max_length : Z) :
  (0 ≤ max_length)%Z →
  (clean_filename text max_length = "" ↔ Forall dropped_char (chars text)).
Proof.
  intros Hmax.
  assert (Hclean : clean_chars (chars text) = [] ↔ Forall dropped_char (chars text)).
  { unfold clean_chars.
    assert (Hmap : ∀ l, space_to_underscore <$> l = [] ↔ l = [])
      by (intros l; split; [apply fmap_nil_inv | by intros ->]).
    rewrite Hmap, strip_chars_nil.
    rewrite !Forall_forall. split.
    - intros H c Hc. unfold dropped_char.
      destruct (is_illegal c) eqn:Hi.
      + left. unfold is_illegal in Hi. by apply bool_decide_eq_true in Hi.
      + right. apply H, list_elem_of_filter. done.
    - intros H c [Hi Hc]%list_elem_of_filter.
      destruct (H c Hc) as [Hill|Hsp]; [|done].
      apply is_illegal_false in Hi. done. }
  rewrite <- Hclean. unfold clean_filename.
  destruct (Z.gtb_spec (Z.of_nat (length (clean_chars (chars text)))) max_length) as [Hgt|Hle].
  - rewrite of_chars_nil. split.
    + intros H. apply (f_equal length) in H.
      rewrite !length_app, hash_suffix_length in H. simpl in H. lia.
    + intros H. rewrite H in Hgt. simpl in Hgt. lia.
  - apply of_chars_nil.
Qed.

Lemma clean_filename_empty_witness :
  (0 ≤ 80)%Z ∧ clean_filename " ?:* " 80 = "".
Proof.
  split; [lia|]. apply (proj2 (clean_filename_empty " ?:* " 80 ltac:(lia))).
  apply Forall_forall. intros c Hc. apply list_elem_of_In in Hc. unfold dropped_char.
  vm_compute in Hc.
  destruct Hc as [<-|[<-|[<-|[<-|[<-|[]]]]]];
    first [by right | left; apply list_elem_of_In; vm_compute; tauto].
Defined.


(** *** More on the download with retries *)

Lemma decisive_status status content :
  (status = 200 ∨ status = 401)%Z → decisive (Response status content) = true.
Proof. by intros [-> | ->]. Qed.

(** X4: a body is returned only from an attempt that the network answered
    with status 200, the first attempt answered by 200 or 401, and that
    attempt is the last request made. *)
Theorem download_with_retry_sound (net : Net) (url : string) (cookies : Cookies)
    (max_retries : Z) (content : list Z) :
  (download_with_retry net url cookies max_retries).1 = Some content →
  ∃ k, (0 ≤ k < max_retries)%Z ∧
       net url cookies k = Response 200 content ∧
       (∀ j, (0 ≤ j < k)%Z → decisive (net url cookies j) = false) ∧
       Z.of_nat (requests (download_with_retry net url cookies max_retries).2) = (k + 1)%Z.
Proof.
  unfold download_with_retry, py_range. fold (attempts_from 0 (Z.to_nat max_retries)).
  destruct (retry_loop_spec net url cookies max_retries (Z.to_nat max_retries) 0 [])
    as (p & Hp & Hreq & _ & Hpre & Hend).
  intros Hres.
  destruct Hend as [(_ & _ & Hnone)|(q & status & c & -> & Hq & Hcase)]; [congruence|].
  rewrite Nat.add_0_l in Hq, Hcase.
  destruct Hcase as [(-> & Hsome & _)|(_ & Hnone & _)]; [|congruence].
  rewrite Hsome in Hres. injection Hres as ->.
  exists (Z.of_nat q). split; [lia|]. split; [done|]. split.
  - intros j Hj. apply Hpre. apply elem_of_attempts_from. exists (Z.to_nat j). cbn [pred]. lia.
  - rewrite Hreq. unfold requests. simpl. lia.
Qed.

(** X5: when no attempt is answered by 200 or 401, the download gives
    [None] after exactly [max_retries] requests (none for a maximum that is
    not positive). *)
Theorem download_with_retry_exhausted (net : Net) (url : string) (cookies : Cookies)
    (max_retries : Z) :
  (∀ k, (0 ≤ k < max_retries)%Z → decisive (net url cookies k) = false) →
  (download_with_retry net url cookies max_retries).1 = None ∧
  Z.of_nat (requests (download_with_retry net url cookies max_retries).2)
  = Z.max 0 max_retries.
Proof.
  intros Hnone.
  unfold download_with_retry, py_range. fold (attempts_from 0 (Z.to_nat max_retries)).
  destruct (retry_loop_spec net url cookies max_retries (Z.to_nat max_retries) 0 [])
    as (p & Hp & Hreq & _ & _ & Hend).
  destruct Hend as [(-> & _ & Hres)|(q & status & c & -> & Hq & Hcase)].
  - split; [done|]. rewrite Hreq. unfold requests. simpl. lia.
  - exfalso. rewrite Nat.add_0_l in Hq.
    assert (Hd : decisive (net url cookies (Z.of_nat q)) = false) by (apply Hnone; lia).
    rewrite Hq in Hd. rewrite decisive_status in Hd; [done|].
    destruct Hcase as [(-> & _)|(-> & _)]; [by left | by right].
Qed.

Lemma download_with_retry_exhausted_witness :
  (download_with_retry missing_net "https://us.prairielearn.com/a.png" [] MAX_RETRIES).1 = None ∧
  requests (download_with_retry missing_net "https://us.prairielearn.com/a.png" [] MAX_RETRIES).2
  = 3.
Proof.
  destruct (download_with_retry_exhausted missing_net "https://us.prairielearn.com/a.png" []
              MAX_RETRIES (λ k _, eq_refl)) as [Hres Hreq].
  split; [exact Hres|]. unfold MAX_RETRIES in *. lia.
Defined.

Lemma backoff_sum (P : Z → Prop) `{!∀ i, Decision (P i)} p :
  (foldr Z.add 0 (map (λ i, 2 ^ i) (filter P (attempts_from 0 p))) ≤ 2 ^ Z.of_nat p - 1)%Z.
Proof.
  induction p as [|p IH]; [simpl; lia|].
  rewrite attempts_from_snoc, filter_app, map_app, foldr_app. simpl.
  assert (Hfold : ∀ l a, foldr Z.add a l = (foldr Z.add 0 l + a)%Z).
  { induction l as [|x l IHl]; intros a; simpl; [lia|]. rewrite IHl. lia. }
  rewrite Hfold.
  assert (Hpow : (2 ^ Z.of_nat (S p) = 2 * 2 ^ Z.of_nat p)%Z).
  { rewrite Nat2Z.inj_succ, Z.pow_succ_r by lia. done. }
  assert (Hpos : (0 < 2 ^ Z.of_nat p)%Z) by (apply Z.pow_pos_nonneg; lia).
  rewrite filter_cons, filter_nil. destruct (decide (P (Z.of_nat p))); simpl; lia.
Qed.

(** X6: whatever the network does, the seconds slept in one download are at
    most [2 ** n - 1] for [n] requests made, so at most [2 ** max_retries - 1]
    (7 for the default of 3). *)
Theorem download_with_retry_sleep_bound (net : Net) (url : string) (cookies : Cookies)
    (max_retries : Z) :
  let run := download_with_retry net url cookies max_retries in
  (total_sleep run.2 ≤ 2 ^ Z.of_nat (requests run.2) - 1)%Z ∧
  (total_sleep run.2 ≤ 2 ^ Z.max 0 max_retries - 1)%Z.
Proof.
  intros run. subst run.
  unfold download_with_retry, py_range. fold (attempts_from 0 (Z.to_nat max_retries)).
  destruct (retry_loop_spec net url cookies max_retries (Z.to_nat max_retries) 0 [])
    as (p & Hp & Hreq & Hsl & _).
  unfold total_sleep. rewrite Hsl, Hreq. unfold requests. simpl.
  pose proof (backoff_sum (λ i, raises (net url cookies i) = true) p) as Hsum.
  split; [done|].
  etrans; [exact Hsum|].
  assert (2 ^ Z.of_nat p ≤ 2 ^ Z.max 0 max_retries)%Z; [|lia].
  apply Z.pow_le_mono_r; lia.
Qed.

Lemma download_with_retry_sound_witness :
  (download_with_retry flaky_net "https://us.prairielearn.com/a.png" [] MAX_RETRIES).1
  = Some [104; 105]%Z ∧
  ∃ k, (0 ≤ k < MAX_RETRIES)%Z ∧
       flaky_net "https://us.prairielearn.com/a.png" [] k = Response 200 [104; 105]%Z.
Proof.
  split; [reflexivity|].
  destruct (download_with_retry_sound flaky_net "https://us.prairielearn.com/a.png" []
              MAX_RETRIES [104; 105]%Z eq_refl) as (k & Hk & Hnet & _).
  exists k. split; [exact Hk | exact Hnet].
Defined.


(** *** More on the discovery *)

(** A property kept by every row holds after every listing. *)
Lemma discover_ind (P : Discovery → Prop) :
  P discovery_init →
  (∀ st row, P st → P (discover_row st row)) →
  ∀ all_rows, P (discover all_rows).
Proof.
  intros Hinit Hstep all_rows. unfold discover.
  assert (H : ∀ rows st, P st → P (discover_from st rows)).
  { induction rows as [|row rows IH]; intros st Hst; [done|].
    rewrite discover_from_cons. by apply IH, Hstep. }
  by apply H.
Qed.

Lemma candidate_of_names st row module_type link a :
  candidate_of st row module_type link = Some a →
  ∃ week_num badge_text,
    current_week_num st = Some week_num ∧ row_badge row = Some badge_text ∧
    a_week a = clean_filename_default ("Week_" +:+ py_str_of_Z week_num) ∧
    a_name a = clean_filename_default badge_text.
Proof.
  unfold candidate_of.
  destruct (current_week_num st) as [week_num|]; [|done].
  destruct (row_badge row) as [badge_text|]; [|done].
  simpl. intros [= <-]. by exists week_num, badge_text.
Qed.

(** The cursor after a row: as before, unset, or a week in 1..14. *)
Lemma discover_row_cursor st row :
  current_week_num (discover_row st row) = current_week_num st ∨
  current_week_num (discover_row st row) = None ∨
  ∃ n, current_week_num (discover_row st row) = Some n ∧ (1 ≤ n ≤ 14)%Z.
Proof.
  destruct (qualifies st row) as [[T link]|] eqn:Hq.
  { destruct (discover_row_qualifies st row T link Hq) as (a & _ & ->). by left. }
  unfold discover_row. unfold qualifies in Hq.
  destruct (row_header row) as [week_title|].
  - destruct (week_search week_title) as [n|]; [|by left].
    destruct ((1 <=? n)%Z && (n <=? 14)%Z) eqn:Hr; simpl.
    + right; right. exists n. split; [done|].
      apply andb_true_iff in Hr as [?%Z.leb_le ?%Z.leb_le]. lia.
    + by right; left.
  - left. destruct (current_week_num st) as [w|] eqn:Hc; [|by rewrite Hc].
    destruct (row_badge row) as [badge|]; [|by rewrite Hc].
    destruct (row_link row) as [link|]; [|by rewrite Hc].
    destruct (bool_decide (href link = "")); [by rewrite Hc|].
    destruct (py_in "/assessment/" (href link) || py_in "/assessment_instance/" (href link));
      [|by rewrite Hc].
    destruct (type_match badge); [done | by rewrite Hc].
Qed.

Lemma week_label_clean k :
  (1 ≤ k ≤ 14)%Z →
  clean_filename_default ("Week_" +:+ py_str_of_Z k) = "Week_" +:+ py_str_of_Z k.
Proof.
  intros Hk.
  assert (H : (k = 1 ∨ k = 2 ∨ k = 3 ∨ k = 4 ∨ k = 5 ∨ k = 6 ∨ k = 7 ∨ k = 8 ∨ k = 9 ∨
               k = 10 ∨ k = 11 ∨ k = 12 ∨ k = 13 ∨ k = 14)%Z) by lia.
  repeat (destruct H as [-> | H]; [vm_compute; reflexivity|]).
  subst. vm_compute. reflexivity.
Qed.

(** X7: after any listing the week cursor is unset or a week in 1..14, and
    the week label of every candidate is [Week_k] for a [k] in 1..14. *)
Theorem discovery_weeks (all_rows : list Row) :
  (∀ n, current_week_num (discover all_rows) = Some n → (1 ≤ n ≤ 14)%Z) ∧
  (∀ a, a ∈ temp_assessments (discover all_rows) →
        ∃ k, (1 ≤ k ≤ 14)%Z ∧ a_week a = "Week_" +:+ py_str_of_Z k).
Proof.
  apply (discover_ind (λ st,
    (∀ n, current_week_num st = Some n → (1 ≤ n ≤ 14)%Z) ∧
    (∀ a, a ∈ temp_assessments st →
          ∃ k, (1 ≤ k ≤ 14)%Z ∧ a_week a = "Week_" +:+ py_str_of_Z k))).
  - split; [done|]. intros a Ha. by apply elem_of_nil in Ha.
  - intros st row [Hcur Hweeks]. split.
    + intros n Hn.
      destruct (discover_row_cursor st row) as [Heq|[Hnone|(m & Hm & Hrange)]].
      * apply Hcur. by rewrite <- Heq.
      * congruence.
      * congruence.
    + destruct (qualifies st row) as [[T link]|] eqn:Hq.
      * destruct (discover_row_qualifies st row T link Hq) as (a0 & Ha0 & ->).
        cbn [temp_assessments]. intros a [Ha|Ha]%elem_of_app; [by apply Hweeks|].
        apply list_elem_of_singleton in Ha as ->.
        apply candidate_of_names in Ha0 as (week_num & badge & Hw & _ & Hweek & _).
        exists week_num. split; [by apply Hcur|].
        rewrite Hweek. apply week_label_clean. by apply Hcur.
      * destruct (discover_row_not_qualifies st row Hq) as [_ ->]. done.
Qed.

Lemma starts_with_app_l p : ∀ l1 l2, starts_with p l1 = true → starts_with p (l1 ++ l2) = true.
Proof.
  induction p as [|a p IH]; intros l1 l2; simpl; [done|].
  destruct l1 as [|b l1]; [done|]. simpl. destruct (decide (a = b)); [apply IH | done].
Qed.

(** X8: the URL of every candidate is absolute (it starts with [http]), and
    the week label and the name of every candidate are safe names. *)
Theorem discovery_candidates_wellformed (all_rows : list Row) (a : Assessment) :
  a ∈ temp_assessments (discover all_rows) →
  py_startswith (a_url a) "http" = true ∧ safe_name (a_week a) ∧ safe_name (a_name a).
Proof.
  revert a. apply (discover_ind (λ st, ∀ a, a ∈ temp_assessments st →
    py_startswith (a_url a) "http" = true ∧ safe_name (a_week a) ∧ safe_name (a_name a))).
  - intros a Ha. by apply elem_of_nil in Ha.
  - intros st row IH a.
    destruct (qualifies st row) as [[T link]|] eqn:Hq.
    + destruct (discover_row_qualifies st row T link Hq) as (a0 & Ha0 & ->).
      cbn [temp_assessments]. intros [Ha|Ha]%elem_of_app; [by apply IH|].
      apply list_elem_of_singleton in Ha as ->.
      pose proof (candidate_of_fields _ _ _ _ _ Ha0) as (_ & _ & _ & Hurl).
      apply candidate_of_names in Ha0 as (week_num & badge & _ & _ & -> & ->).
      split; [|split; apply clean_filename_safe_name].
      rewrite Hurl. destruct (py_startswith (href link) "http") eqn:Hh; [done|].
      unfold py_startswith. rewrite chars_app. by apply starts_with_app_l.
    + destruct (discover_row_not_qualifies st row Hq) as [_ ->]. apply IH.
Qed.

Lemma discovery_candidates_wellformed_witness :
  ∃ a, a ∈ temp_assessments (discover mixed_listing) ∧
       a_url a = "https://us.prairielearn.com/pl/course_instance/1/assessment/10" ∧
       py_startswith (a_url a) "http" = true.
Proof.
  eexists. assert (Hin : ∀ a l, temp_assessments (discover mixed_listing) = a :: l →
                               a ∈ temp_assessments (discover mixed_listing)).
  { intros a l ->. by left. }
  split; [apply (Hin _ _ eq_refl)|]. split; [reflexivity|].
  apply (discovery_candidates_wellformed mixed_listing _ (Hin _ _ eq_refl)).
Defined.

Lemma qualifies_type st row module_type link :
  qualifies st row = Some (module_type, link) →
  ∃ badge_text, type_match badge_text = Some module_type.
Proof.
  unfold qualifies.
  destruct (row_header row); [done|]. destruct (current_week_num st); [|done].
  destruct (row_badge row) as [badge_text|]; [|done].
  destruct (row_link row) as [link0|]; [|done].
  destruct (bool_decide (href link0 = "")); [done|].
  destruct (_ || _); [|done].
  destruct (type_match badge_text) as [T|] eqn:HT; [|done].
  simpl. intros [= <- _]. by exists badge_text.
Qed.

Lemma type_match_capitals badge_text module_type :
  type_match badge_text = Some module_type →
  module_type ≠ "" ∧ Forall (λ c, is_upper_az c = true) (chars module_type).
Proof.
  unfold type_match. case_bool_decide as Hnil; [done|]. intros [= <-]. split.
  - intros H. apply of_chars_nil in H. done.
  - rewrite chars_of_chars. apply take_while_Forall.
Qed.

(** X9: after any listing, a module type has an aggregate exactly when it
    has a candidate; the count of the aggregate is the number of candidates
    of the type, at least 1; and the key is a non-empty run of the capital
    letters A to Z. *)
Theorem discovery_aggregates (all_rows : list Row) (module_type : string) :
  match module_types (discover all_rows) !! module_type with
  | Some info =>
      count info
      = Z.of_nat (length (of_type module_type (temp_assessments (discover all_rows)))) ∧
      (1 ≤ count info)%Z ∧
      module_type ≠ "" ∧ Forall (λ c, is_upper_az c = true) (chars module_type)
  | None => of_type module_type (temp_assessments (discover all_rows)) = []
  end.
Proof.
  revert module_type. apply (discover_ind (λ st, ∀ T,
    match module_types st !! T with
    | Some info =>
        count info = Z.of_nat (length (of_type T (temp_assessments st))) ∧
        (1 ≤ count info)%Z ∧ T ≠ "" ∧ Forall (λ c, is_upper_az c = true) (chars T)
    | None => of_type T (temp_assessments st) = []
    end)).
  - intros T. cbn [module_types discovery_init temp_assessments]. by rewrite lookup_empty.
  - intros st row IH T.
    destruct (qualifies st row) as [[T' link]|] eqn:Hq.
    + destruct (discover_row_qualifies st row T' link Hq) as (a & Ha & ->).
      apply candidate_of_fields in Ha as (HaT & _).
      apply qualifies_type in Hq as (badge & Hcap%type_match_capitals).
      cbn [module_types temp_assessments]. rewrite of_type_snoc, HaT.
      destruct (decide (T' = T)) as [->|Hne].
      * specialize (IH T).
        destruct (module_types st !! T) as [info|] eqn:Hinfo.
        -- rewrite (types_after_later _ _ _ _ Hinfo), length_app. cbn.
           destruct IH as (Hc & Hpos & _). split; [lia|]. split; [lia | done].
        -- rewrite (types_after_first _ _ _ Hinfo), IH. cbn. split; [done|]. split; [lia | done].
      * rewrite types_after_other, app_nil_r by done. apply IH.
    + destruct (discover_row_not_qualifies st row Hq) as [-> ->]. apply IH.
Qed.


(** *** More on the selection *)

Lemma int_body_digits d : ∀ acc,
  int_body (digits_of d) acc AfterDigit = Some (uint_value d acc).
Proof.
  induction d as [|d IH|d IH|d IH|d IH|d IH|d IH|d IH|d IH|d IH|d IH]; intros acc;
    [done|..]; cbn [NilEmpty.string_of_uint uint_value];
    change (chars (String ?c ?s)) with (c :: chars s); cbn [int_body];
    match goal with |- context [is_digit ?c] => change (is_digit c) with true end;
    cbn iota; rewrite IH; f_equal; f_equal; vm_compute digit_val; lia.
Qed.

Lemma int_body_digits_start d acc :
  d ≠ Decimal.Nil →
  int_body (digits_of d) acc AtStart = Some (uint_value d acc).
Proof.
  intros Hd. rewrite <- int_body_digits. by destruct d.
Qed.

Lemma uint_value_acc d : ∀ p, uint_value d (Zpos p) = Zpos (Pos.of_uint_acc d p).
Proof.
  induction d as [|d IH|d IH|d IH|d IH|d IH|d IH|d IH|d IH|d IH|d IH]; intros p;
    [done|..]; cbn [uint_value Pos.of_uint_acc]; rewrite <- IH; f_equal; lia.
Qed.

Lemma uint_value_0 d : uint_value d 0 = Z.of_N (Pos.of_uint d).
Proof.
  induction d as [|d IH|d IH|d IH|d IH|d IH|d IH|d IH|d IH|d IH|d IH];
    [done|..]; cbn [uint_value Pos.of_uint]; [exact IH|..];
    cbn [Z.of_N]; rewrite <- uint_value_acc; f_equal.
Qed.

Lemma digits_of_digits d : Forall (λ c, is_digit c = true) (digits_of d).
Proof.
  induction d; cbn [NilEmpty.string_of_uint];
    [constructor|..]; change (chars (String ?c ?s)) with (c :: chars s); by constructor.
Qed.

Lemma digit_not_space c : is_digit c = true → is_space c = false.
Proof.
  unfold is_digit, is_space. intros [H1%Z.leb_le H2%Z.leb_le]%andb_true_iff.
  repeat match goal with
  | |- context [(?a <=? ?b)%Z] => destruct (Z.leb_spec a b)
  | |- context [(?a =? ?b)%Z] => destruct (Z.eqb_spec a b)
  end; simpl; (done || lia).
Qed.

Lemma digit_lower c : is_digit c = true → lower_char c = c.
Proof.
  unfold is_digit, lower_char. intros [H1%Z.leb_le H2%Z.leb_le]%andb_true_iff.
  repeat match goal with
  | |- context [(?a <=? ?b)%Z] => destruct (Z.leb_spec a b)
  | |- context [(?a =? ?b)%Z] => destruct (Z.eqb_spec a b)
  end; simpl; (done || lia).
Qed.

Lemma digits_trimmed l : Forall (λ c, is_digit c = true) l → trimmed l.
Proof.
  intros Hall. split; intros c Hc; apply digit_not_space.
  - destruct l as [|b l]; [done|]. simpl in Hc. injection Hc as ->.
    by apply Forall_cons in Hall as [? _].
  - apply last_Some_elem_of in Hc. by apply (proj1 (Forall_forall _ _) Hall).
Qed.

Lemma filter_digits l :
  Forall (λ c, is_digit c = true) l → filter (λ c, is_digit c = true) l = l.
Proof.
  induction 1 as [|c l Hc _ IH]; [done|]. by rewrite filter_cons, decide_True, IH.
Qed.

Lemma int_digits_digits d :
  d ≠ Decimal.Nil → (Z.of_nat (length (digits_of d)) ≤ MAX_STR_DIGITS)%Z →
  int_digits (digits_of d) = Some (uint_value d 0).
Proof.
  intros Hd Hlen. unfold int_digits.
  rewrite filter_digits by apply digits_of_digits.
  destruct (Z.ltb_spec MAX_STR_DIGITS (Z.of_nat (length (digits_of d)))); [lia|].
  by apply int_body_digits_start.
Qed.

(** [int(str(n))] for a number that is not negative and has no more digits
    than [int] reads. *)
Lemma py_int_digits d :
  d ≠ Decimal.Nil → (Z.of_nat (length (digits_of d)) ≤ MAX_STR_DIGITS)%Z →
  py_int (NilEmpty.string_of_uint d) = Some (uint_value d 0).
Proof.
  intros Hd Hlen. unfold py_int.
  rewrite strip_chars_id by apply digits_trimmed, digits_of_digits.
  rewrite <- (int_digits_digits d Hd Hlen).
  by destruct d.
Qed.

Lemma py_int_minus_digits d :
  d ≠ Decimal.Nil → (Z.of_nat (length (digits_of d)) ≤ MAX_STR_DIGITS)%Z →
  py_int (String "-" (NilEmpty.string_of_uint d)) = Some (- uint_value d 0)%Z.
Proof.
  intros Hd Hlen. unfold py_int.
  change (chars (String "-" ?s)) with ("-"%char :: chars s).
  rewrite strip_chars_id.
  - by rewrite (int_digits_digits d Hd Hlen).
  - split; intros c Hc.
    + simpl in Hc. by inversion Hc.
    + apply digit_not_space. rewrite last_cons in Hc.
      destruct (last (digits_of d)) as [b|] eqn:Hb.
      * inversion Hc; subst. apply last_Some_elem_of in Hb.
        by apply (proj1 (Forall_forall _ _) (digits_of_digits d)).
      * apply last_None in Hb. destruct d; [done | discriminate..].
Qed.

(** The value of a run of digits is at least what was read before it,
    moved to the left by the length of the run. *)
Lemma uint_value_lower d : ∀ acc,
  (0 ≤ acc → acc * 10 ^ Z.of_nat (length (digits_of d)) ≤ uint_value d acc)%Z.
Proof.
  induction d as [|d IH|d IH|d IH|d IH|d IH|d IH|d IH|d IH|d IH|d IH]; intros acc Hacc;
    [cbn; lia|..]; cbn [NilEmpty.string_of_uint uint_value];
    change (chars (String ?c ?s)) with (c :: chars s); cbn [length];
    rewrite Nat2Z.inj_succ, Z.pow_succ_r by lia;
    (etrans; [|apply IH; lia]);
    assert (HP : (0 < 10 ^ Z.of_nat (length (digits_of d)))%Z)
      by (apply Z.pow_pos_nonneg; lia);
    nia.
Qed.

Lemma nzhead_head d l : Decimal.nzhead d ≠ Decimal.D0 l.
Proof. induction d; cbn [Decimal.nzhead]; done. Qed.

(** The decimal numeral of a positive number does not begin with 0. *)
Lemma to_uint_head p l : Pos.to_uint p ≠ Decimal.D0 l.
Proof.
  intros Hp.
  pose proof (Unsigned.to_of (Pos.to_uint p)) as Hnorm.
  rewrite Unsigned.of_to in Hnorm. cbn [N.to_uint] in Hnorm.
  unfold Decimal.unorm in Hnorm.
  pose proof (nzhead_head (Pos.to_uint p)) as Hhead.
  destruct (Decimal.nzhead (Pos.to_uint p)) eqn:Hz.
  - by apply (Unsigned.to_uint_nonzero p).
  - rewrite Hnorm in Hp. by apply Hhead in Hp.
  - rewrite Hnorm in Hp. discriminate Hp.
  - rewrite Hnorm in Hp. discriminate Hp.
  - rewrite Hnorm in Hp. discriminate Hp.
  - rewrite Hnorm in Hp. discriminate Hp.
  - rewrite Hnorm in Hp. discriminate Hp.
  - rewrite Hnorm in Hp. discriminate Hp.
  - rewrite Hnorm in Hp. discriminate Hp.
  - rewrite Hnorm in Hp. discriminate Hp.
  - rewrite Hnorm in Hp. discriminate Hp.
Qed.

(** A positive number below 10 ** 4300 is written with at most 4300
    digits. *)
Lemma to_uint_length p :
  (Z.pos p < 10 ^ MAX_STR_DIGITS)%Z →
  (Z.of_nat (length (digits_of (Pos.to_uint p))) ≤ MAX_STR_DIGITS)%Z.
Proof.
  intros Hp.
  assert (Hval : uint_value (Pos.to_uint p) 0 = Z.pos p)
    by (by rewrite uint_value_0, Unsigned.of_to).
  pose proof (to_uint_head p) as Hhead.
  pose proof (Unsigned.to_uint_nonnil p) as Hnil.
  destruct (Pos.to_uint p) as [|d|d|d|d|d|d|d|d|d|d]; [done|by destruct (Hhead d)|..];
    cbn [NilEmpty.string_of_uint uint_value] in Hval |- *;
    change (chars (String ?c ?s)) with (c :: chars s); cbn [length];
    match type of Hval with uint_value _ ?k = _ =>
      assert (Hlow : (k * 10 ^ Z.of_nat (length (digits_of d)) ≤ uint_value d k)%Z)
        by (apply uint_value_lower; lia) end;
    rewrite Hval in Hlow;
    destruct (Z.le_gt_cases MAX_STR_DIGITS (Z.of_nat (length (digits_of d)))) as [Hbig|]; try lia;
    assert (Hpow : (10 ^ MAX_STR_DIGITS ≤ 10 ^ Z.of_nat (length (digits_of d)))%Z)
      by (apply Z.pow_le_mono_r; lia);
    nia.
Qed.

(** Reading with [int] what [str] wrote of an integer gives it back, for
    the integers that [int] reads: those of at most 4300 digits. *)
Lemma py_int_str (n : Z) :
  (Z.abs n < 10 ^ MAX_STR_DIGITS)%Z → py_int (py_str_of_Z n) = Some n.
Proof.
  intros Hn.
  unfold py_str_of_Z. destruct n as [|p|p]; cbn [Z.to_int NilEmpty.string_of_int].
  - reflexivity.
  - rewrite py_int_digits by (apply Unsigned.to_uint_nonnil || by apply to_uint_length).
    by rewrite uint_value_0, Unsigned.of_to.
  - rewrite py_int_minus_digits by (apply Unsigned.to_uint_nonnil || by apply to_uint_length).
    by rewrite uint_value_0, Unsigned.of_to.
Qed.

(** X10: when every token of the expression is an integer, the selection is
    never the invalid-selection error: it is the set of the entries at the
    indices in range (indices out of range, duplicates and order do not
    count), or the error of an empty selection when no index is in range. *)
Theorem select_types_by_indices (type_list : list string) (raw_input : string)
    (indices : list Z) :
  py_lower (py_strip raw_input) ≠ "all" →
  mapM token_value (tokens raw_input) = Some indices →
  select_types type_list raw_input
  = if bool_decide (entries_at type_list indices = ∅) then Rejected "No types selected!"
    else Selected (entries_at type_list indices).
Proof. apply select_types_indices. Qed.

Lemma select_types_by_indices_witness :
  mapM token_value (tokens " 2, 7,1 ,2") = Some [2; 7; 1; 2]%Z ∧
  select_types ["GA"; "HW"; "LAB"] " 2, 7,1 ,2" = Selected {["GA"; "HW"]}.
Proof.
  split; [reflexivity|].
  rewrite (select_types_by_indices ["GA"; "HW"; "LAB"] " 2, 7,1 ,2" [2; 7; 1; 2]%Z);
    [|discriminate | reflexivity].
  vm_compute. reflexivity.
Defined.

Lemma split_on_absent sep l : sep ∉ l → split_on sep l = [l].
Proof.
  induction l as [|c l IH]; intros Hno; [done|]. simpl.
  rewrite decide_False by (intros ->; apply Hno; by left).
  rewrite IH; [done|]. intros H. apply Hno. by right.
Qed.

(** A text of digits is one token, as it stands. *)
Lemma digits_token s :
  Forall (λ c, is_digit c = true) (chars s) → s ≠ "" →
  py_lower (py_strip s) = s ∧ s ≠ "all" ∧ tokens s = [s].
Proof.
  intros Hdig Hne.
  assert (Hstrip : py_strip s = s).
  { unfold py_strip. rewrite strip_chars_id by by apply digits_trimmed. apply of_chars_chars. }
  assert (Hlower : py_lower s = s).
  { unfold py_lower. rewrite <- (of_chars_chars s) at 2. f_equal.
    induction Hdig as [|c l Hc _ IH]; [done|]. simpl. by rewrite (digit_lower c Hc), IH. }
  split; [by rewrite Hstrip, Hlower|]. split.
  - intros ->. apply Forall_cons in Hdig as [Ha _]. done.
  - unfold tokens. rewrite Hstrip, Hlower. unfold py_split_comma.
    rewrite split_on_absent; [simpl; by rewrite of_chars_chars|].
    intros Hin. by apply (proj1 (Forall_forall _ _) Hdig) in Hin.
Qed.

(** X11: entering the number shown beside a type selects that type alone:
    for the entry at position [i] (from 0) of a list of fewer than
    10 ** 4300 entries (the numbers that [int] reads), the expression
    [str(i + 1)] gives the set of that entry. *)
Theorem select_types_by_shown_number (type_list : list string) (i : nat) (T : string) :
  (Z.of_nat (length type_list) < 10 ^ MAX_STR_DIGITS)%Z →
  type_list !! i = Some T →
  select_types type_list (py_str_of_Z (Z.of_nat i + 1)) = Selected {[T]}.
Proof.
  intros Hshort HT.
  assert (Hint : py_int (py_str_of_Z (Z.of_nat i + 1)) = Some (Z.of_nat i + 1)%Z).
  { apply py_int_str. apply lookup_lt_Some in HT. lia. }
  set (s := py_str_of_Z (Z.of_nat i + 1)) in *.
  assert (Hdig : Forall (λ c, is_digit c = true) (chars s) ∧ s ≠ "").
  { subst s. unfold py_str_of_Z.
    destruct (Z.of_nat i + 1)%Z as [|p|p] eqn:Hp; [lia| |lia].
    cbn [Z.to_int NilEmpty.string_of_int]. split; [apply digits_of_digits|].
    assert (Hnn := Unsigned.to_uint_nonnil p).
    destruct (Pos.to_uint p); [done | discriminate..]. }
  destruct Hdig as [Hdig Hne].
  destruct (digits_token s Hdig Hne) as (Hnorm & Hall & Htok).
  assert (Hstrip : py_strip s = s).
  { unfold py_strip. rewrite strip_chars_id by by apply digits_trimmed. apply of_chars_chars. }
  rewrite (select_types_indices type_list s [(Z.of_nat i + 1)%Z]).
  - unfold entries_at. cbn [omap list_omap].
    rewrite decide_True.
    + replace (Z.to_nat (Z.of_nat i + 1 - 1)) with i by lia. rewrite HT. cbn.
      rewrite !union_empty_r_L, bool_decide_eq_false_2; [done|].
      apply non_empty_singleton_L.
    + unfold in_range. apply lookup_lt_Some in HT. lia.
  - by rewrite Hnorm.
  - rewrite Htok. cbn. unfold token_value. by rewrite Hstrip, Hint.
Qed.

Lemma select_types_by_shown_number_witness :
  (Z.of_nat (length ["GA"; "HW"; "LAB"]) < 10 ^ MAX_STR_DIGITS)%Z ∧
  ["GA"; "HW"; "LAB"] !! 1 = Some "HW" ∧
  select_types ["GA"; "HW"; "LAB"] "2" = Selected {["HW"]}.
Proof.
  assert (Hshort : (Z.of_nat (length ["GA"; "HW"; "LAB"]) < 10 ^ MAX_STR_DIGITS)%Z)
    by (vm_compute; reflexivity).
  split; [exact Hshort|]. split; [reflexivity|].
  apply (select_types_by_shown_number ["GA"; "HW"; "LAB"] 1 "HW" Hshort). reflexivity.
Defined.

Lemma list_to_set_sorted_keys (d : gmap string ModuleType) :
  list_to_set (sorted_keys d) = dom d.
Proof.
  apply set_eq. intros k. rewrite elem_of_list_to_set, sorted_keys_elem. by rewrite elem_of_dom.
Qed.

(** X12: the list of types shown to the operator is sorted, has no
    duplicate, and holds exactly the keys of the available types. *)
Theorem sorted_keys_listing (d : gmap string ModuleType) :
  Sorted String.le (sorted_keys d) ∧ NoDup (sorted_keys d) ∧
  (∀ k, k ∈ sorted_keys d ↔ is_Some (d !! k)) ∧
  length (sorted_keys d) = size d.
Proof.
  split; [apply Sorted_merge_sort, _|]. split; [|split].
  - unfold sorted_keys. rewrite merge_sort_Permutation. apply NoDup_elements.
  - apply sorted_keys_elem.
  - unfold sorted_keys. rewrite merge_sort_Permutation.
    rewrite <- size_dom. done.
Qed.

(** X13: the expression [all], in any case and with whitespace around it,
    selects exactly the available types when there is one. *)
Theorem selection_all (types : gmap string ModuleType) (raw_input : string) :
  py_lower (py_strip raw_input) = "all" →
  available_types types ≠ ∅ →
  selection_phase types raw_input = Selected (dom (available_types types)).
Proof.
  intros Hall Hne. unfold selection_phase.
  rewrite (bool_decide_eq_false_2 _ Hne). unfold select_types. rewrite Hall.
  rewrite (bool_decide_eq_true_2 ("all" = "all")) by done.
  rewrite list_to_set_sorted_keys.
  rewrite bool_decide_eq_false_2; [done|].
  intros Hdom. apply Hne. by apply dom_empty_iff_L.
Qed.

Lemma selection_all_witness :
  py_lower (py_strip "  ALL ") = "all" ∧
  selection_phase two_types "  ALL " = Selected {["HW"; "LAB"]}.
Proof.
  split; [reflexivity|].
  rewrite (selection_all two_types "  ALL " eq_refl).
  - vm_compute. reflexivity.
  - intros H. assert (Hl : available_types two_types !! "HW" = None) by (by rewrite H).
    vm_compute in Hl. discriminate.
Defined.


(** *** The scan of an assessment page *)

Lemma scan_state_snoc rows row :
  scan_state (rows ++ [row]) = scan_question_row (scan_state rows) row.
Proof. unfold scan_state. by rewrite fold_left_app. Qed.

Lemma scan_question_row_cases st row :
  scan_question_row st row = st ∨
  (∃ category, names_category row category ∧ scan_question_row st row = (category, st.2)) ∨
  (∃ q, holds_question row q ∧ q_category q = st.1 ∧
        scan_question_row st row = (st.1, st.2 ++ [q])).
Proof.
  destruct st as [cat qs]. unfold scan_question_row.
  destruct (qrow_th row) as [category_text|] eqn:Hth.
  - destruct (py_in "Question" category_text) eqn:H1; [by left|].
    destruct (py_in "Value" category_text) eqn:H2; [by left|].
    case_bool_decide as H3; simpl; [by left|].
    right; left. eexists. split; [|done]. by exists category_text.
  - destruct (qrow_link row) as [[link_href text]|] eqn:Hlink; [|by left].
    case_bool_decide as H1; simpl; [by left|].
    destruct (py_in "/instance_question/" link_href) eqn:H2; [|by left].
    right; right.
    exists {| q_category := cat; q_title := clean_filename_default text;
              q_url := SITE +:+ link_href |}.
    split; [by exists link_href, text | done].
Qed.

(** What the scan has read after some rows. *)
Lemma scan_state_spec rows :
  ((scan_state rows).1 = "General" ∨
   ∃ row, row ∈ rows ∧ names_category row (scan_state rows).1) ∧
  (∀ q, q ∈ (scan_state rows).2 →
     (∃ row, row ∈ rows ∧ holds_question row q) ∧
     (q_category q = "General" ∨ ∃ row, row ∈ rows ∧ names_category row (q_category q))) ∧
  length (scan_state rows).2 ≤ length rows.
Proof.
  induction rows as [|row rows (Hcat & Hqs & Hlen)] using rev_ind.
  { split; [by left|]. split; [|done]. intros q Hq. by apply elem_of_nil in Hq. }
  rewrite scan_state_snoc, length_app. simpl.
  assert (Hmono : ∀ category, (category = "General" ∨
                     ∃ r, r ∈ rows ∧ names_category r category) →
                   category = "General" ∨ ∃ r, r ∈ rows ++ [row] ∧ names_category r category).
  { intros c [?|(r & Hr & ?)]; [by left|]. right. exists r. split; [|done].
    apply elem_of_app. by left. }
  assert (Hold : ∀ q, q ∈ (scan_state rows).2 →
     (∃ r, r ∈ rows ++ [row] ∧ holds_question r q) ∧
     (q_category q = "General" ∨ ∃ r, r ∈ rows ++ [row] ∧ names_category r (q_category q))).
  { intros q Hq. destruct (Hqs q Hq) as [(r & Hr & Hrq) Hc]. split; [|by apply Hmono].
    exists r. split; [|done]. apply elem_of_app. by left. }
  assert (Hrow : row ∈ rows ++ [row]) by (apply elem_of_app; right; by left).
  destruct (scan_question_row_cases (scan_state rows) row)
    as [->|[(category & Hname & ->)|(q0 & Hq0 & Hcat0 & ->)]]; cbn [fst snd].
  - split; [by apply Hmono|]. split; [done | lia].
  - split; [right; by exists row|]. split; [done | lia].
  - split; [by apply Hmono|]. split; [|rewrite length_app; simpl; lia].
    intros q [Hq|Hq]%elem_of_app; [by apply Hold|].
    apply list_elem_of_singleton in Hq as ->. split; [by exists row|].
    rewrite Hcat0. by apply Hmono.
Qed.

(** X14: every question that the scan of an assessment page gives comes from
    a row with a link to a question: its URL is the site followed by the
    [href], its title is the sanitized link text, and its category is
    [General] or the sanitized text of a category row of the page; title and
    category are safe names, and there are at most as many questions as rows. *)
Theorem scan_questions_wellformed (rows : list QuestionRow) :
  (∀ q, q ∈ scan_questions rows →
     (∃ row, row ∈ rows ∧ holds_question row q) ∧
     (q_category q = "General" ∨ ∃ row, row ∈ rows ∧ names_category row (q_category q)) ∧
     safe_name (q_title q) ∧ safe_name (q_category q) ∧
     py_startswith (q_url q) SITE = true) ∧
  length (scan_questions rows) ≤ length rows.
Proof.
  destruct (scan_state_spec rows) as (_ & Hqs & Hlen). split; [|exact Hlen].
  intros q Hq. destruct (Hqs q Hq) as [(row & Hrow & Hhold) Hcat].
  split; [by exists row|]. split; [done|].
  destruct Hhold as (link_href & text & _ & _ & _ & _ & Htitle & Hurl).
  split; [rewrite Htitle; apply clean_filename_safe_name|]. split.
  - destruct Hcat as [-> | (r & _ & (t & _ & _ & _ & _ & ->))].
    + by apply safe_name_decide.
    + apply clean_filename_safe_name.
  - rewrite Hurl. unfold py_startswith. rewrite chars_app. apply starts_with_app.
Qed.

(** *** The layout of the output tree *)

Lemma slash_illegal : "/"%char ∈ illegal_chars.
Proof. apply list_elem_of_In. vm_compute. tauto. Qed.

Lemma component_no_slash s : component s → py_startswith s "/" = false ∧ open_dir s.
Proof.
  intros [Hsafe Hne]. split; [|split; [done|]].
  - unfold py_startswith. destruct (chars s) as [|c l] eqn:Hs; [done|]. simpl.
    destruct (decide ("/"%char = c)) as [<-|]; [|done].
    destruct (Hsafe "/"%char) as [Hill _]; [rewrite Hs; by left|].
    by destruct (Hill slash_illegal).
  - intros Hlast. apply last_Some_elem_of in Hlast.
    destruct (Hsafe "/"%char Hlast) as [Hill _]. by destruct (Hill slash_illegal).
Qed.

Lemma join2_component path b :
  open_dir path → component b →
  join2 path b = path +:+ "/" +:+ b ∧ open_dir (path +:+ "/" +:+ b).
Proof.
  intros [Hne Hlast] Hb. destruct (component_no_slash b Hb) as [Hstart [Hbne Hblast]].
  split.
  - unfold join2. rewrite Hstart.
    rewrite bool_decide_eq_false_2 by done. by rewrite bool_decide_eq_false_2.
  - split.
    + intros H. apply (f_equal chars) in H. rewrite chars_app in H.
      apply app_eq_nil in H as [H _]. apply Hne. by rewrite <- (of_chars_chars path), H.
    + rewrite !chars_app, !app_assoc, last_app.
      destruct (last (chars b)) eqn:Hb'; [done|].
      apply last_None in Hb'. destruct Hbne. by rewrite <- (of_chars_chars b), Hb'.
Qed.

Lemma join2_file path name :
  open_dir path → py_startswith name "/" = false →
  join2 path name = path +:+ "/" +:+ name.
Proof.
  intros [Hne Hlast] Hstart. unfold join2. rewrite Hstart.
  rewrite bool_decide_eq_false_2 by done. by rewrite bool_decide_eq_false_2.
Qed.

(** X15: when the output directory is not empty and does not end with a
    slash, and the week label, the assessment name, the category and the
    title are safe names that are not empty, the folder of a question is
    [output_dir/week/name/category/title], and the page, the screenshot and
    the images folder are [index.html], [render.png] and [images] in it. *)
Theorem question_folder_layout (output_dir : string) (assess : Assessment) (q : Question) :
  open_dir output_dir →
  component (a_week assess) → component (a_name assess) →
  component (q_category q) → component (q_title q) →
  let folder := question_folder_of output_dir assess q in
  folder = output_dir +:+ "/" +:+ a_week assess +:+ "/" +:+ a_name assess +:+ "/"
           +:+ q_category q +:+ "/" +:+ q_title q ∧
  path_join folder ["index.html"] = folder +:+ "/index.html" ∧
  path_join folder ["render.png"] = folder +:+ "/render.png" ∧
  path_join folder ["images"] = folder +:+ "/images".
Proof.
  intros Hdir Hweek Hname Hcat Htitle folder. subst folder.
  unfold question_folder_of, path_join. cbn [fold_left].
  destruct (join2_component _ _ Hdir Hweek) as [-> H1].
  destruct (join2_component _ _ H1 Hname) as [-> H2].
  destruct (join2_component _ _ H2 Hcat) as [-> H3].
  destruct (join2_component _ _ H3 Htitle) as [-> H4].
  assert (Happ : ∀ a b c, (a +:+ b) +:+ c = a +:+ b +:+ c).
  { intros a b c. induction a as [|x a IH]; [done|].
    change (String x ((a +:+ b) +:+ c) = String x (a +:+ b +:+ c)). by rewrite IH. }
  split; [by rewrite !Happ|].
  rewrite !(join2_file _ _ H4) by done. done.
Qed.

Lemma component_decide s :
  forallb (λ c, negb (is_illegal c) && negb (bool_decide (c = " "%char))) (chars s)
  && negb (bool_decide (s = "")) = true →
  component s.
Proof.
  intros [H1 H2%negb_true_iff%bool_decide_eq_false]%andb_true_iff.
  split; [by apply safe_name_decide | done].
Qed.

Lemma question_folder_layout_witness :
  component (q_title q_part_b) ∧
  question_folder_of "out" hw1 q_part_b = "out/Week_1/HW1/Part_B/Q1" ∧
  path_join (question_folder_of "out" hw1 q_part_b) ["index.html"]
  = "out/Week_1/HW1/Part_B/Q1/index.html".
Proof.
  assert (Hdir : open_dir "out") by (split; vm_compute; discriminate).
  assert (Hweek : component (a_week hw1)) by (apply component_decide; reflexivity).
  assert (Hname : component (a_name hw1)) by (apply component_decide; reflexivity).
  assert (Hcat : component (q_category q_part_b)) by (apply component_decide; reflexivity).
  assert (Htitle : component (q_title q_part_b)) by (apply component_decide; reflexivity).
  destruct (question_folder_layout "out" hw1 q_part_b Hdir Hweek Hname Hcat Htitle)
    as (Hfolder & Hindex & _).
  split; [done|]. split.
  - rewrite Hfolder. reflexivity.
  - rewrite Hindex, Hfolder. reflexivity.
Defined.


(** *** Invariants of the crawl driver *)

Section Frame.
Context {B : Type} (E : Env B).
Context (R : World B → World B → Prop).
Context (Hrefl : ∀ w, R w w) (Htrans : ∀ w1 w2 w3, R w1 w2 → R w2 w3 → R w1 w3).

Lemma preserves_ret {A} (a : A) : preserves R (ret a).
Proof. intros w. apply Hrefl. Qed.

Lemma preserves_raise {A} e : preserves R (raise (A:=A) e).
Proof. intros w. apply Hrefl. Qed.

Lemma preserves_bind {A C} (m : M B A) (k : A → M B C) :
  preserves R m → (∀ a, preserves R (k a)) → preserves R (bind m k).
Proof.
  intros Hm Hk w. unfold bind. specialize (Hm w).
  destruct (m w) as [[a|e] w1]; simpl in *; [|done].
  eapply Htrans; [exact Hm | apply Hk].
Qed.

Lemma preserves_try {A} (m : M B A) (h : string → M B A) :
  preserves R m → (∀ e, preserves R (h e)) → preserves R (try_except m h).
Proof.
  intros Hm Hh w. unfold try_except. specialize (Hm w).
  destruct (m w) as [[a|e] w1]; simpl in *; [done|].
  eapply Htrans; [exact Hm | apply Hh].
Qed.

Lemma preserves_for_each {A} (l : list A) (body : A → M B unit) :
  (∀ x, x ∈ l → preserves R (body x)) → preserves R (for_each l body).
Proof.
  induction l as [|x l IH]; intros Hbody; simpl; [apply preserves_ret|].
  apply preserves_bind; [apply Hbody; by left|]. intros _.
  apply IH. intros y Hy. apply Hbody. by right.
Qed.

(** The relation allows any change of the log, the browser and the files. *)
Context (Hlog : ∀ lv msg, preserves R (log lv msg)).
Context (Hbrowser : ∀ b w, R w (with_browser b w)).
Context (Hfs : ∀ fs w, R w (with_fs fs w)).

Lemma preserves_click btn : preserves R (click E btn).
Proof. intros w. unfold click. destruct (env_click E (w_browser w) btn). apply Hbrowser. Qed.

Lemma preserves_download html_content question_folder :
  preserves R (download_images E html_content question_folder).
Proof. intros w. unfold download_images. destruct (env_download_images E _ _ _ _). apply Hfs. Qed.

Lemma preserves_makedirs path : preserves R (makedirs E path).
Proof. intros w. unfold makedirs. destruct (env_makedirs E _ _). apply Hfs. Qed.

Lemma preserves_write path content : preserves R (write_file E path content).
Proof. intros w. unfold write_file. destruct (env_write E _ _ _). apply Hfs. Qed.

Lemma preserves_screenshot filepath : preserves R (take_full_page_screenshot E filepath).
Proof.
  intros w. unfold take_full_page_screenshot.
  destruct (env_screenshot E _ _ _) as [[r b] fs]. simpl.
  eapply Htrans; [apply (Hbrowser b) | apply Hfs].
Qed.

Lemma preserves_page_source : preserves R (page_source E).
Proof. intros w. apply Hrefl. Qed.

Lemma preserves_page_rows : preserves R (page_rows E).
Proof. intros w. apply Hrefl. Qed.

Lemma preserves_current_url : preserves R (current_url E).
Proof. intros w. apply Hrefl. Qed.

Lemma preserves_expand : preserves R (expand_answer_panel E).
Proof.
  unfold expand_answer_panel.
  apply preserves_try; [|intros; apply preserves_ret].
  apply preserves_bind; [intros w; apply Hrefl|]. intros buttons.
  apply preserves_for_each. intros btn _.
  apply preserves_bind; [intros w; apply Hrefl|]. intros text.
  destruct (_ || _); [|apply preserves_ret].
  apply preserves_try; [apply preserves_click | intros; apply preserves_ret].
Qed.

Lemma preserves_check_session : preserves R (check_session_valid E).
Proof.
  unfold check_session_valid.
  apply preserves_try; [|intros; apply preserves_ret].
  apply preserves_bind; [apply preserves_current_url|]. intros url.
  destruct (_ || _); [|apply preserves_ret].
  apply preserves_bind; [apply Hlog | intros; apply preserves_ret].
Qed.

Lemma preserves_folder_complete question_folder :
  preserves R (folder_complete (B:=B) question_folder).
Proof.
  unfold folder_complete.
  apply preserves_bind; [intros w; apply Hrefl|]. intros fs.
  destruct (validate_html_file _ _); [|apply preserves_ret].
  apply preserves_bind; [|intros; apply preserves_ret].
  destruct (negb _); [apply preserves_ret|].
  destruct (listdir _ _); [apply preserves_ret | apply preserves_raise].
Qed.

Lemma preserves_after_get question_id question_folder :
  preserves R (add_completed question_id) →
  preserves R (after_get E question_id question_folder).
Proof.
  intros Hadd. unfold after_get.
  apply preserves_bind; [apply preserves_expand | intros _].
  apply preserves_bind; [apply preserves_page_source | intros source].
  apply preserves_bind; [apply preserves_download | intros html].
  apply preserves_bind; [apply preserves_makedirs | intros _].
  apply preserves_bind; [apply preserves_write | intros _].
  apply preserves_bind; [apply preserves_screenshot | intros _].
  apply Hadd.
Qed.

(** The relation allows the visit of the URLs in [P] and the recording of
    the keys in [Q]. *)
Context (P Q : string → Prop).
Context (Hget : ∀ url, P url → preserves R (driver_get E url)).
Context (Hadd : ∀ question_id, Q question_id → preserves R (add_completed question_id)).

Lemma preserves_question_body output_dir assess total q_idx q :
  P (q_url q) → Q (question_id_of assess q) →
  preserves R (question_body E output_dir assess total q_idx q).
Proof.
  intros Hp Hq. unfold question_body.
  apply preserves_bind; [apply preserves_folder_complete | intros complete].
  destruct complete.
  - apply preserves_bind; [apply Hlog | intros _]. by apply Hadd.
  - apply preserves_bind; [apply Hlog | intros _].
    apply preserves_bind; [by apply Hget | intros _].
    apply (preserves_after_get (question_id_of assess q) (question_folder_of output_dir assess q)).
    by apply Hadd.
Qed.

Lemma preserves_process_question output_dir assess total iq :
  P (q_url iq.2) → Q (question_id_of assess iq.2) →
  preserves R (process_question E output_dir assess total iq).
Proof.
  destruct iq as [q_idx q]. intros Hp Hq. unfold process_question.
  apply preserves_bind; [intros w; apply Hrefl | intros completed].
  destruct (bool_decide _); [apply Hlog|].
  apply preserves_try; [by apply preserves_question_body | intros e; apply Hlog].
Qed.

Lemma elem_of_enumerate1 {A} (l : list A) (ix : Z * A) : ix ∈ enumerate1 l → ix.2 ∈ l.
Proof.
  unfold enumerate1. intros (i & x & -> & Hx)%elem_of_lookup_imap.
  simpl. by eapply list_elem_of_lookup_2.
Qed.

Lemma preserves_question_loop output_dir assess questions_to_scrape :
  (∀ q, q ∈ questions_to_scrape → P (q_url q) ∧ Q (question_id_of assess q)) →
  preserves R (question_loop E output_dir assess questions_to_scrape).
Proof.
  intros Hqs. unfold question_loop. apply preserves_for_each.
  intros iq Hiq%elem_of_enumerate1. destruct (Hqs _ Hiq).
  by apply preserves_process_question.
Qed.

Lemma preserves_assessment_loop output_dir total todo :
  (∀ ia, ia ∈ todo → P (a_url ia.2)) →
  (∀ rows q, q ∈ scan_questions rows → P (q_url q)) →
  (∀ question_id, Q question_id) →
  preserves R (assessment_loop E output_dir total todo).
Proof.
  intros Htodo Hscan Hall.
  induction todo as [|[assess_idx assess] rest IH]; simpl; [apply preserves_ret|].
  assert (IH' : preserves R (assessment_loop E output_dir total rest)).
  { apply IH. intros ia Hia. apply Htodo. by right. }
  apply preserves_bind; [apply Hlog | intros _].
  apply preserves_bind; [apply preserves_check_session | intros valid].
  destruct valid; simpl; [|apply Hlog].
  apply preserves_bind.
  { apply preserves_try.
    - apply preserves_bind; [|intros; apply preserves_ret].
      apply Hget. apply (Htodo (assess_idx, assess)). by left.
    - intros e. apply preserves_bind; [apply Hlog | intros; apply preserves_ret]. }
  intros loaded. destruct loaded; simpl; [|exact IH'].
  apply preserves_bind; [apply preserves_page_rows | intros rows].
  apply preserves_bind; [apply Hlog | intros _].
  apply preserves_bind; [|intros _; exact IH'].
  apply preserves_question_loop. intros q Hq. split; [by eapply Hscan | apply Hall].
Qed.

End Frame.

Section Invariants.
Context {B : Type} (E : Env B).

Lemma only_browser_refl (w : World B) : only_browser w w.
Proof. done. Qed.

Lemma only_browser_trans (w1 w2 w3 : World B) :
  only_browser w1 w2 → only_browser w2 w3 → only_browser w1 w3.
Proof. unfold only_browser. intros (-> & -> & -> & ->) (-> & -> & -> & ->). done. Qed.

Lemma completed_grows_refl (w : World B) : completed_grows w w.
Proof. unfold completed_grows. set_solver. Qed.

Lemma completed_grows_trans (w1 w2 w3 : World B) :
  completed_grows w1 w2 → completed_grows w2 w3 → completed_grows w1 w3.
Proof. unfold completed_grows. set_solver. Qed.

Lemma completed_within_refl ids (w : World B) : completed_within ids w w.
Proof. unfold completed_within. set_solver. Qed.

Lemma completed_within_trans ids (w1 w2 w3 : World B) :
  completed_within ids w1 w2 → completed_within ids w2 w3 → completed_within ids w1 w3.
Proof.
  unfold completed_within. intros H12 H23. etrans; [exact H23|].
  apply union_subseteq. split; [exact H12 | apply union_subseteq_r].
Qed.

Lemma visits_refl P (w : World B) : visits P w w.
Proof. exists []. by rewrite app_nil_r. Qed.

Lemma visits_trans P (w1 w2 w3 : World B) : visits P w1 w2 → visits P w2 w3 → visits P w1 w3.
Proof.
  intros (v1 & H1 & Hv1) (v2 & H2 & Hv2). exists (v1 ++ v2).
  split; [by rewrite H2, H1, app_assoc | by apply Forall_app].
Qed.

Lemma visits_get (P : string → Prop) url : P url → preserves (visits P) (driver_get E url).
Proof.
  intros Hp w. exists [url]. split; [apply driver_get_navigates|]. by apply Forall_singleton.
Qed.

(** The completed set through the body of a question. *)
Lemma adds_bind {A} question_id (m : M B A) (k : A → M B unit) :
  preserves (λ w w', w_completed w' = w_completed w) m →
  (∀ a, adds_on_success question_id (k a)) →
  adds_on_success question_id (bind m k).
Proof.
  intros Hm Hk w. unfold bind. specialize (Hm w).
  destruct (m w) as [[a|e] w1]; simpl in *; [|done].
  specialize (Hk a w1). destruct (k a w1).1; by rewrite Hk, Hm.
Qed.

Lemma adds_add_completed question_id : adds_on_success (B:=B) question_id (add_completed question_id).
Proof. done. Qed.

Lemma question_body_adds output_dir assess total q_idx q :
  adds_on_success (question_id_of assess q) (question_body E output_dir assess total q_idx q).
Proof.
  set (K := λ w w' : World B, w_completed w' = w_completed w).
  assert (Hrefl : ∀ w, K w w) by done.
  assert (Htrans : ∀ w1 w2 w3, K w1 w2 → K w2 w3 → K w1 w3) by (unfold K; congruence).
  assert (Hlog : ∀ lv msg, preserves K (log lv msg)) by done.
  assert (Hbrowser : ∀ b w, K w (with_browser b w)) by done.
  assert (Hfs : ∀ fs w, K w (with_fs fs w)) by done.
  unfold question_body.
  apply adds_bind; [by apply preserves_folder_complete | intros complete].
  destruct complete.
  - apply adds_bind; [apply Hlog | intros _]. apply adds_add_completed.
  - apply adds_bind; [apply Hlog | intros _].
    apply adds_bind.
    { intros w. unfold K, driver_get. by destruct (env_get E _ _). }
    intros _.
    apply adds_bind; [by apply preserves_expand | intros _].
    apply adds_bind; [by apply preserves_page_source | intros source].
    apply adds_bind; [by apply preserves_download | intros html].
    apply adds_bind; [by apply preserves_makedirs | intros _].
    apply adds_bind; [by apply preserves_write | intros _].
    apply adds_bind; [by apply preserves_screenshot | intros _].
    apply adds_add_completed.
Qed.

(** Buttons whose text names no answer panel are not clicked. *)
Lemma quiet_buttons (buttons : list (outcome string * nat)) (w : World B) :
  Forall (λ btn, ∃ text, btn.1 = Ok text ∧
            py_in "correct answer" (py_lower text) = false ∧
            py_in "solution" (py_lower text) = false ∧
            py_in "submission" (py_lower text) = false) buttons →
  for_each buttons (λ btn,
    text <- (λ w, (btn.1, w)) ;;
    let text := py_lower text in
    if py_in "correct answer" text || py_in "solution" text || py_in "submission" text
    then try_except (click E btn.2) (λ _, ret tt)
    else ret tt) w
  = (Ok tt, w).
Proof.
  induction 1 as [|btn buttons (text & Htext & H1 & H2 & H3) _ IH]; [done|].
  cbn [for_each]. unfold bind at 1. unfold bind at 1. rewrite Htext. cbv zeta.
  rewrite H1, H2, H3. exact IH.
Qed.

(** X16: [expand_answer_panel] never raises and changes nothing but the
    browser: the files, the navigations, the completed set and the log stay
    as they were.  When the buttons cannot be listed, or no button text
    names an answer panel, the browser stays as it was too. *)
Theorem expand_answer_panel_frame (w : World B) :
  let r := expand_answer_panel E w in
  r.1 = Ok tt ∧ only_browser w r.2 ∧
  (match env_buttons E (w_browser w) with
   | Exc _ => r.2 = w
   | Ok buttons =>
       Forall (λ btn, ∃ text, btn.1 = Ok text ∧
                 py_in "correct answer" (py_lower text) = false ∧
                 py_in "solution" (py_lower text) = false ∧
                 py_in "submission" (py_lower text) = false) buttons →
       r.2 = w
   end).
Proof.
  cbv zeta. split; [|split].
  - destruct (never_raises_try
      (buttons <- (λ w, (env_buttons E (w_browser w), w)) ;;
       for_each buttons (λ btn,
         text <- (λ w, (btn.1, w)) ;;
         let text := py_lower text in
         if py_in "correct answer" text || py_in "solution" text || py_in "submission" text
         then try_except (click E btn.2) (λ _, ret tt)
         else ret tt))
      (λ _, ret tt) (λ e, never_raises_ret (B:=B) tt) w) as [[] H].
    exact H.
  - apply (preserves_expand E only_browser only_browser_refl only_browser_trans); done.
  - destruct (env_buttons E (w_browser w)) as [buttons|e] eqn:Hb.
    + intros Hquiet. unfold expand_answer_panel. unfold try_except at 1. unfold bind at 1.
      rewrite Hb. by rewrite quiet_buttons.
    + unfold expand_answer_panel. unfold try_except at 1. unfold bind at 1. by rewrite Hb.
Qed.

Ltac same_completed :=
  unfold preserves; intros; unfold completed_grows, completed_within; cbn;
  first [reflexivity | apply union_subseteq_l].
Ltac same_navigations := unfold preserves; intros; exists []; cbn; by rewrite app_nil_r.

Lemma completed_grows_get url : preserves completed_grows (driver_get E url).
Proof. intros w. unfold completed_grows, driver_get. by destruct (env_get E _ _). Qed.

Lemma completed_grows_add question_id :
  preserves (B:=B) completed_grows (add_completed question_id).
Proof. intros w. unfold completed_grows. cbn. apply union_subseteq_r. Qed.

Lemma completed_grows_question_loop output_dir assess questions_to_scrape :
  preserves completed_grows (question_loop E output_dir assess questions_to_scrape).
Proof.
  apply (preserves_question_loop E completed_grows completed_grows_refl completed_grows_trans)
    with (P := λ _, True) (Q := λ _, True).
  - same_completed.
  - same_completed.
  - same_completed.
  - intros url _. apply completed_grows_get.
  - intros question_id _. apply completed_grows_add.
  - done.
Qed.

Lemma completed_grows_assessment_loop output_dir total todo :
  preserves completed_grows (assessment_loop E output_dir total todo).
Proof.
  apply (preserves_assessment_loop E completed_grows completed_grows_refl completed_grows_trans)
    with (P := λ _, True) (Q := λ _, True); try done.
  - same_completed.
  - same_completed.
  - same_completed.
  - intros url _. apply completed_grows_get.
  - intros question_id _. apply completed_grows_add.
Qed.

Lemma visits_question_loop (P : string → Prop) output_dir assess questions_to_scrape :
  (∀ q, q ∈ questions_to_scrape → P (q_url q)) →
  preserves (visits P) (question_loop E output_dir assess questions_to_scrape).
Proof.
  intros Hqs.
  apply (preserves_question_loop E (visits P) (visits_refl _) (visits_trans _))
    with (P := P) (Q := λ _, True).
  - same_navigations.
  - same_navigations.
  - same_navigations.
  - intros url Hurl. by apply visits_get.
  - same_navigations.
  - intros q Hq. split; [by apply Hqs | done].
Qed.

Lemma visits_assessment_loop (P : string → Prop) output_dir total todo :
  (∀ ia : Z * Assessment, ia ∈ todo → P (a_url ia.2)) →
  (∀ rows q, q ∈ scan_questions rows → P (q_url q)) →
  preserves (visits P) (assessment_loop E output_dir total todo).
Proof.
  intros Htodo Hscan.
  apply (preserves_assessment_loop E (visits P) (visits_refl _) (visits_trans _))
    with (P := P) (Q := λ _, True); try done.
  - same_navigations.
  - same_navigations.
  - same_navigations.
  - intros url Hurl. by apply visits_get.
  - same_navigations.
Qed.

(** X17: the completed set records the successes of the turns.  After the
    turn of a question the set holds what it held before and at most the key
    of the question; the key is in it exactly when it was there before or
    the body of the turn returned without an exception.  Over the loop the
    set only grows, by keys of the questions of the loop. *)
Theorem completed_records_successes (output_dir : string) (assess : Assessment)
    (total q_idx : Z) (q : Question) (questions_to_scrape : list Question) (w : World B) :
  let question_id := question_id_of assess q in
  let turn := process_question E output_dir assess total (q_idx, q) w in
  let final := question_loop E output_dir assess questions_to_scrape w in
  (w_completed w ⊆ w_completed turn.2 ∧
   w_completed turn.2 ⊆ {[question_id]} ∪ w_completed w ∧
   (question_id ∈ w_completed turn.2 ↔
    question_id ∈ w_completed w ∨
    (question_body E output_dir assess total q_idx q w).1 = Ok tt)) ∧
  (w_completed w ⊆ w_completed final.2 ∧
   w_completed final.2
   ⊆ w_completed w ∪ list_to_set (question_id_of assess <$> questions_to_scrape)).
Proof.
  cbv zeta. split.
  - rewrite process_question_unfold.
    destruct (decide (question_id_of assess q ∈ w_completed w)) as [Hdone|Hnew].
    { rewrite bool_decide_eq_true_2 by done. cbn. set_solver. }
    rewrite bool_decide_eq_false_2 by done. unfold try_except.
    pose proof (question_body_adds output_dir assess total q_idx q w) as Hbody.
    destruct (question_body E output_dir assess total q_idx q w) as [[[]|e] w1];
      cbn [fst snd log] in *.
    + rewrite Hbody. split; [apply union_subseteq_r|]. split; [done|].
      split; [by right | intros _; by apply elem_of_union_l, elem_of_singleton].
    + rewrite Hbody. split; [done|]. split; [apply union_subseteq_r|].
      split; [intros H; by left | intros [H|H]; [done | discriminate]].
  - split.
    + apply completed_grows_question_loop.
    + apply (preserves_question_loop E
               (completed_within (list_to_set (question_id_of assess <$> questions_to_scrape)))
               (completed_within_refl _) (completed_within_trans _))
        with (P := λ _, True)
             (Q := λ question_id, question_id ∈ question_id_of assess <$> questions_to_scrape).
      * same_completed.
      * same_completed.
      * same_completed.
      * intros url _ w0. unfold completed_within, driver_get.
        destruct (env_get E _ _). cbn. apply union_subseteq_l.
      * intros question_id Hin w0. unfold completed_within. cbn.
        apply union_subseteq. split; [|apply union_subseteq_l].
        apply singleton_subseteq_l, elem_of_union_r. by apply elem_of_list_to_set.
      * intros q0 Hq0. split; [done|]. apply list_elem_of_fmap. by exists q0.
Qed.

(** The navigations of one turn. *)
Lemma process_question_navigations output_dir assess total q_idx q (w : World B) :
  w_navigations (process_question E output_dir assess total (q_idx, q) w).2
  = w_navigations w ++
    (if bool_decide (question_id_of assess q ∉ w_completed w)
        && found_incomplete (folder_complete (question_folder_of output_dir assess q) w).1
     then [q_url q] else []).
Proof.
  assert (Hfc : ∀ folder, (folder_complete (B:=B) folder w).2 = w).
  { intros folder.
    apply (preserves_folder_complete (λ w w' : World B, w' = w)); [done | congruence]. }
  rewrite process_question_unfold.
  destruct (decide (question_id_of assess q ∈ w_completed w)) as [Hdone|Hnew].
  { rewrite bool_decide_eq_true_2 by done.
    rewrite (bool_decide_eq_false_2 (_ ∉ _)) by (intros ?; done). by rewrite app_nil_r. }
  rewrite bool_decide_eq_false_2 by done.
  rewrite (bool_decide_eq_true_2 (_ ∉ _)) by done. cbn [andb].
  rewrite try_except_nav by (intros e; apply nav_frame_log).
  specialize (Hfc (question_folder_of output_dir assess q)).
  destruct (folder_complete (question_folder_of output_dir assess q) w) as [r w0] eqn:Hc.
  simpl in Hfc. subst w0. cbn [fst].
  destruct r as [[]|e]; cbn [found_incomplete].
  - rewrite (question_body_skip _ _ _ _ _ _ _ Hc). by rewrite app_nil_r.
  - rewrite (question_body_fetch _ _ _ _ _ _ _ Hc).
    unfold bind at 1. cbn [log]. unfold bind at 1.
    match goal with |- context [driver_get E ?u ?w0] =>
      pose proof (driver_get_navigates E u w0) as Hnav;
      destruct (driver_get E u w0) as [[[]|e] w2] end; cbn [snd] in *; [|done].
    by rewrite nav_frame_after_get.
  - unfold question_body, bind at 1. rewrite Hc. by rewrite app_nil_r.
Qed.

Lemma imap_pair_snd {A} (g : nat → Z) (l : list A) : (imap (λ i x, (g i, x)) l).*2 = l.
Proof.
  revert g. induction l as [|x l IH]; intros g; [done|].
  cbn. f_equal. apply (IH (g ∘ S)).
Qed.

Lemma enumerate1_snd {A} (l : list A) : (enumerate1 l).*2 = l.
Proof. apply (imap_pair_snd (λ i, (Z.of_nat i + 1)%Z)). Qed.

Lemma turns_navigations output_dir assess total (turns : list (Z * Question)) (w : World B) :
  ∃ visited,
    w_navigations (for_each turns (process_question E output_dir assess total) w).2
    = w_navigations w ++ visited ∧ sublist visited (q_url <$> turns.*2).
Proof.
  revert w. induction turns as [|[q_idx q] turns IH]; intros w.
  { exists []. by rewrite app_nil_r. }
  cbn [for_each]. rewrite !fmap_cons. cbn [snd]. unfold bind at 1.
  pose proof (process_question_navigations output_dir assess total q_idx q w) as Hnav.
  pose proof (process_question_ok E output_dir assess total (q_idx, q) w) as Hok.
  destruct (process_question E output_dir assess total (q_idx, q) w) as [r w1].
  simpl in Hok, Hnav. subst r. cbn beta iota.
  destruct (IH w1) as (visited & Hv & Hsub).
  destruct (_ && _).
  - exists (q_url q :: visited). split; [by rewrite Hv, Hnav, <- app_assoc|].
    by apply sublist_skip.
  - exists visited. split; [by rewrite Hv, Hnav, app_nil_r|]. by apply sublist_cons.
Qed.

(** X18: the loop over the questions visits question URLs only, in the order
    of the page and each entry of the list at most once; the turn of a
    question visits its URL exactly when its key is not in the completed set
    and the folder is found incomplete, and nothing otherwise. *)
Theorem question_loop_visits (output_dir : string) (assess : Assessment)
    (total q_idx : Z) (q : Question) (questions_to_scrape : list Question) (w : World B) :
  (∃ visited,
     w_navigations (question_loop E output_dir assess questions_to_scrape w).2
     = w_navigations w ++ visited ∧
     sublist visited (q_url <$> questions_to_scrape)) ∧
  w_navigations (process_question E output_dir assess total (q_idx, q) w).2
  = w_navigations w ++
    (if bool_decide (question_id_of assess q ∉ w_completed w)
        && found_incomplete (folder_complete (question_folder_of output_dir assess q) w).1
     then [q_url q] else []).
Proof.
  split; [|apply process_question_navigations].
  unfold question_loop.
  destruct (turns_navigations output_dir assess (Z.of_nat (length questions_to_scrape))
              (enumerate1 questions_to_scrape) w) as (visited & Hv & Hsub).
  exists visited. split; [done|]. by rewrite enumerate1_snd in Hsub.
Qed.

Lemma candidates_absolute all_rows a :
  a ∈ temp_assessments (discover all_rows) → absolute (a_url a).
Proof.
  revert a. apply (discover_ind (λ st, ∀ a, a ∈ temp_assessments st → absolute (a_url a))).
  - intros a Ha. by apply elem_of_nil in Ha.
  - intros st row IH a.
    destruct (qualifies st row) as [[T link]|] eqn:Hq.
    + destruct (discover_row_qualifies st row T link Hq) as (a0 & Ha0 & ->).
      cbn [temp_assessments]. intros [Ha|Ha]%elem_of_app; [by apply IH|].
      apply list_elem_of_singleton in Ha as ->.
      pose proof (candidate_of_fields _ _ _ _ _ Ha0) as (_ & _ & _ & Hurl).
      unfold absolute. rewrite Hurl.
      destruct (py_startswith (href link) "http") eqn:Hh; [done|].
      unfold py_startswith. rewrite chars_app. by apply starts_with_app_l.
    + destruct (discover_row_not_qualifies st row Hq) as [_ ->]. apply IH.
Qed.

Lemma scanned_absolute rows q : q ∈ scan_questions rows → absolute (q_url q).
Proof.
  intros Hq. destruct (scan_state_spec rows) as (_ & Hqs & _).
  destruct (Hqs q Hq) as [(row & _ & (link_href & text & _ & _ & _ & _ & _ & ->)) _].
  unfold absolute, py_startswith. rewrite chars_app. by apply starts_with_app_l.
Qed.

(** X19: whatever the listing, the operator's answer, the browser and the
    disk, a crawl only adds visits of absolute URLs (they start with
    [http]), and it never removes a key from the completed set. *)
Theorem crawl_visits_absolute_urls (output_dir : string) (all_rows : list Row)
    (raw_input : string) (w : World B) :
  let final := (crawl E output_dir all_rows raw_input w).2 in
  (∃ visited, w_navigations final = w_navigations w ++ visited ∧ Forall absolute visited) ∧
  w_completed w ⊆ w_completed final.
Proof.
  cbv zeta. unfold crawl.
  destruct (selection_phase _ raw_input) as [selected_types|msg].
  2: { split; [|done]. exists []. by rewrite app_nil_r. }
  assert (Htodo : ∀ ia : Z * Assessment,
            ia ∈ enumerate1 (assessments_to_process selected_types
                               (temp_assessments (discover all_rows))) →
            absolute (a_url ia.2)).
  { intros ia Hia%elem_of_enumerate1. unfold assessments_to_process in Hia.
    apply list_elem_of_filter in Hia as [_ Hia]. by eapply candidates_absolute. }
  split.
  - apply visits_assessment_loop; [exact Htodo | apply scanned_absolute].
  - apply completed_grows_assessment_loop.
Qed.

(** The load of the page of an assessment: the URL is visited, and a
    failure is caught. *)
Lemma load_assessment url (handler : string → M B bool) (w : World B) :
  (∀ e, nav_frame (handler e)) → (∀ e, never_raises (handler e)) →
  ∃ loaded w', try_except (driver_get E url ;;; ret true) handler w = (Ok loaded, w') ∧
               w_navigations w' = w_navigations w ++ [url].
Proof.
  intros Hframe Hok. unfold try_except, bind.
  pose proof (driver_get_navigates E url w) as Hnav.
  destruct (driver_get E url w) as [[[]|e] w1]; cbn [snd] in Hnav.
  - by exists true, w1.
  - destruct (Hok e w1) as [loaded Hl]. specialize (Hframe e w1).
    destruct (handler e w1) as [r w2]. simpl in *. subst r.
    exists loaded, w2. split; [done | congruence].
Qed.

(** X20: when the browser shows a URL that holds [login] or [sign] in
    lower case, the session check fails and the loop over the assessments
    stops at once: it returns without an exception, visits nothing, leaves
    files, browser and completed set as they were and logs the start of the
    assessment and the two errors; the assessments that follow are not
    looked at. *)
Theorem lost_session_stops_run (output_dir : string) (total assess_idx : Z)
    (assess : Assessment) (rest : list (Z * Assessment)) (url : string) (w : World B) :
  env_current_url E (w_browser w) = Ok url →
  looks_logged_out url = true →
  let r := assessment_loop E output_dir total ((assess_idx, assess) :: rest) w in
  (check_session_valid E w).1 = Ok false ∧
  r.1 = Ok tt ∧ w_navigations r.2 = w_navigations w ∧ w_fs r.2 = w_fs w ∧
  w_browser r.2 = w_browser w ∧ w_completed r.2 = w_completed w ∧
  w_log r.2
  = w_log w ++
    [(INFO, "[" +:+ py_str_of_Z assess_idx +:+ "/" +:+ py_str_of_Z total
            +:+ "] Processing: " +:+ a_name assess +:+ " (" +:+ a_week assess +:+ ")");
     (ERROR, "Session expired - please re-login");
     (ERROR, "Session lost. Please restart scraper.")].
Proof.
  intros Hurl Hout. unfold looks_logged_out in Hout. cbv zeta.
  assert (Hcheck : ∀ w0 : World B, w_browser w0 = w_browser w →
            check_session_valid E w0
            = (Ok false, (log ERROR "Session expired - please re-login" w0).2)).
  { intros w0 Hb. unfold check_session_valid, try_except, bind, current_url.
    rewrite Hb, Hurl, Hout. done. }
  split; [by rewrite Hcheck|].
  assert (Hrun : assessment_loop E output_dir total ((assess_idx, assess) :: rest) w
                 = (Ok tt,
                    {| w_fs := w_fs w; w_browser := w_browser w;
                       w_navigations := w_navigations w; w_completed := w_completed w;
                       w_log := w_log w ++
                         [(INFO, "[" +:+ py_str_of_Z assess_idx +:+ "/" +:+ py_str_of_Z total
                                 +:+ "] Processing: " +:+ a_name assess +:+ " ("
                                 +:+ a_week assess +:+ ")");
                          (ERROR, "Session expired - please re-login");
                          (ERROR, "Session lost. Please restart scraper.")] |})).
  { cbn [assessment_loop]. unfold bind at 1. cbn [log]. unfold bind at 1.
    rewrite Hcheck by done. cbn. unfold log. cbn. by rewrite <- !app_assoc. }
  rewrite Hrun. done.
Qed.

(** X21: when the browser cannot tell its URL, the session check takes the
    session for valid (and logs nothing), and the loop goes on to the page
    of the assessment: its URL is the first one visited. *)
Theorem unreadable_url_taken_for_valid (output_dir : string) (total assess_idx : Z)
    (assess : Assessment) (rest : list (Z * Assessment)) (e : string) (w : World B) :
  env_current_url E (w_browser w) = Exc e →
  check_session_valid E w = (Ok true, w) ∧
  ∃ later,
    w_navigations (assessment_loop E output_dir total ((assess_idx, assess) :: rest) w).2
    = w_navigations w ++ a_url assess :: later.
Proof.
  intros Hurl.
  assert (Hcheck : ∀ w0 : World B, w_browser w0 = w_browser w →
            check_session_valid E w0 = (Ok true, w0)).
  { intros w0 Hb. unfold check_session_valid, try_except, bind, current_url.
    by rewrite Hb, Hurl. }
  split; [by apply Hcheck|].
  assert (Hloop : ∀ todo, preserves (visits (λ _, True)) (assessment_loop E output_dir total todo)).
  { intros todo. by apply visits_assessment_loop. }
  assert (Hafter : ∀ loaded : bool, preserves (visits (λ _, True))
            (if negb loaded then assessment_loop E output_dir total rest
             else
               rows <- page_rows E ;;
               let questions_to_scrape := scan_questions rows in
               log INFO ("  Found " +:+ py_str_of_Z (Z.of_nat (length questions_to_scrape))
                         +:+ " questions") ;;;
               question_loop E output_dir assess questions_to_scrape ;;;
               assessment_loop E output_dir total rest)).
  { intros [|]; cbn [negb]; [|apply Hloop].
    apply (preserves_bind (visits (λ _, True)) (visits_trans _)); [same_navigations|].
    intros rows. cbv zeta.
    apply (preserves_bind (visits (λ _, True)) (visits_trans _)); [same_navigations|].
    intros _.
    apply (preserves_bind (visits (λ _, True)) (visits_trans _)); [|intros _; apply Hloop].
    by apply visits_question_loop. }
  cbn [assessment_loop]. unfold bind at 1. cbn [log]. unfold bind at 1.
  rewrite Hcheck by done. cbn [negb]. unfold bind at 1.
  match goal with |- context [try_except ?m ?h ?w1] =>
    destruct (load_assessment (a_url assess) h w1) as (loaded & w2 & Hload & Hnav);
    [ intros e0; apply nav_frame_bind; [apply nav_frame_log | intros; apply nav_frame_ret]
    | intros e0; apply never_raises_bind; [apply never_raises_log | intros; apply never_raises_ret]
    | rewrite Hload ] end.
  destruct (Hafter loaded w2) as (later & Hlater & _).
  exists later. cbv zeta in Hlater |- *. rewrite Hlater, Hnav. cbn [w_navigations].
  by rewrite <- app_assoc.
Qed.

End Invariants.

Lemma lost_session_stops_run_witness :
  looks_logged_out "https://us.prairielearn.com/pl/login" = true ∧
  w_navigations
    (assessment_loop logged_out_env "out" 2 [(1%Z, hw1); (2%Z, hw1)] empty_world).2 = [] ∧
  (check_session_valid logged_out_env empty_world).1 = Ok false.
Proof.
  destruct (lost_session_stops_run logged_out_env "out" 2 1 hw1 [(2%Z, hw1)]
              "https://us.prairielearn.com/pl/login" empty_world eq_refl eq_refl)
    as (Hcheck & _ & Hnav & _).
  split; [reflexivity|]. split; [exact Hnav | exact Hcheck].
Defined.

Lemma unreadable_url_taken_for_valid_witness :
  check_session_valid mute_env empty_world = (Ok true, empty_world) ∧
  ∃ later,
    w_navigations (assessment_loop mute_env "out" 1 [(1%Z, hw1)] empty_world).2
    = a_url hw1 :: later.
Proof.
  exact (unreadable_url_taken_for_valid mute_env "out" 1 1 hw1 [] "invalid session id"
           empty_world eq_refl).
Defined.

(** A click that fails does not stop the loop over the buttons: the button
    after it is clicked, the one that names no panel is not. *)
Example failed_click_is_passed_over :
  expand_answer_panel panel_env panel_world = (Ok tt, with_browser 2 panel_world).
Proof. reflexivity. Qed.


(** *** The runs of the path rewriter over an archive *)

(** **** The growth of a rewritten text *)

Lemma replacement_length key path :
  length (replacement key path) = length key + length path + 30.
Proof. unfold replacement. rewrite length_app. cbn. rewrite !length_app. cbn. lia. Qed.

Lemma re_sub_length prefix l :
  length (re_sub prefix l) = length l + 27 * length (re_paths prefix l).
Proof.
  induction l as [|c l Hnone IH|l key path rest Hm IH] using (scan_ind prefix).
  - done.
  - rewrite re_sub_step, re_paths_step by done. simpl. lia.
  - rewrite (re_sub_match _ _ _ _ _ Hm), (re_paths_match _ _ _ _ _ Hm).
    apply attr_match_at_Some in Hm as (tail & _ & -> & _ & _ & ->).
    rewrite length_app, replacement_length, IH. unfold literal.
    repeat (rewrite ?length_app; cbn [length]). lia.
Qed.

Lemma re_sub_no_paths prefix l : re_paths prefix l = [] → re_sub prefix l = l.
Proof.
  induction l as [|c l Hnone IH|l key path rest Hm IH] using (scan_ind prefix).
  - done.
  - rewrite re_sub_step, re_paths_step by done. intros H. by rewrite IH.
  - by rewrite (re_paths_match _ _ _ _ _ Hm).
Qed.

Lemma fix_chars_length l :
  length (fix_chars l) = length l + 27 * length (rewritten_paths l).
Proof.
  unfold fix_chars, rewritten_paths. rewrite !re_sub_length, length_app. lia.
Qed.

Lemma fix_chars_same l : fix_chars l = l ↔ rewritten_paths l = [].
Proof.
  split.
  - intros H. apply (f_equal length) in H. rewrite fix_chars_length in H.
    destruct (rewritten_paths l); [done | simpl in H; lia].
  - unfold rewritten_paths, fix_chars. intros [H1 H2]%app_eq_nil.
    rewrite (re_sub_no_paths _ _ H2). by apply re_sub_no_paths.
Qed.

Lemma fix_content_same content :
  fix_content content = content ↔ rewritten_paths (chars content) = [].
Proof.
  rewrite <- fix_chars_same. unfold fix_content. split.
  - intros H. apply (f_equal chars) in H. by rewrite chars_of_chars in H.
  - intros ->. apply of_chars_chars.
Qed.

(** X22: each rewritten path makes the text longer by the 27 characters of
    the base URL, and the text stays as it is exactly when no path is
    rewritten. *)
Theorem fix_content_growth (content : string) :
  py_len (fix_content content)
  = (py_len content + 27 * Z.of_nat (length (rewritten_paths (chars content))))%Z ∧
  py_len PRAIRIELEARN_BASE = 27%Z ∧
  (fix_content content = content ↔ rewritten_paths (chars content) = []).
Proof.
  split; [|split; [done | apply fix_content_same]].
  unfold py_len, fix_content. rewrite chars_of_chars, fix_chars_length. lia.
Qed.

(** **** One file *)

Lemma text_read_paths text :
  fix_content (text_read text) = text_read text
  ↔ rewritten_paths (translate_newlines (chars text)) = [].
Proof. rewrite fix_content_same. unfold text_read. by rewrite chars_of_chars. Qed.

Lemma fix_html_file_cases fs filepath :
  (needs_fix fs filepath = true ∧
   ∃ text, fs !! filepath = Some (File text) ∧
           fix_html_file fs filepath
           = (true, <[filepath := File (fix_content (text_read text))]> fs)) ∨
  (needs_fix fs filepath = false ∧ fix_html_file fs filepath = (false, fs)).
Proof.
  unfold needs_fix, fix_html_file, read_text, write_text.
  destruct (fs !! filepath) as [[text| | |text|]|] eqn:Hf; try (by right).
  - fold (text_read text). cbv zeta. case_bool_decide as Hpaths; simpl.
    + right. split; [done|]. apply text_read_paths in Hpaths.
      by rewrite bool_decide_eq_false_2 by (by intros []).
    + left. split; [done|]. exists text. split; [done|].
      rewrite bool_decide_eq_true_2; [done|]. by rewrite text_read_paths.
  - right. split; [done|]. cbv zeta. by case_bool_decide.
Qed.

(** X23: [fix_html_file] reports a change exactly when the path is a text
    file that can be written and in the text of which, read with its line
    ends translated, some path is rewritten; the file then holds the
    rewritten text of what was read.  Otherwise the file system stays as it
    was: also when the file cannot be read, and when the text has a path to
    rewrite but the file cannot be written, which is printed as an error.
    In all cases no path is created or removed and no other path is
    touched. *)
Theorem fix_html_file_report (fs : FS) (filepath : string) :
  let r := fix_html_file fs filepath in
  r.1 = needs_fix fs filepath ∧
  (if r.1 then ∃ text, fs !! filepath = Some (File text) ∧
                       r.2 !! filepath = Some (File (fix_content (text_read text)))
   else r.2 = fs) ∧
  dom r.2 = dom fs ∧
  (∀ other, other ≠ filepath → r.2 !! other = fs !! other) ∧
  (∀ text, fs !! filepath = Some (ReadOnly text) →
           fix_content (text_read text) ≠ text_read text →
           r = (false, fs) ∧
           fix_html_file_prints fs filepath
           = [(INFO, "Error processing " +:+ filepath +:+ ": PermissionError")]) ∧
  (∀ text, fs !! filepath = Some (File text) → fix_html_file_prints fs filepath = []).
Proof.
  cbv zeta.
  assert (Hprints : (∀ text, fs !! filepath = Some (ReadOnly text) →
             fix_content (text_read text) ≠ text_read text →
             fix_html_file fs filepath = (false, fs) ∧
             fix_html_file_prints fs filepath
             = [(INFO, "Error processing " +:+ filepath +:+ ": PermissionError")]) ∧
            (∀ text, fs !! filepath = Some (File text) →
                     fix_html_file_prints fs filepath = [])).
  { split; intros text Hf.
    - intros Hchanged.
      unfold fix_html_file, fix_html_file_prints, read_text, write_text. rewrite Hf.
      fold (text_read text). cbv zeta. by rewrite bool_decide_eq_true_2.
    - unfold fix_html_file_prints, read_text, write_text. rewrite Hf.
      cbv zeta. by case_bool_decide. }
  destruct (fix_html_file_cases fs filepath) as [(Hn & text & Hf & Hr)|(Hn & Hr)];
    rewrite Hr in Hprints |- *; cbn [fst snd]; rewrite Hn.
  - split; [done|]. split; [|split; [|split; [|exact Hprints]]].
    + exists text. by rewrite lookup_insert_eq.
    + rewrite dom_insert_L. apply (elem_of_dom_2 (D:=gset string)) in Hf.
      by apply subseteq_union_1_L, singleton_subseteq_l.
    + intros other Hother. by rewrite lookup_insert_ne.
  - done.
Qed.

(** A page with line ends of two characters is written back with line ends
    of one; a page that cannot be written is left as it is. *)
Example fix_html_file_line_ends :
  fix_html_file guarded_archive "out/a.html"
  = (true, <["out/a.html" := File (fix_content (text_read dos_page))]> guarded_archive) ∧
  CR ∈ chars dos_page ∧ (CR ∉ chars (fix_content (text_read dos_page))) ∧
  fix_html_file guarded_archive "out/b.html" = (false, guarded_archive).
Proof.
  split; [vm_compute; reflexivity|]. split; [|split; [|vm_compute; reflexivity]].
  - apply list_elem_of_In. vm_compute. tauto.
  - intros Hin. pose proof (fix_chars_no_CR _ (translate_no_CR (chars dos_page))) as Hno.
    unfold fix_content, text_read in Hin. rewrite !chars_of_chars in Hin.
    by apply (proj1 (Forall_forall _ _) Hno) in Hin.
Qed.

(** **** The two runs *)

Lemma fix_css_step_core total st html_file :
  let r := fix_html_file (fix_fs st) html_file in
  fix_fs (fix_css_step total st html_file) = r.2 ∧
  fixed_count (fix_css_step total st html_file)
  = (if r.1 then fixed_count st + 1 else fixed_count st)%Z.
Proof.
  cbv zeta. unfold fix_css_step, fix_html_file, read_text, write_text, fix_content, fix_chars.
  destruct (fix_fs st !! html_file) as [[text| | |text|]|]; try done;
    rewrite chars_of_chars; by case_bool_decide.
Qed.

Lemma fix_main_step_core total st html_file :
  let r := fix_html_file (fix_fs st) html_file in
  fix_fs (fix_main_step total st html_file) = r.2 ∧
  fixed_count (fix_main_step total st html_file)
  = (if r.1 then fixed_count st + 1 else fixed_count st)%Z.
Proof.
  cbv zeta. unfold fix_main_step.
  by destruct (fix_html_file (fix_fs st) html_file) as [[|] fs'].
Qed.

Lemma fold_core (step : FixRun → string → FixRun) :
  (∀ st html_file,
     let r := fix_html_file (fix_fs st) html_file in
     fix_fs (step st html_file) = r.2 ∧
     fixed_count (step st html_file) = (if r.1 then fixed_count st + 1 else fixed_count st)%Z) →
  ∀ html_files st,
    let final := fold_left step html_files st in
    (fixed_count final, fix_fs final)
    = fold_left (λ st html_file,
                   let '(changed, fs') := fix_html_file st.2 html_file in
                   ((if changed then st.1 + 1 else st.1)%Z, fs'))
                html_files (fixed_count st, fix_fs st).
Proof.
  intros Hstep. induction html_files as [|p l IH]; intros st; [done|].
  cbn [fold_left]. cbv zeta in IH |- *. rewrite IH.
  destruct (Hstep st p) as [-> ->]. cbn [fst snd].
  by destruct (fix_html_file (fix_fs st) p) as [[|] fs'].
Qed.

Lemma fix_css_paths_core fs output_dir html_files :
  path_exists fs output_dir = true →
  (fixed_count (fix_css_paths fs output_dir html_files),
   fix_fs (fix_css_paths fs output_dir html_files)) = fix_all fs html_files.
Proof.
  intros Hex. unfold fix_css_paths. rewrite Hex. cbn [negb fixed_count fix_fs].
  apply (fold_core (fix_css_step _) (fix_css_step_core _)).
Qed.

Lemma fix_main_core fs html_files :
  path_exists fs ARCHIVE_DIR = true →
  (fixed_count (fix_main fs html_files), fix_fs (fix_main fs html_files))
  = fix_all fs html_files.
Proof.
  intros Hex. unfold fix_main. rewrite Hex. cbn [negb fixed_count fix_fs].
  apply (fold_core (fix_main_step _) (fix_main_step_core _)).
Qed.

(** X24: on an archive that exists, the fixer built into the scraper and
    the stand-alone fixer fix the same number of files and leave the same
    file system. *)
Theorem fixers_agree (fs : FS) (output_dir : string) (html_files : list string) :
  path_exists fs output_dir = true →
  path_exists fs ARCHIVE_DIR = true →
  fixed_count (fix_css_paths fs output_dir html_files) = fixed_count (fix_main fs html_files) ∧
  fix_fs (fix_css_paths fs output_dir html_files) = fix_fs (fix_main fs html_files).
Proof.
  intros H1 H2.
  pose proof (fix_css_paths_core fs output_dir html_files H1) as Hcss.
  pose proof (fix_main_core fs html_files H2) as Hmain.
  rewrite <- Hmain in Hcss. by injection Hcss.
Qed.

Lemma fixers_agree_witness :
  fixed_count (fix_css_paths sample_archive "out" sample_files) = 1%Z ∧
  fixed_count (fix_main sample_archive sample_files) = 1%Z ∧
  fix_fs (fix_css_paths sample_archive "out" sample_files)
  = fix_fs (fix_main sample_archive sample_files).
Proof.
  destruct (fixers_agree sample_archive "out" sample_files eq_refl eq_refl) as [Hcount Hfs].
  assert (Hone : fixed_count (fix_css_paths sample_archive "out" sample_files) = 1%Z)
    by (vm_compute; reflexivity).
  split; [exact Hone|]. split; [by rewrite <- Hcount | exact Hfs].
Defined.

(** **** The summary of a run *)

Lemma filter_ext_elem {A} (P Q : A → Prop) `{∀ x, Decision (P x)} `{∀ x, Decision (Q x)}
    (l : list A) :
  (∀ x, x ∈ l → P x ↔ Q x) → filter P l = filter Q l.
Proof.
  induction l as [|x l IH]; intros Hext; [done|].
  rewrite !filter_cons.
  assert (Hx : P x ↔ Q x) by (apply Hext; by left).
  rewrite IH by (intros y Hy; apply Hext; by right).
  destruct (decide (P x)), (decide (Q x)); tauto.
Qed.

Lemma fixed_node_nil fs path : fixed_node fs [] path = fs !! path.
Proof.
  unfold fixed_node. by destruct (fs !! path) as [[text| | | |]|].
Qed.

Lemma fixed_node_other fs fs1 p l path :
  path ≠ p → (∀ other, other ≠ p → fs1 !! other = fs !! other) →
  fixed_node fs1 l path = fixed_node fs (p :: l) path.
Proof.
  intros Hne Hfs1. unfold fixed_node, needs_fix. rewrite (Hfs1 path Hne).
  destruct (fs !! path) as [[text| | | |]|]; try done.
  destruct (decide (path ∈ l)) as [Hin|Hout].
  - rewrite !(bool_decide_eq_true_2 (path ∈ _)); [done | by right | done].
  - rewrite !(bool_decide_eq_false_2 (path ∈ _)); [done | | done].
    intros [?|?]%elem_of_cons; done.
Qed.

Lemma fix_all_spec html_files : ∀ n fs,
  NoDup html_files →
  let final :=
    fold_left (λ st html_file,
                 let '(changed, fs') := fix_html_file st.2 html_file in
                 ((if changed then st.1 + 1 else st.1)%Z, fs'))
              html_files (n, fs) in
  final.1 = (n + Z.of_nat (length (filter (λ p, needs_fix fs p = true) html_files)))%Z ∧
  ∀ path, final.2 !! path = fixed_node fs html_files path.
Proof.
  induction html_files as [|p l IH]; intros n fs Hnd; cbv zeta.
  { cbn. split; [lia|]. intros path. by rewrite fixed_node_nil. }
  apply NoDup_cons in Hnd as [Hp Hnd]. cbn [fold_left fst snd].
  assert (Hother : ∀ fs1, (∀ other, other ≠ p → fs1 !! other = fs !! other) →
            filter (λ q, needs_fix fs1 q = true) l = filter (λ q, needs_fix fs q = true) l).
  { intros fs1 Hfs1. apply filter_ext_elem. intros q Hq. unfold needs_fix.
    rewrite Hfs1; [done|]. intros ->. done. }
  destruct (fix_html_file_cases fs p) as [(Hn & text & Hf & ->)|(Hn & ->)].
  - specialize (IH (n + 1)%Z (<[p := File (fix_content (text_read text))]> fs) Hnd).
    cbv zeta in IH. destruct IH as [IHn IHfs]. rewrite IHn.
    rewrite Hother by (intros other Hne; by rewrite lookup_insert_ne).
    rewrite filter_cons, decide_True by done. cbn [length]. split; [lia|].
    intros path. rewrite IHfs.
    destruct (decide (path = p)) as [->|Hne].
    + unfold fixed_node. rewrite lookup_insert_eq, Hf, Hn.
      rewrite bool_decide_eq_false_2 by done.
      rewrite bool_decide_eq_true_2; [done | by left].
    + apply fixed_node_other; [done|]. intros other Hne2. by rewrite lookup_insert_ne.
  - specialize (IH n fs Hnd). cbv zeta in IH. destruct IH as [IHn IHfs]. rewrite IHn.
    rewrite filter_cons, decide_False by (by rewrite Hn). split; [done|].
    intros path. rewrite IHfs.
    destruct (decide (path = p)) as [->|Hne].
    + unfold fixed_node. rewrite Hn.
      destruct (fs !! p) as [[text| | | |]|] eqn:Hpath; try done.
      by rewrite !andb_false_r.
    + by apply fixed_node_other.
Qed.

Lemma filter_none {A} (P : A → Prop) `{∀ x, Decision (P x)} (l : list A) :
  (∀ x, x ∈ l → ¬ P x) → filter P l = [].
Proof.
  induction l as [|x l IH]; intros Hno; [done|].
  rewrite filter_cons, decide_False by (apply Hno; by left).
  apply IH. intros y Hy. apply Hno. by right.
Qed.

Lemma filter_length_le {A} (P : A → Prop) `{∀ x, Decision (P x)} (l : list A) :
  length (filter P l) ≤ length l.
Proof.
  induction l as [|x l IH]; [done|]. rewrite filter_cons.
  destruct (decide (P x)); simpl; lia.
Qed.

(** X25: a run of [fix_css_paths] over distinct files of an archive that
    exists fixes as many files as there are, among them, text files that
    can be written and in the text of which, read with its line ends
    translated, some path is rewritten; at most all of them.  Afterwards
    each such file holds the rewritten text of what was read and every other
    path is as it was.  At a file with a path to rewrite that cannot be
    written, the turn logs a warning, counts nothing and changes nothing.
    When the archive does not exist, nothing is counted or changed and a
    warning is logged. *)
Theorem fix_css_paths_summary (fs : FS) (output_dir : string) (html_files : list string) :
  let r := fix_css_paths fs output_dir html_files in
  (path_exists fs output_dir = false →
   fixed_count r = 0%Z ∧ fix_fs r = fs ∧
   last (fix_log r) = Some (WARNING, "Output directory not found, skipping CSS fix")) ∧
  (path_exists fs output_dir = true → NoDup html_files →
   fixed_count r = Z.of_nat (length (filter (λ p, needs_fix fs p = true) html_files)) ∧
   (0 ≤ fixed_count r ≤ Z.of_nat (length html_files))%Z ∧
   (∀ path, fix_fs r !! path = fixed_node fs html_files path) ∧
   last (fix_log r)
   = Some (INFO, "CSS fix complete! Fixed " +:+ py_str_of_Z (fixed_count r) +:+ " HTML files.")) ∧
  (∀ total st html_file text,
     fix_fs st !! html_file = Some (ReadOnly text) →
     fix_content (text_read text) ≠ text_read text →
     fix_css_step total st html_file
     = {| fixed_count := fixed_count st; fix_fs := fix_fs st;
          fix_log := fix_log st
                       ++ [(WARNING, "Failed to fix " +:+ html_file +:+ ": PermissionError")] |}).
Proof.
  cbv zeta. split; [|split].
  - intros Hex. unfold fix_css_paths. by rewrite Hex.
  - intros Hex Hnd.
    pose proof (fix_css_paths_core fs output_dir html_files Hex) as Hcore.
    destruct (fix_all_spec html_files 0 fs Hnd) as [Hn Hfs].
    unfold fix_all in Hcore. rewrite <- Hcore in Hn, Hfs. cbn [fst snd] in Hn, Hfs.
    split; [rewrite Hn; lia|]. split; [|split; [exact Hfs|]].
    + rewrite Hn.
      pose proof (filter_length_le (λ p, needs_fix fs p = true) html_files). lia.
    + unfold fix_css_paths. rewrite Hex. cbn [negb fix_log fixed_count]. apply last_snoc.
  - intros total st html_file text Hf Hchanged.
    unfold fix_css_step, read_text, write_text. rewrite Hf. fold (text_read text).
    cbv zeta. rewrite chars_of_chars.
    change (of_chars (re_sub PL (re_sub ASSETS (chars (text_read text)))))
      with (fix_content (text_read text)).
    by rewrite bool_decide_eq_true_2.
Qed.

Lemma fix_css_paths_summary_witness :
  NoDup sample_files ∧
  fixed_count (fix_css_paths sample_archive "out" sample_files) = 1%Z ∧
  fix_fs (fix_css_paths sample_archive "out" sample_files) !! "out/a.html"
  = Some (File (fix_content sample_page)) ∧
  fixed_count (fix_css_paths guarded_archive "out" ["out/a.html"; "out/b.html"]) = 1%Z ∧
  fix_fs (fix_css_paths guarded_archive "out" ["out/a.html"; "out/b.html"]) !! "out/b.html"
  = Some (ReadOnly sample_page).
Proof.
  assert (Hnd2 : NoDup ["out/a.html"; "out/b.html"]).
  { repeat (apply NoDup_cons; split; [|]); try apply NoDup_nil_2.
    - intros H. apply list_elem_of_In in H. vm_compute in H. intuition discriminate.
    - intros H. apply list_elem_of_In in H. vm_compute in H. intuition discriminate. }
  destruct (fix_css_paths_summary guarded_archive "out" ["out/a.html"; "out/b.html"])
    as (_ & Hrun2 & _).
  destruct (Hrun2 eq_refl Hnd2) as (Hcount2 & _ & Hfs2 & _).
  assert (Hnd : NoDup sample_files).
  { unfold sample_files. repeat (apply NoDup_cons; split; [|]); try apply NoDup_nil_2.
    - intros H. apply list_elem_of_In in H. vm_compute in H. intuition discriminate.
    - intros H. apply list_elem_of_In in H. vm_compute in H. intuition discriminate.
    - intros H. apply list_elem_of_In in H. vm_compute in H. intuition discriminate. }
  destruct (fix_css_paths_summary sample_archive "out" sample_files) as (_ & Hrun & _).
  destruct (Hrun eq_refl Hnd) as (Hcount & _ & Hfs & _).
  split; [exact Hnd|]. split; [|split; [|split]].
  - rewrite Hcount. reflexivity.
  - rewrite Hfs. reflexivity.
  - rewrite Hcount2. reflexivity.
  - rewrite Hfs2. reflexivity.
Defined.

(** **** A second run *)

Lemma needs_fix_fixed fs html_files path :
  (∀ text, fs !! path = Some (File text) → path ∈ html_files → plain_paths text) →
  ∀ fs', (∀ p, fs' !! p = fixed_node fs html_files p) →
  path ∈ html_files → needs_fix fs' path = false.
Proof.
  intros Hplain fs' Hfs' Hin. unfold needs_fix at 1. rewrite Hfs'. unfold fixed_node.
  destruct (fs !! path) as [[text| | | |]|] eqn:Hpath; try done.
  rewrite bool_decide_eq_true_2 by done. cbn [andb].
  destruct (needs_fix fs path) eqn:Hn.
  - apply negb_false_iff, bool_decide_eq_true.
    fold (text_read (fix_content (text_read text))).
    rewrite <- (chars_of_chars (translate_newlines _)).
    fold (text_read (fix_content (text_read text))).
    rewrite text_read_fix_content. apply fix_content_same.
    apply fix_content_text_read_idempotent. by apply Hplain.
  - unfold needs_fix in Hn. by rewrite Hpath in Hn.
Qed.

(** X26: after a run of [fix_css_paths] over distinct files whose texts have
    plain paths, a second run over the same files fixes nothing and leaves
    the file system as the first run left it. *)
Theorem fix_css_paths_second_run (fs : FS) (output_dir : string) (html_files : list string) :
  path_exists fs output_dir = true →
  NoDup html_files →
  (∀ path text, path ∈ html_files → fs !! path = Some (File text) → plain_paths text) →
  let first := fix_css_paths fs output_dir html_files in
  let second := fix_css_paths (fix_fs first) output_dir html_files in
  fixed_count second = 0%Z ∧ fix_fs second = fix_fs first.
Proof.
  intros Hex Hnd Hplain. cbv zeta.
  pose proof (fix_css_paths_core fs output_dir html_files Hex) as Hcore.
  destruct (fix_all_spec html_files 0 fs Hnd) as [_ Hfs].
  unfold fix_all in Hcore. rewrite <- Hcore in Hfs. cbn [snd] in Hfs.
  set (fs1 := fix_fs (fix_css_paths fs output_dir html_files)) in *.
  assert (Hex1 : path_exists fs1 output_dir = true).
  { unfold path_exists in *. apply bool_decide_eq_true in Hex. apply bool_decide_eq_true.
    rewrite Hfs. unfold fixed_node. destruct Hex as [nd Hnd'].
    rewrite Hnd'. destruct nd; [destruct (_ && _)|..]; by eexists. }
  pose proof (fix_css_paths_core fs1 output_dir html_files Hex1) as Hcore2.
  destruct (fix_all_spec html_files 0 fs1 Hnd) as [Hn2 Hfs2].
  unfold fix_all in Hcore2. rewrite <- Hcore2 in Hn2, Hfs2. cbn [fst snd] in Hn2, Hfs2.
  assert (Hquiet : ∀ path, path ∈ html_files → needs_fix fs1 path = false).
  { intros path Hin. apply (needs_fix_fixed fs html_files path); [|exact Hfs | exact Hin].
    intros text Hpath _. by apply (Hplain path). }
  split.
  - rewrite Hn2, (filter_none (λ p, needs_fix fs1 p = true)); [done|].
    intros p Hp. by rewrite (Hquiet p Hp).
  - apply map_eq. intros path. rewrite Hfs2. unfold fixed_node.
    destruct (fs1 !! path) as [[text| | | |]|] eqn:Hpath; try done.
    case_bool_decide as Hin; [|done].
    by rewrite (Hquiet path Hin).
Qed.

Lemma fix_css_paths_second_run_witness :
  fixed_count (fix_css_paths (fix_fs (fix_css_paths sample_archive "out" sample_files))
                 "out" sample_files) = 0%Z.
Proof.
  assert (Hnd : NoDup sample_files).
  { unfold sample_files. repeat (apply NoDup_cons; split; [|]); try apply NoDup_nil_2.
    - intros H. apply list_elem_of_In in H. vm_compute in H. intuition discriminate.
    - intros H. apply list_elem_of_In in H. vm_compute in H. intuition discriminate.
    - intros H. apply list_elem_of_In in H. vm_compute in H. intuition discriminate. }
  assert (Hplain : ∀ path text, path ∈ sample_files →
            sample_archive !! path = Some (File text) → plain_paths text).
  { intros path text Hin. unfold sample_files in Hin.
    repeat (apply elem_of_cons in Hin as [->|Hin]).
    - intros [= <-]. apply plain_paths_decide. vm_compute. reflexivity.
    - intros [= <-]. apply plain_paths_decide. vm_compute. reflexivity.
    - intros H. vm_compute in H. discriminate.
    - by apply elem_of_nil in Hin. }
  exact (proj1 (fix_css_paths_second_run sample_archive "out" sample_files eq_refl Hnd Hplain)).
Defined.


(** *** The name of the course *)

(** **** Characters *)

Lemma all_chars (P : ascii → bool) :
  forallb P (map ascii_of_nat (seq 0 256)) = true → ∀ c, P c = true.
Proof.
  intros H c. rewrite forallb_forall in H. rewrite <- (ascii_nat_embedding c).
  apply H, in_map, in_seq. pose proof (nat_ascii_bounded c). lia.
Qed.

Lemma name_char_safe c :
  is_upper_az c || is_digit c || (is_space c && negb (bool_decide (c = " "%char))) = true →
  safe_char c.
Proof.
  intros H. apply safe_char_decide. revert H.
  pose proof (all_chars (λ c,
    implb (is_upper_az c || is_digit c || (is_space c && negb (bool_decide (c = " "%char))))
          (negb (is_illegal c) && negb (bool_decide (c = " "%char))))) as Hall.
  specialize (Hall ltac:(vm_compute; reflexivity) c). cbv beta in Hall.
  intros H. by rewrite H in Hall.
Qed.

Lemma capital_not_space_digit c :
  is_upper_az c = true → is_space c = false ∧ is_digit c = false.
Proof.
  pose proof (all_chars (λ c,
    implb (is_upper_az c) (negb (is_space c) && negb (is_digit c)))) as Hall.
  specialize (Hall ltac:(vm_compute; reflexivity) c). cbv beta in Hall.
  intros H. rewrite H in Hall. simpl in Hall.
  apply andb_true_iff in Hall as [?%negb_true_iff ?%negb_true_iff]. done.
Qed.

Lemma space_not_capital c : is_space c = true → is_upper_az c = false ∧ is_digit c = false.
Proof.
  pose proof (all_chars (λ c,
    implb (is_space c) (negb (is_upper_az c) && negb (is_digit c)))) as Hall.
  specialize (Hall ltac:(vm_compute; reflexivity) c). cbv beta in Hall.
  intros H. rewrite H in Hall. simpl in Hall.
  apply andb_true_iff in Hall as [?%negb_true_iff ?%negb_true_iff]. done.
Qed.

Lemma underscore_safe : safe_char "_"%char.
Proof. apply safe_char_decide. vm_compute. reflexivity. Qed.

Lemma code_chars_kept capitals digits :
  Forall (λ c, is_upper_az c = true) capitals → Forall (λ c, is_digit c = true) digits →
  map space_to_underscore capitals = capitals ∧ map space_to_underscore digits = digits.
Proof.
  intros Hcs Hds. split; apply space_to_underscore_id.
  - eapply Forall_impl; [exact Hcs|]. intros c Hc. apply name_char_safe. by rewrite Hc.
  - eapply Forall_impl; [exact Hds|]. intros c Hc. apply name_char_safe. rewrite Hc.
    by rewrite orb_true_r.
Qed.

(** **** The two searches *)

Lemma course_match_at_Some l code :
  course_match_at l = Some code →
  ∃ capitals spaces digits,
    code = capitals ++ spaces ++ digits ∧
    capitals ≠ [] ∧ Forall (λ c, is_upper_az c = true) capitals ∧
    Forall (λ c, is_space c = true) spaces ∧
    digits ≠ [] ∧ Forall (λ c, is_digit c = true) digits.
Proof.
  unfold course_match_at.
  case_bool_decide as Hc; [done|]. case_bool_decide as Hd; [done|]. simpl.
  intros [= <-]. eexists _, _, _. split; [done|].
  repeat split; try done; apply take_while_Forall.
Qed.

Lemma course_search_chars_Some l code :
  course_search_chars l = Some code →
  ∃ capitals spaces digits,
    code = capitals ++ spaces ++ digits ∧
    capitals ≠ [] ∧ Forall (λ c, is_upper_az c = true) capitals ∧
    Forall (λ c, is_space c = true) spaces ∧
    digits ≠ [] ∧ Forall (λ c, is_digit c = true) digits.
Proof.
  induction l as [|c l IH]; cbn [course_search_chars].
  - destruct (course_match_at []) eqn:Hm; [|done].
    intros [= <-]. by apply (course_match_at_Some []).
  - destruct (course_match_at (c :: l)) eqn:Hm; [|exact IH].
    intros [= <-]. by apply (course_match_at_Some (c :: l)).
Qed.

Lemma instance_search_chars_Some l digits :
  instance_search_chars l = Some digits →
  digits ≠ [] ∧ Forall (λ c, is_digit c = true) digits.
Proof.
  assert (Hat : ∀ l, instance_match_at l = Some digits →
            digits ≠ [] ∧ Forall (λ c, is_digit c = true) digits).
  { intros l0. unfold instance_match_at.
    destruct (strip_prefix _ l0) as [rest|]; [|done].
    case_bool_decide as Hd; [done|]. intros [= <-]. split; [done | apply take_while_Forall]. }
  induction l as [|c l IH]; cbn [instance_search_chars].
  - destruct (instance_match_at []) eqn:Hm; [|done]. intros [= <-]. by apply (Hat []).
  - destruct (instance_match_at (c :: l)) eqn:Hm; [|exact IH].
    intros [= <-]. by apply (Hat (c :: l)).
Qed.

Lemma extract_course_name_shape navbar_text current_url :
  let name := extract_course_name navbar_text current_url in
  name = DEFAULT_NAME ∨ course_number name ∨ course_code name.
Proof.
  cbv zeta. unfold extract_course_name.
  destruct navbar_text as [found|e]; [|by left].
  destruct (found ≫= _) as [code|] eqn:Hcode.
  - right; right. destruct found as [text|]; [|done]. simpl in Hcode.
    apply course_search_chars_Some in Hcode
      as (capitals & spaces & digits & -> & Hc & Hcs & Hs & Hd & Hds).
    exists capitals, spaces, digits. split; [|done]. f_equal.
    destruct (code_chars_kept capitals digits Hcs Hds) as [Hkc Hkd].
    by rewrite !map_app, Hkc, Hkd.
  - destruct current_url as [url|e]; [|by left].
    destruct (instance_search_chars (chars url)) as [digits|] eqn:Hd; [|by left].
    right; left. apply instance_search_chars_Some in Hd as [? ?]. by exists digits.
Qed.

Lemma of_chars_app l1 l2 : of_chars (l1 ++ l2) = of_chars l1 +:+ of_chars l2.
Proof. rewrite <- (of_chars_chars (_ +:+ _)), chars_app, !chars_of_chars. done. Qed.

Lemma safe_name_chars l : Forall safe_char l → safe_name (of_chars l).
Proof. intros H c Hc. rewrite chars_of_chars in Hc. by apply (proj1 (Forall_forall _ _) H). Qed.

Lemma course_name_safe name :
  name = DEFAULT_NAME ∨ course_number name ∨ course_code name →
  name ≠ "" ∧ safe_name name.
Proof.
  intros [->|[(digits & -> & Hd & Hds)|(capitals & spaces & digits & -> & Hc & Hcs & Hs & Hd & Hds)]].
  - split; [done|]. apply safe_name_decide. vm_compute. reflexivity.
  - split; [done|]. intros c. rewrite chars_app, chars_of_chars.
    intros [Hin|Hin]%elem_of_app.
    + assert (H : safe_name "Course_") by (apply safe_name_decide; vm_compute; reflexivity).
      by apply H.
    + apply name_char_safe. rewrite (proj1 (Forall_forall _ _) Hds c Hin).
      by rewrite orb_true_r.
  - split.
    + intros H. apply of_chars_nil in H. apply app_eq_nil in H as [? _]. done.
    + apply safe_name_chars. rewrite !Forall_app. split; [|split].
      * eapply Forall_impl; [exact Hcs|]. intros c Hcap. apply name_char_safe. by rewrite Hcap.
      * apply Forall_fmap. eapply Forall_impl; [exact Hs|]. intros c Hsp. simpl.
        unfold space_to_underscore. destruct (decide (c = " "%char)) as [->|Hne].
        -- apply underscore_safe.
        -- apply name_char_safe. rewrite Hsp. simpl.
           rewrite bool_decide_eq_false_2 by done. by rewrite orb_true_r.
      * eapply Forall_impl; [exact Hds|]. intros c Hdig. apply name_char_safe.
        rewrite Hdig. by rewrite orb_true_r.
Qed.

(** X27: whatever the page and the browser give, also exceptions, the name
    of the course is the default name, [Course_] followed by digits, or a
    course code of capital letters, white space with every space replaced by
    an underscore, and digits.  It is never empty and it is a safe name, so
    the output directory made from it is a directory path to which the
    folders of the questions can be joined. *)
Theorem extract_course_name_wellformed (navbar_text : outcome (option string))
    (current_url : outcome string) :
  let name := extract_course_name navbar_text current_url in
  (name = DEFAULT_NAME ∨ course_number name ∨ course_code name) ∧
  name ≠ "" ∧ safe_name name ∧
  open_dir (output_dir_of name) ∧ safe_name (output_dir_of name).
Proof.
  cbv zeta.
  pose proof (extract_course_name_shape navbar_text current_url) as Hshape. cbv zeta in Hshape.
  destruct (course_name_safe _ Hshape) as [Hne Hsafe].
  split; [exact Hshape|]. split; [exact Hne|]. split; [exact Hsafe|].
  assert (Htail : safe_name "_archive") by (apply safe_name_decide; vm_compute; reflexivity).
  assert (Hboth : safe_name (output_dir_of (extract_course_name navbar_text current_url))).
  { intros c. unfold output_dir_of. rewrite chars_app.
    intros [Hin|Hin]%elem_of_app; [by apply Hsafe | by apply Htail]. }
  split; [|exact Hboth].
  apply component_no_slash. split; [exact Hboth|].
  unfold output_dir_of. intros H. apply (f_equal chars) in H. rewrite chars_app in H.
  apply app_eq_nil in H as [_ H]. done.
Qed.

(** **** The usual navbar text *)

Lemma take_while_app_stop f a rest :
  Forall (λ c, f c = true) a →
  match rest with c :: _ => f c = false | [] => True end →
  take_while f (a ++ rest) = a ∧ drop_while f (a ++ rest) = rest.
Proof.
  intros Ha Hrest. induction Ha as [|c a Hc _ IH]; simpl.
  - destruct rest as [|c rest]; [done|]. simpl. by rewrite Hrest.
  - rewrite Hc. destruct IH as [-> ->]. done.
Qed.

(** X28: when the navbar text starts with capital letters, white space or
    none, and digits, followed by something that is not a digit, the name of
    the course is this course code with every space replaced by an
    underscore, whatever the URL of the browser is. *)
Theorem extract_course_name_code (capitals spaces digits rest : list ascii)
    (current_url : outcome string) :
  capitals ≠ [] → Forall (λ c, is_upper_az c = true) capitals →
  Forall (λ c, is_space c = true) spaces →
  digits ≠ [] → Forall (λ c, is_digit c = true) digits →
  match rest with c :: _ => is_digit c = false | [] => True end →
  extract_course_name (Ok (Some (of_chars (capitals ++ spaces ++ digits ++ rest)))) current_url
  = of_chars (capitals ++ map space_to_underscore spaces ++ digits).
Proof.
  intros Hc Hcs Hs Hd Hds Hrest. unfold extract_course_name. cbn [mbind option_bind].
  rewrite chars_of_chars.
  assert (Hm : course_match_at (capitals ++ spaces ++ digits ++ rest)
               = Some (capitals ++ spaces ++ digits)).
  { unfold course_match_at.
    destruct (take_while_app_stop is_upper_az capitals (spaces ++ digits ++ rest) Hcs)
      as [-> ->].
    { destruct spaces as [|c s]; simpl.
      - destruct digits as [|c d]; [done|]. simpl. apply Forall_cons in Hds as [Hdc _].
        pose proof (capital_not_space_digit c) as H.
        destruct (is_upper_az c); [destruct H; congruence | done].
      - apply Forall_cons in Hs as [Hsc _]. by apply space_not_capital in Hsc as [? _]. }
    destruct (take_while_app_stop is_space spaces (digits ++ rest) Hs) as [-> ->].
    { destruct digits as [|c d]; [done|]. simpl. apply Forall_cons in Hds as [Hdc _].
      by apply digit_not_space. }
    destruct (take_while_app_stop is_digit digits rest Hds Hrest) as [-> _].
    rewrite !bool_decide_eq_false_2 by done. done. }
  assert (Hs' : course_search_chars (capitals ++ spaces ++ digits ++ rest)
                = Some (capitals ++ spaces ++ digits)).
  { revert Hm. generalize (capitals ++ spaces ++ digits ++ rest). intros l Hm.
    destruct l; cbn [course_search_chars]; by rewrite Hm. }
  rewrite Hs'. f_equal.
  destruct (code_chars_kept capitals digits Hcs Hds) as [Hkc Hkd].
  by rewrite !map_app, Hkc, Hkd.
Qed.

Lemma extract_course_name_code_witness :
  extract_course_name (Ok (Some "CS 233, Fa25")) (Exc "no such window") = "CS_233".
Proof.
  apply (extract_course_name_code (chars "CS") (chars " ") (chars "233") (chars ", Fa25")
           (Exc "no such window")); try done; vm_compute; repeat constructor.
Defined.

(** The fallbacks: the number of the course instance in the URL, then the
    default name. *)
Example extract_course_name_from_url :
  extract_course_name (Ok None)
    (Ok "https://us.prairielearn.com/pl/course_instance/187654/assessments")
  = "Course_187654".
Proof. vm_compute. reflexivity. Qed.

Example extract_course_name_default :
  extract_course_name (Ok (Some "PrairieLearn")) (Ok "https://us.prairielearn.com/pl") =
  DEFAULT_NAME.
Proof. vm_compute. reflexivity. Qed.

(** White space other than the space stays in the name. *)
Example extract_course_name_keeps_tab :
  extract_course_name (Ok (Some (of_chars (chars "CS" ++ ["009"%char] ++ chars "233"))))
    (Exc "no such window")
  = of_chars (chars "CS" ++ ["009"%char] ++ chars "233").
Proof. vm_compute. reflexivity. Qed.


(** *** The download of the images of a page *)

(** **** Names *)

Lemma basename_no_slash path : "/"%char ∉ chars (Images.basename path).
Proof.
  unfold Images.basename. rewrite chars_of_chars. intros Hin.
  apply list_elem_of_In, in_rev, list_elem_of_In in Hin.
  pose proof (take_while_Forall (λ c, negb (bool_decide (c = "/"%char)))
                (rev (chars path))) as Hall.
  apply (proj1 (Forall_forall _ _) Hall) in Hin. by vm_compute in Hin.
Qed.

Lemma hex_no_slash l : Forall (λ c, c ∈ hex_chars) l → "/"%char ∉ l.
Proof.
  intros Hall Hin. apply (proj1 (Forall_forall _ _) Hall) in Hin.
  apply hex_chars_safe in Hin as [Hill _]. by apply Hill, slash_illegal.
Qed.

Lemma filename_of_plain src path :
  Images.filename_of src path ≠ "" ∧ "/"%char ∉ chars (Images.filename_of src path).
Proof.
  unfold Images.filename_of. cbv zeta. case_bool_decide as Hb.
  - split; [done|]. rewrite !chars_app, chars_of_chars.
    intros [Hin|[Hin|Hin]%elem_of_app]%elem_of_app.
    + apply list_elem_of_In in Hin. vm_compute in Hin. intuition discriminate.
    + by apply (hex_no_slash _ (hash_suffix_hex src)).
    + apply list_elem_of_In in Hin. vm_compute in Hin. intuition discriminate.
  - split; [done | apply basename_no_slash].
Qed.

(** **** One turn and the loop *)

Lemma retry_loop_asks net url cookies max_retries (P : string → Prop) :
  P url → ∀ attempts tr,
  Forall (Images.asks_for P) tr →
  Forall (Images.asks_for P) (retry_loop net url cookies max_retries attempts tr).2.
Proof.
  intros Hp. induction attempts as [|attempt rest IH]; intros tr Htr; [done|].
  cbn [retry_loop].
  assert (Hreq : Forall (Images.asks_for P) (tr ++ [EvRequest url attempt])).
  { apply Forall_app. split; [done|]. by apply Forall_singleton. }
  destruct (net url cookies attempt) as [status content| |e].
  - destruct (status =? 200)%Z; [done|]. destruct (status =? 401)%Z.
    + cbn [snd]. apply Forall_app. split; [done|]. by apply Forall_singleton.
    + by apply IH.
  - apply IH. apply Forall_app. split; [done|]. by repeat constructor.
  - apply IH. apply Forall_app. split; [done|]. by repeat constructor.
Qed.

Lemma download_requests net url cookies :
  requests (download_with_retry net url cookies MAX_RETRIES).2 ≤ 3.
Proof.
  unfold download_with_retry.
  destruct (retry_loop_spec net url cookies MAX_RETRIES 3 0 []) as (p & Hp & Hreq & _).
  change (py_range MAX_RETRIES) with (attempts_from 0 3). rewrite Hreq. cbn. lia.
Qed.

Lemma image_turn_spec site images_folder cookies st src :
  let r := Images.image_turn site images_folder cookies st src in
  Images.local_src src r.1 ∧
  (∃ events,
     Images.run_trace r.2 = Images.run_trace st ++ events ∧
     requests events ≤ (if Images.wanted src then 3 else 0) ∧
     Forall (Images.asks_for (λ url, url = src ∧ Images.wanted src = true)) events) ∧
  (Images.downloaded_count st ≤ Images.downloaded_count r.2
   ≤ Images.downloaded_count st + (if Images.wanted src then 1 else 0))%Z.
Proof.
  cbv zeta. unfold Images.image_turn.
  assert (Hnone : ∃ events,
            Images.run_trace st = Images.run_trace st ++ events ∧
            requests events ≤ (if Images.wanted src then 3 else 0) ∧
            Forall (Images.asks_for (λ url, url = src ∧ Images.wanted src = true)) events).
  { exists []. rewrite app_nil_r. split; [done|]. split; [cbn; lia | done]. }
  destruct (Images.wanted src) eqn:Hw; cbn [fst snd].
  2: { split; [by left|]. split; [exact Hnone | lia]. }
  destruct (Images.url_path site src) as [path|e]; cbn [fst snd Images.logged Images.run_trace
                                                   Images.downloaded_count].
  2: { split; [by left|]. split; [exact Hnone | lia]. }
  assert (Hlocal : Images.local_src src ("images/" +:+ Images.filename_of src path)).
  { right. split; [done|]. exists (Images.filename_of src path).
    destruct (filename_of_plain src path). done. }
  destruct (Images.on_disk _ _); cbn [fst snd].
  { split; [exact Hlocal|]. split; [exact Hnone | lia]. }
  pose proof (download_requests (Images.net site) src cookies) as Hreq.
  pose proof (retry_loop_asks (Images.net site) src cookies MAX_RETRIES
                (λ url, url = src ∧ Images.wanted src = true) (conj eq_refl Hw)
                (py_range MAX_RETRIES) [] (Forall_nil_2 _)) as Hasks.
  fold (download_with_retry (Images.net site) src cookies MAX_RETRIES) in Hasks.
  destruct (download_with_retry (Images.net site) src cookies MAX_RETRIES) as [content events].
  cbn [snd] in Hreq, Hasks.
  assert (Hsome : ∃ events0,
            Images.run_trace st ++ events = Images.run_trace st ++ events0 ∧
            requests events0 ≤ 3 ∧
            Forall (Images.asks_for (λ url, url = src ∧ true = true)) events0).
  { exists events. split; [done|]. split; [done|]. by rewrite Hw in Hasks. }
  destruct content as [[|b bytes]|]; cbn [fst snd Images.run_trace Images.run_fs
                                           Images.downloaded_count].
  - split; [by left|]. split; [exact Hsome | lia].
  - destruct (Images.write_bytes site _ _ _) as [[e|] fs];
      cbn [fst snd Images.run_trace Images.downloaded_count].
    + split; [by left|]. split; [exact Hsome | lia].
    + split; [exact Hlocal|]. split; [exact Hsome | lia].
  - split; [by left|]. split; [exact Hsome | lia].
Qed.

Lemma image_loop_spec site images_folder cookies images : ∀ st,
  let r := Images.image_loop site images_folder cookies images st in
  Forall2 Images.local_src images r.1 ∧
  (∃ events,
     Images.run_trace r.2 = Images.run_trace st ++ events ∧
     requests events ≤ 3 * length (filter (λ src, Images.wanted src = true) images) ∧
     Forall (Images.asks_for (λ url, url ∈ images ∧ Images.wanted url = true)) events) ∧
  (Images.downloaded_count st ≤ Images.downloaded_count r.2
   ≤ Images.downloaded_count st
     + Z.of_nat (length (filter (λ src, Images.wanted src = true) images)))%Z.
Proof.
  induction images as [|src rest IH]; intros st; cbv zeta.
  { cbn. split; [done|]. split; [|lia]. exists []. by rewrite app_nil_r. }
  cbn [Images.image_loop].
  pose proof (image_turn_spec site images_folder cookies st src) as Hturn. cbv zeta in Hturn.
  destruct (Images.image_turn site images_folder cookies st src) as [src' st1].
  cbn [fst snd] in Hturn. destruct Hturn as (Hsrc & (ev1 & Htr1 & Hreq1 & Hasks1) & Hcount1).
  specialize (IH st1). cbv zeta in IH.
  destruct (Images.image_loop site images_folder cookies rest st1) as [srcs st2].
  cbn [fst snd] in IH |- *. destruct IH as (Hsrcs & (ev2 & Htr2 & Hreq2 & Hasks2) & Hcount2).
  assert (Hlen : length (filter (λ s, Images.wanted s = true) (src :: rest))
                 = (if Images.wanted src then 1 else 0)
                   + length (filter (λ s, Images.wanted s = true) rest)).
  { rewrite filter_cons. destruct (Images.wanted src); by case_decide. }
  split; [by constructor|]. split.
  - exists (ev1 ++ ev2). split; [by rewrite Htr2, Htr1, app_assoc|]. split.
    + rewrite requests_app, Hlen. destruct (Images.wanted src); lia.
    + apply Forall_app. split.
      * eapply Forall_impl; [exact Hasks1|]. intros [url a| | |]; try done.
        cbn. intros [-> ?]. split; [by left | done].
      * eapply Forall_impl; [exact Hasks2|]. intros [url a| | |]; try done.
        cbn. intros [? ?]. split; [by right | done].
  - rewrite Hlen. destruct (Images.wanted src); lia.
Qed.

(** X29: [download_images] returns the page as it was when it has no
    image; otherwise it raises only when the images folder cannot be made or
    the cookies cannot be read, and else returns the page written out with
    new [src] values, each the old value or, for an image that was wanted,
    [images/] followed by a non-empty file name without a slash.  At most 3
    requests are made for each wanted image, every request asks for the
    [src] of a wanted image of the page, and the count of the downloads is
    at most the number of wanted images. *)
Theorem download_images_contract (site : Images.Site) (fs : FS)
    (html_content question_folder : string) :
  let images := Images.parse_images site html_content in
  let wanted_images := filter (λ src, Images.wanted src = true) images in
  let r := Images.download_images site fs html_content question_folder in
  (images = [] → r = (Ok html_content, Images.start fs)) ∧
  (images ≠ [] →
   match Images.makedirs site fs (path_join question_folder ["images"]) with
   | (Some e, fs') => r = (Exc e, Images.start fs')
   | (None, fs') =>
       match Images.get_cookies site with
       | Exc e => r = (Exc e, Images.start fs')
       | Ok _ =>
           ∃ srcs, r.1 = Ok (Images.render site html_content srcs) ∧
                   Forall2 Images.local_src images srcs
       end
   end) ∧
  requests (Images.run_trace r.2) ≤ 3 * length wanted_images ∧
  Forall (Images.asks_for (λ url, url ∈ images ∧ Images.wanted url = true))
         (Images.run_trace r.2) ∧
  (0 ≤ Images.downloaded_count r.2 ≤ Z.of_nat (length wanted_images))%Z.
Proof.
  cbv zeta. unfold Images.download_images. cbv zeta.
  destruct (decide (Images.parse_images site html_content = [])) as [Hnil|Hsome].
  { rewrite bool_decide_eq_true_2 by done. cbn. split; [done|]. split; [done|].
    split; [lia|]. split; [done | lia]. }
  rewrite bool_decide_eq_false_2 by done.
  destruct (Images.makedirs site fs _) as [[e|] fs'].
  { cbn. split; [done|]. split; [done|]. split; [lia|]. split; [done | lia]. }
  destruct (Images.get_cookies site) as [cookies|e].
  2: { cbn. split; [done|]. split; [done|]. split; [lia|]. split; [done | lia]. }
  pose proof (image_loop_spec site (path_join question_folder ["images"]) cookies
                (Images.parse_images site html_content) (Images.start fs')) as Hloop.
  cbv zeta in Hloop.
  destruct (Images.image_loop site _ cookies _ (Images.start fs')) as [srcs st].
  cbn [fst snd Images.start Images.run_trace Images.downloaded_count] in Hloop.
  destruct Hloop as (Hsrcs & (events & Htr & Hreq & Hasks) & Hcount).
  cbn [app] in Htr. subst events.
  assert (Hsame : ∀ st' : Images.Run,
            st' = (if (0 <? Images.downloaded_count st)%Z
                   then Images.logged INFO ("  Downloaded "
                          +:+ py_str_of_Z (Images.downloaded_count st) +:+ " image(s)") st
                   else st) →
            Images.run_trace st' = Images.run_trace st ∧
            Images.downloaded_count st' = Images.downloaded_count st).
  { intros st' ->. by destruct (0 <? _)%Z. }
  cbn [fst snd]. destruct (Hsame _ eq_refl) as [-> ->].
  split; [done|]. split; [intros _; by exists srcs|]. split; [exact Hreq|].
  split; [exact Hasks | lia].
Qed.

(** **** Images that are on the disk *)

Lemma image_loop_cached site images_folder cookies images : ∀ st,
  Images.all_cached site (Images.run_fs st) images_folder images →
  Images.image_loop site images_folder cookies images st
  = (Images.cached_src site <$> images, st).
Proof.
  induction images as [|src rest IH]; intros st Hall; [done|].
  cbn [Images.image_loop]. rewrite fmap_cons.
  assert (Hturn : Images.image_turn site images_folder cookies st src
                  = (Images.cached_src site src, st)).
  { unfold Images.image_turn, Images.cached_src.
    destruct (Images.wanted src) eqn:Hw; [|done].
    destruct (Hall src) as (path & -> & Hdisk); [by left | done|]. cbv zeta.
    by rewrite Hdisk. }
  rewrite Hturn, IH; [done|].
  intros s Hs. apply Hall. by right.
Qed.

(** X30: when the images folder can be made, the cookies can be read and
    every wanted image of the page is on the disk with a size above 0,
    [download_images] makes no request, writes and logs nothing, and returns
    the page with the [src] of every wanted image set to its local path and
    every other [src] as it was. *)
Theorem download_images_cached (site : Images.Site) (fs fs' : FS)
    (html_content question_folder : string) (cookies : Cookies) :
  Images.makedirs site fs (path_join question_folder ["images"]) = (None, fs') →
  Images.get_cookies site = Ok cookies →
  Images.all_cached site fs' (path_join question_folder ["images"])
    (Images.parse_images site html_content) →
  Images.parse_images site html_content ≠ [] →
  Images.download_images site fs html_content question_folder
  = (Ok (Images.render site html_content
           (Images.cached_src site <$> Images.parse_images site html_content)),
     Images.start fs').
Proof.
  intros Hmk Hck Hall Hsome. unfold Images.download_images. cbv zeta.
  rewrite bool_decide_eq_false_2 by done. rewrite Hmk, Hck.
  by rewrite (image_loop_cached site _ cookies _ (Images.start fs') Hall).
Qed.

Lemma download_images_cached_witness :
  Images.download_images two_images disk_with_figure "<html>" "q"
  = (Ok "images/fig.png,https://example.org/logo.png", Images.start disk_with_figure).
Proof.
  assert (Hall : Images.all_cached two_images disk_with_figure (path_join "q" ["images"])
                   (Images.parse_images two_images "<html>")).
  { intros src Hsrc Hw. exists "/pl/course_instance/1/clientFilesCourse/fig.png".
    split; [done|]. vm_compute. reflexivity. }
  assert (Hsome : Images.parse_images two_images "<html>" ≠ []) by done.
  rewrite (download_images_cached two_images disk_with_figure disk_with_figure "<html>" "q" []
             eq_refl eq_refl Hall Hsome).
  reflexivity.
Defined.

